(** * Commit synthesis and anonymization: a shallow embedding

    The development follows the three components of the exporter:
    - [src/lib/git/anonymizer.ts]: deterministic, structure-preserving hashing;
    - [src/lib/git/repositoryManager.ts]: a wrapper around the git executable;
    - [src/formatters/git.ts]: the orchestrator turning contributions into commits.

    A JavaScript string is represented by the bytes of its UTF-8 encoding
    (a Rocq [string]); this is the byte sequence that [update] feeds to the
    digest, and every character the code inspects individually is ASCII,
    except the members of the class [\s], which are matched through their
    encodings. *)

From Stdlib Require Import NArith ZArith Ascii String List Lia DecimalString Sorted.
From stdpp Require Import base option gmap strings list.

Open Scope list_scope.
Open Scope string_scope.

(** ** SHA-256 (FIPS 180-4), the digest behind [createHash('sha256')] *)
Module Sha256.

Local Open Scope N_scope.

Definition mask32 : N := 0xFFFFFFFF.
Definition add32 (a b : N) : N := N.land (a + b) mask32.
Definition rotr (n x : N) : N :=
  N.land (N.lor (N.shiftr x n) (N.shiftl x (32 - n))) mask32.
Definition not32 (x : N) : N := N.lxor x mask32.

Definition Ch (x y z : N) : N := N.lxor (N.land x y) (N.land (not32 x) z).
Definition Maj (x y z : N) : N :=
  N.lxor (N.lxor (N.land x y) (N.land x z)) (N.land y z).
Definition Sigma0 (x : N) : N := N.lxor (N.lxor (rotr 2 x) (rotr 13 x)) (rotr 22 x).
Definition Sigma1 (x : N) : N := N.lxor (N.lxor (rotr 6 x) (rotr 11 x)) (rotr 25 x).
Definition sigma0 (x : N) : N := N.lxor (N.lxor (rotr 7 x) (rotr 18 x)) (N.shiftr x 3).
Definition sigma1 (x : N) : N := N.lxor (N.lxor (rotr 17 x) (rotr 19 x)) (N.shiftr x 10).

(** The constants are derived rather than tabulated: the round constants
    are the first 32 bits of the fractional parts of the cube roots of the
    first 64 primes, the initial hash value those of the square roots of
    the first 8 primes. *)
Definition is_prime (n : nat) : bool :=
  forallb (fun d => negb (n mod d =? 0)%nat) (seq 2 (n - 2)).

Definition primes : list N := map N.of_nat (filter is_prime (seq 2 310)).

(** The integer cube root, found bit by bit from the top. *)
Definition cube_root (n : N) : N :=
  fold_left (fun r b => let r' := r + N.shiftl 1 (N.of_nat b) in
                        if r' * r' * r' <=? n then r' else r)
            (rev (seq 0 40)) 0.

Definition K : list N :=
  Eval vm_compute in map (fun p => N.land (cube_root (N.shiftl p 96)) mask32) primes.

(** The eight working variables / the chaining value. *)
Record state := St { sa : N; sb : N; sc : N; sd : N; se : N; sf : N; sg : N; sh : N }.

Definition fractional_sqrt (p : N) : N := N.land (N.sqrt (N.shiftl p 64)) mask32.

Definition H0 : state :=
  Eval vm_compute in
    St (fractional_sqrt 2) (fractional_sqrt 3) (fractional_sqrt 5) (fractional_sqrt 7)
       (fractional_sqrt 11) (fractional_sqrt 13) (fractional_sqrt 17) (fractional_sqrt 19).

(** Message padding: a 1 bit, zeros up to 56 mod 64, the bit length on 8 bytes. *)
Definition be_bytes (width : nat) (x : N) : list N :=
  map (fun i => N.land (N.shiftr x (8 * N.of_nat i)) 0xFF) (rev (seq 0 width)).

Definition pad (msg : list N) : list N :=
  let len := N.of_nat (List.length msg) in
  let zeros := N.to_nat ((119 - len mod 64) mod 64) in
  msg ++ 0x80 :: repeat 0 zeros ++ be_bytes 8 (8 * len).

Fixpoint words (bytes : list N) : list N :=
  match bytes with
  | b0 :: b1 :: b2 :: b3 :: rest =>
      (N.shiftl b0 24 + N.shiftl b1 16 + N.shiftl b2 8 + b3) :: words rest
  | _ => []
  end.

Fixpoint chunks {A} (size count : nat) (l : list A) : list (list A) :=
  match count with
  | O => []
  | S count' => firstn size l :: chunks size count' (skipn size l)
  end.

(** Message schedule: [w] holds W_(t-1) ... W_0, most recent first. *)
Fixpoint extend (rounds : nat) (w : list N) : list N :=
  match rounds with
  | O => w
  | S rounds' =>
      let wt := add32 (add32 (sigma1 (nth 1 w 0)) (nth 6 w 0))
                      (add32 (sigma0 (nth 14 w 0)) (nth 15 w 0)) in
      extend rounds' (wt :: w)
  end.

Definition schedule (block : list N) : list N := rev (extend 48 (rev block)).

Definition round (s : state) (kw : N * N) : state :=
  let '(k, w) := kw in
  let t1 := add32 (add32 (add32 (add32 (sh s) (Sigma1 (se s))) (Ch (se s) (sf s) (sg s))) k) w in
  let t2 := add32 (Sigma0 (sa s)) (Maj (sa s) (sb s) (sc s)) in
  St (add32 t1 t2) (sa s) (sb s) (sc s) (add32 (sd s) t1) (se s) (sf s) (sg s).

Definition compress (h : state) (block : list N) : state :=
  let s := fold_left round (combine K (schedule block)) h in
  St (add32 (sa h) (sa s)) (add32 (sb h) (sb s)) (add32 (sc h) (sc s)) (add32 (sd h) (sd s))
     (add32 (se h) (se s)) (add32 (sf h) (sf s)) (add32 (sg h) (sg s)) (add32 (sh h) (sh s)).

Definition digest (msg : list N) : state :=
  let ws := words (pad msg) in
  fold_left compress (chunks 16 (List.length ws / 16) ws) H0.

(** Lowercase hexadecimal rendering, as [digest('hex')] produces it. *)
Definition hex_digit (n : N) : ascii :=
  match n with
  | 0 => "0" | 1 => "1" | 2 => "2" | 3 => "3" | 4 => "4" | 5 => "5" | 6 => "6" | 7 => "7"
  | 8 => "8" | 9 => "9" | 10 => "a" | 11 => "b" | 12 => "c" | 13 => "d" | 14 => "e" | _ => "f"
  end%char.

Definition nibble (x : N) (i : nat) : N := N.land (N.shiftr x (4 * N.of_nat i)) 0xF.

Definition hex32 (x : N) (tail : string) : string :=
  String (hex_digit (nibble x 7)) (String (hex_digit (nibble x 6))
  (String (hex_digit (nibble x 5)) (String (hex_digit (nibble x 4))
  (String (hex_digit (nibble x 3)) (String (hex_digit (nibble x 2))
  (String (hex_digit (nibble x 1)) (String (hex_digit (nibble x 0)) tail))))))).

Definition hex_of_state (s : state) : string :=
  hex32 (sa s) (hex32 (sb s) (hex32 (sc s) (hex32 (sd s)
  (hex32 (se s) (hex32 (sf s) (hex32 (sg s) (hex32 (sh s) ""))))))).

Definition bytes_of_string (s : string) : list N := map N_of_ascii (list_ascii_of_string s).

Definition sha256_hex (s : string) : string := hex_of_state (digest (bytes_of_string s)).

End Sha256.

(** ** The fragment of ECMAScript regular expressions used by the anonymizer

    A backtracking matcher in continuation-passing style: quantifiers are
    greedy, alternatives are tried from left to right, and an iteration of
    [Star] that consumes nothing is rejected, as RepeatMatcher does. *)
Module Regex.

Inductive regex : Type :=
  | Eps
  | Fail
  | Chr (c : ascii)
  | Cls (p : ascii -> bool)
  | Seq (r1 r2 : regex)
  | Alt (r1 r2 : regex)
  | Opt (r : regex)
  | Star (r : regex).

Definition Plus (r : regex) : regex := Seq r (Star r).

Definition in_range (lo hi c : ascii) : bool :=
  (nat_of_ascii lo <=? nat_of_ascii c)%nat && (nat_of_ascii c <=? nat_of_ascii hi)%nat.

(** Canonicalize of a pattern without the [u] flag: the upper-case form, and
    no character outside ASCII is ever folded onto an ASCII one. *)
Definition canonicalize (c : ascii) : ascii :=
  if in_range "a" "z" c then ascii_of_nat (nat_of_ascii c - 32) else c.

Definition chr_matches (ignoreCase : bool) (c x : ascii) : bool :=
  if ignoreCase then Ascii.eqb (canonicalize c) (canonicalize x) else Ascii.eqb c x.

(** Greedy iteration of [step]: one more round if it succeeds (with the rest
    of the pattern after it) and has consumed input, the continuation
    otherwise. Each round shortens the input, so [fuel] beyond its length is
    never used up. *)
Fixpoint iterate (step : string -> (string -> option string) -> option string)
    (k : string -> option string) (fuel : nat) (s : string) : option string :=
  match fuel with
  | O => k s
  | S fuel' =>
      match step s (fun s1 => if (String.length s1 <? String.length s)%nat
                              then iterate step k fuel' s1 else None) with
      | Some rest => Some rest
      | None => k s
      end
  end.

Fixpoint exec (ignoreCase : bool) (r : regex) (s : string)
    (k : string -> option string) : option string :=
  match r with
  | Eps => k s
  | Fail => None
  | Chr c =>
      match s with
      | String x s' => if chr_matches ignoreCase c x then k s' else None
      | EmptyString => None
      end
  | Cls p =>
      match s with
      | String x s' => if p x then k s' else None
      | EmptyString => None
      end
  | Seq r1 r2 => exec ignoreCase r1 s (fun s1 => exec ignoreCase r2 s1 k)
  | Alt r1 r2 =>
      match exec ignoreCase r1 s k with
      | Some rest => Some rest
      | None => exec ignoreCase r2 s k
      end
  | Opt r1 =>
      match exec ignoreCase r1 s k with
      | Some rest => Some rest
      | None => k s
      end
  | Star r1 => iterate (exec ignoreCase r1) k (S (String.length s)) s
  end.

(** [s.match(/^r/)[0]] for a pattern anchored at the start of the input
    (no [g] or [m] flag): the matched text, or [None] for [null]. *)
Definition match_anchored (ignoreCase : bool) (r : regex) (s : string) : option string :=
  match exec ignoreCase r s Some with
  | Some rest => Some (substring 0 (String.length s - String.length rest) s)
  | None => None
  end.

Fixpoint lit (s : string) : regex :=
  match s with
  | EmptyString => Eps
  | String c s' => Seq (Chr c) (lit s')
  end.

Definition alts (rs : list regex) : regex := fold_right Alt Fail rs.

(** [\w] *)
Definition word_char (c : ascii) : bool :=
  in_range "a" "z" c || in_range "A" "Z" c || in_range "0" "9" c || Ascii.eqb c "_".

(** UTF-8 encoding of a code point of the Basic Multilingual Plane. *)
Definition utf8 (cp : N) : string :=
  let byte (n : N) := String (ascii_of_N n) EmptyString in
  if (cp <? 0x80)%N then byte cp
  else if (cp <? 0x800)%N then
    byte (0xC0 + N.shiftr cp 6)%N ++ byte (0x80 + N.land cp 0x3F)%N
  else
    byte (0xE0 + N.shiftr cp 12)%N ++ byte (0x80 + N.land (N.shiftr cp 6) 0x3F)%N
      ++ byte (0x80 + N.land cp 0x3F)%N.

(** [\s]: the WhiteSpace and LineTerminator code points of ECMAScript. *)
Definition white_space : list N :=
  [ 0x09; 0x0A; 0x0B; 0x0C; 0x0D; 0x20; 0xA0; 0x1680;
    0x2000; 0x2001; 0x2002; 0x2003; 0x2004; 0x2005; 0x2006; 0x2007; 0x2008; 0x2009; 0x200A;
    0x2028; 0x2029; 0x202F; 0x205F; 0x3000; 0xFEFF ]%N.

Definition space_tokens : list string := map utf8 white_space.

Definition space : regex := alts (map lit space_tokens).

End Regex.

(** ** src/lib/git/anonymizer.ts *)
Module Anonymizer.
Import Regex.

(** [s.substring(n)] *)
Definition substring_from (n : nat) (s : string) : string :=
  substring n (String.length s - n) s.

Definition createConsistentHash (input : string) (length : nat) : string :=
  substring 0 length (Sha256.sha256_hex input).

Definition keywords : list string :=
  [ "feat"; "fix"; "docs"; "style"; "refactor"; "perf"; "test"; "chore"; "build"; "ci"; "revert" ].

Definition scope_char (c : ascii) : bool := word_char c || Ascii.eqb c "-".

(** [\([\w-]+\)] *)
Definition scope_pattern : regex :=
  Seq (Chr "(") (Seq (Plus (Cls scope_char)) (Chr ")")).

(** [/^(feat|fix|docs|style|refactor|perf|test|chore|build|ci|revert)(\([\w-]+\))?:\s*/i] *)
Definition conventionalPrefixPattern : regex :=
  Seq (alts (map lit keywords))
 (Seq (Opt scope_pattern)
 (Seq (Chr ":")
      (Star space))).

Definition anonymizeMessage (message : option string) : string :=
  match message with
  | None | Some "" => "hash_" ++ createConsistentHash "empty" 8
  | Some message =>
      match match_anchored true conventionalPrefixPattern message with
      | Some prefix =>
          let content := substring_from (String.length prefix) message in
          prefix ++ "hash_" ++ createConsistentHash content 8
      | None => "hash_" ++ createConsistentHash message 8
      end
  end.

Definition anonymizeRepository (repository : option string) : string :=
  match repository with
  | None | Some "" => "repo_" ++ createConsistentHash "unknown" 8
  | Some repository => "repo_" ++ createConsistentHash repository 8
  end.

(** ['commit' | 'pr' | 'review'] *)
Inductive TextKind : Type := commit | pr | review.

Definition kind_name (k : TextKind) : string :=
  match k with commit => "commit" | pr => "pr" | review => "review" end.

Definition anonymizeText (text : option string) (type : TextKind) : string :=
  match text with
  | None | Some "" =>
      (kind_name type ++ "_hash_") ++ createConsistentHash (kind_name type ++ "_empty") 8
  | Some t =>
      match type with
      | commit => anonymizeMessage text
      | _ => (kind_name type ++ "_hash_") ++ createConsistentHash t 8
      end
  end.

End Anonymizer.


(** ** The process and its surroundings

    Everything the exporter touches outside its own locals: the environment
    of the process, the file system, the arrays shared with the caller, the
    console, and the git executable reached through simple-git. *)
Module Js.

(** [array.push(x)] *)
Definition push {A} (l : list A) (x : A) : list A := (l ++ [x])%list.

(** The outcome of a call: a value, or a thrown [Error] with its message. *)
Inductive result (A : Type) : Type :=
  | Ok (a : A)
  | Throw (message : string).
Arguments Ok {A} a.
Arguments Throw {A} message.

(** Modelled from the spec: the Contribution record of [src/types.ts]
    (spec section 3); an optional field is [None] when undefined. *)
Record Contribution : Type := mkContribution {
  type : string;
  timestamp : string;
  repository : option string;
  projectId : option string;
  target : option string;
  text : option string;
  url : option string;
}.

(** Modelled from the spec: FormatterOptions and FormatterResult of
    [src/types.ts] (spec section 6). *)
Record FormatterOptions : Type := mkOptions {
  withLinks : bool;
  anonymize : option bool;
}.

Record FormatterResult : Type := mkResult { content : string }.

(** One entry of the history, with the metadata git takes from the
    arguments ([--message], [--author]) and from the environment. *)
Record Commit : Type := mkCommit {
  commit_message : string;
  commit_author : string;
  author_date : option string;
  committer_name : option string;
  committer_email : option string;
  committer_date : option string;
}.

Inductive ToolCall : Type :=
  | GitVersion
  | GitInit (dir : string)
  | GitAddConfig (dir key value : string)
  | GitRaw (dir : string) (args : list string)
  | GitLog (dir : string).

(** The git executable: whether it can be run at all, which of its commit
    invocations fail (by their rank since the start of the process), and
    what it has stored. [calls] records every invocation, in order. *)
Record Git : Type := mkGit {
  installed : bool;
  commit_fault : nat -> option string;
  commit_runs : nat;
  config : gmap (string * string) string;
  history : gmap string (list Commit);
  calls : list ToolCall;
}.

Record World : Type := mkWorld {
  env : gmap string string;
  cwd : string;
  files : gset string;
  arrays : gmap nat (list Contribution);
  console : list string;
  git : Git;
}.

Definition with_env (f : gmap string string -> gmap string string) (w : World) : World :=
  mkWorld (f (env w)) (cwd w) (files w) (arrays w) (console w) (git w).
Definition with_files (f : gset string -> gset string) (w : World) : World :=
  mkWorld (env w) (cwd w) (f (files w)) (arrays w) (console w) (git w).
Definition with_arrays
    (f : gmap nat (list Contribution) -> gmap nat (list Contribution)) (w : World) : World :=
  mkWorld (env w) (cwd w) (files w) (f (arrays w)) (console w) (git w).
Definition with_console (f : list string -> list string) (w : World) : World :=
  mkWorld (env w) (cwd w) (files w) (arrays w) (f (console w)) (git w).
Definition with_git (f : Git -> Git) (w : World) : World :=
  mkWorld (env w) (cwd w) (files w) (arrays w) (console w) (f (git w)).

Definition called (c : ToolCall) (g : Git) : Git :=
  mkGit (installed g) (commit_fault g) (commit_runs g) (config g) (history g) (push (calls g) c).
Definition with_config (f : gmap (string * string) string -> gmap (string * string) string)
    (g : Git) : Git :=
  mkGit (installed g) (commit_fault g) (commit_runs g) (f (config g)) (history g) (calls g).
Definition with_history (f : gmap string (list Commit) -> gmap string (list Commit))
    (g : Git) : Git :=
  mkGit (installed g) (commit_fault g) (commit_runs g) (config g) (f (history g)) (calls g).
Definition commit_ran (g : Git) : Git :=
  mkGit (installed g) (commit_fault g) (S (commit_runs g)) (config g) (history g) (calls g).

(** Computations: state passing over the world, with exceptions. *)
Definition M (A : Type) : Type := World -> result A * World.

Definition ret {A} (a : A) : M A := fun w => (Ok a, w).
Definition throw {A} (message : string) : M A := fun w => (Throw message, w).
Definition bind {A B} (m : M A) (k : A -> M B) : M B :=
  fun w => match m w with
           | (Ok a, w') => k a w'
           | (Throw e, w') => (Throw e, w')
           end.
Definition gets {A} (f : World -> A) : M A := fun w => (Ok (f w), w).
Definition modify (f : World -> World) : M unit := fun w => (Ok tt, f w).

(** [try { body } catch (error) { handler(error.message) }] *)
Definition try_catch {A} (body : M A) (handler : string -> M A) : M A :=
  fun w => match body w with
           | (Ok a, w') => (Ok a, w')
           | (Throw e, w') => handler e w'
           end.

(** [try { body } finally { cleanup }] *)
Definition try_finally {A} (body : M A) (cleanup : M unit) : M A :=
  fun w => match body w with
           | (r, w') =>
               match cleanup w' with
               | (Ok _, w'') => (r, w'')
               | (Throw e, w'') => (Throw e, w'')
               end
           end.

Declare Scope js_scope.
Delimit Scope js_scope with js.
Notation "'let*' x ':=' m 'in' k" := (bind m (fun x => k))
  (at level 10, x pattern, m at level 100, k at level 200) : js_scope.
Notation "m ';;' k" := (bind m (fun _ => k))
  (at level 100, k at level 200, right associativity) : js_scope.

(** [path.join] on a directory and a name that need no normalisation. *)
Definition join (dir name : string) : string := dir ++ "/" ++ name.

(** [existsSync], and [mkdirSync(p, { recursive: true })] for a path whose
    parent directory exists: the one directory is created. (The call would
    also create missing ancestors; the exporter makes its directory in the
    working directory of the process, which exists.) *)
Definition existsSync (p : string) : M bool := gets (fun w => bool_decide (p ∈ files w)).
Definition mkdirSync (p : string) : M unit := modify (with_files (fun fs => {[ p ]} ∪ fs)).

(** [process.env.NAME], [process.env.NAME = value], [delete process.env.NAME] *)
Definition getenv (name : string) : M (option string) := gets (fun w => env w !! name).
Definition setenv (name value : string) : M unit := modify (with_env (insert name value)).
Definition unsetenv (name : string) : M unit := modify (with_env (delete name)).

Definition console_log (line : string) : M unit := modify (with_console (fun out => push out line)).
(** [console.warn(a, b)] prints its arguments separated by a space. *)
Definition console_warn (a b : string) : M unit :=
  modify (with_console (fun out => push out (a ++ " " ++ b))).

(** *** simple-git over the git executable (spec section 6) *)

Definition invoke (c : ToolCall) : M unit :=
  fun w =>
    let w' := with_git (called c) w in
    if installed (git w) then (Ok tt, w') else (Throw "spawn git ENOENT", w').

(** The directory part of an absolute, normalised path: what comes before
    its last "/". The root is the empty string, so that [join] on it gives
    an absolute path; a path without "/" has no directory part. *)
Fixpoint split_last (p : string) : option (string * string) :=
  match p with
  | EmptyString => None
  | String c p' =>
      match split_last p' with
      | Some (d, base) => Some (String c d, base)
      | None => if Ascii.eqb c "/" then Some (EmptyString, p') else None
      end
  end.

Definition dirname (p : string) : option string := option_map fst (split_last p).

(** The repository git works in when it is started in [dir]: the nearest of
    [dir] and its ancestors that holds a control directory. Every step to a
    parent shortens the path, so [fuel] from its length is never used up. *)
Fixpoint discover (fuel : nat) (dir : string) (fs : gset string) : option string :=
  if bool_decide (join dir ".git" ∈ fs) then Some dir
  else match fuel, dirname dir with
       | S fuel', Some parent => discover fuel' parent fs
       | _, _ => None
       end.

Definition repository_of (dir : string) : M (option string) :=
  gets (fun w => discover (String.length dir) dir (files w)).

(** [git.version()] resolves also when the executable cannot be started:
    the spawn error is turned into a result that says [installed: false]. *)
Definition git_version : M bool :=
  (modify (with_git (called GitVersion)) ;;
   gets (fun w => installed (git w)))%js.

Definition git_init (dir : string) : M unit :=
  (invoke (GitInit dir) ;;
   modify (with_files (fun fs => {[ join dir ".git" ]} ∪ fs)))%js.

Definition git_addConfig (dir key value : string) : M unit :=
  (invoke (GitAddConfig dir key value) ;;
   let* repo := repository_of dir in
   match repo with
   | Some root => modify (with_git (with_config (insert (root, key) value)))
   | None => throw "fatal: not in a git directory"
   end)%js.

(** [git commit --allow-empty --message m --author a] in [dir]: the commit
    goes to the repository git finds from there; the dates and the committer
    identity are read from the environment of the process. *)
Definition git_raw_commit (dir message author : string) : M unit :=
  (invoke (GitRaw dir ["commit"; "--allow-empty"; "--message"; message; "--author"; author]) ;;
   let* rank := gets (fun w => commit_runs (git w)) in
   modify (with_git commit_ran) ;;
   let* repo := repository_of dir in
   let* fault := gets (fun w => commit_fault (git w) rank) in
   let* e := gets env in
   match repo with
   | None => throw "fatal: not a git repository"
   | Some root =>
       match fault with
       | Some reason => throw reason
       | None =>
           let c := mkCommit message author (e !! "GIT_AUTHOR_DATE") (e !! "GIT_COMMITTER_NAME")
                      (e !! "GIT_COMMITTER_EMAIL") (e !! "GIT_COMMITTER_DATE") in
           modify (with_git (with_history
             (fun h => <[ root := push (default [] (h !! root)) c ]> h)))
       end
   end)%js.

(** [git log] in [dir]: the commits of the repository git finds from
    there; fails outside a repository and on an empty history. *)
Definition git_log_total (dir : string) : M nat :=
  (invoke (GitLog dir) ;;
   let* repo := repository_of dir in
   match repo with
   | None => throw "fatal: not a git repository"
   | Some root =>
       let* h := gets (fun w => default [] (history (git w) !! root)) in
       match h with
       | [] => throw "fatal: your current branch does not have any commits yet"
       | _ => ret (List.length h)
       end
   end)%js.

(** *** Dates

    A [Date] is a time value in milliseconds since the epoch, or
    [None] for the Invalid Date. Parsing and printing belong to the runtime
    (and to dayjs), and stay abstract. *)
Class Runtime : Type := mkRuntime {
  dayjs_valueOf : string -> option Z;
  Date_parse : string -> option Z;
  Date_toISOString : Z -> string;
}.

Definition Date : Type := option Z.

Definition toISOString `{Runtime} (d : Date) : M string :=
  fun w => match d with
           | Some t => (Ok (Date_toISOString t), w)
           | None => (Throw "Invalid time value", w)
           end.

End Js.

(** ** src/lib/git/repositoryManager.ts *)
Module RepositoryManager.
Import Js.
Local Open Scope js_scope.

Record CommitOptions : Type := mkCommitOptions {
  message : string;
  authorName : string;
  authorEmail : string;
  date : Date;
}.

(** An instance: the [git] member is simple-git bound to [repositoryPath]. *)
Record t : Type := mk { repositoryPath : string }.

Definition constructor (repositoryPath : string) : M t :=
  let* present := existsSync repositoryPath in
  (if negb present then mkdirSync repositoryPath else ret tt) ;;
  ret (mk repositoryPath).

Definition initializeRepository (this : t) : M bool :=
  let gitDir := join (repositoryPath this) ".git" in
  let* isRepo := existsSync gitDir in
  if isRepo : bool then ret false
  else
    git_init (repositoryPath this) ;;
    git_addConfig (repositoryPath this) "commit.gpgsign" "false" ;;
    ret true.

(** [for (const [key, value] of Object.entries(original))] *)
Fixpoint restoreEnvironmentVariables (original : list (string * option string)) : M unit :=
  match original with
  | [] => ret tt
  | (key, value) :: rest =>
      match value with
      | Some v => setenv key v
      | None => unsetenv key
      end ;;
      restoreEnvironmentVariables rest
  end.

Definition createCommit `{Runtime} (this : t) (options : CommitOptions) : M unit :=
  let authorString := authorName options ++ " <" ++ authorEmail options ++ ">" in
  let* dateString := toISOString (date options) in
  let* author_date := getenv "GIT_AUTHOR_DATE" in
  let* committer_date := getenv "GIT_COMMITTER_DATE" in
  let* committer_name := getenv "GIT_COMMITTER_NAME" in
  let* committer_email := getenv "GIT_COMMITTER_EMAIL" in
  let originalEnv :=
    [ ("GIT_AUTHOR_DATE", author_date); ("GIT_COMMITTER_DATE", committer_date);
      ("GIT_COMMITTER_NAME", committer_name); ("GIT_COMMITTER_EMAIL", committer_email) ] in
  try_finally
    (setenv "GIT_AUTHOR_DATE" dateString ;;
     setenv "GIT_COMMITTER_DATE" dateString ;;
     setenv "GIT_COMMITTER_NAME" (authorName options) ;;
     setenv "GIT_COMMITTER_EMAIL" (authorEmail options) ;;
     git_raw_commit (repositoryPath this) (message options) authorString)
    (restoreEnvironmentVariables originalEnv).

Definition getCommitCount (this : t) : M nat :=
  try_catch (git_log_total (repositoryPath this)) (fun _ => ret 0%nat).

Definition isGitAvailable : M bool :=
  try_catch (git_version ;; ret true) (fun _ => ret false).

Definition getRepositoryPath (this : t) : string := repositoryPath this.

End RepositoryManager.

(** ** src/formatters/git.ts *)
Module GitFormatter.
Import Js.
Local Open Scope js_scope.

Definition defaultAuthorName : string := "Git Activity Tracer".
Definition defaultAuthorEmail : string := "noreply@example.com".
Definition outputDirectory : string := "git-contributions-export".

Definition nl : string := String (ascii_of_nat 10) EmptyString.

(** Template literals on numbers. *)
Definition of_nat (n : nat) : string := NilZero.string_of_uint (Nat.to_uint n).
Definition of_Z (z : Z) : string := NilZero.string_of_int (Z.to_int z).

(** The value of an optional string in a condition: undefined and the empty
    string are falsy. *)
Definition truthy (v : option string) : bool :=
  match v with
  | None | Some "" => false
  | Some _ => true
  end.

(** [v || fallback] *)
Definition or_else (v : option string) (fallback : string) : string :=
  if truthy v then default fallback v else fallback.

Definition buildCommitMessage (contribution : Contribution) (anonymize : bool) : string :=
  let parts : list string := [] in
  let parts := push parts ("[" ++ type contribution ++ "]") in
  let parts :=
    if truthy (repository contribution) then
      let repo := if anonymize then Anonymizer.anonymizeRepository (repository contribution)
                  else default "" (repository contribution) in
      push parts repo
    else parts in
  let parts :=
    if truthy (target contribution) then
      push parts ("(" ++ default "" (target contribution) ++ ")")
    else parts in
  let parts :=
    if truthy (projectId contribution) then
      push parts ("{" ++ default "" (projectId contribution) ++ "}")
    else parts in
  let parts :=
    if truthy (text contribution) then
      let text := if anonymize then Anonymizer.anonymizeMessage (text contribution)
                  else default "" (text contribution) in
      push parts text
    else parts in
  String.concat ": " parts.

(** *** Arrays shared with the caller *)

Definition array_read (a : nat) : M (list Contribution) :=
  gets (fun w => default [] (arrays w !! a)).

(** [[...a]]: a new array with the elements of [a]. *)
Definition spread (a : nat) : M nat :=
  let* items := array_read a in
  let* fresh := gets (fun w => S (map_fold (fun k _ m => Nat.max k m) 0%nat (arrays w))) in
  modify (with_arrays (insert fresh items)) ;;
  ret fresh.

(** [Array.prototype.sort] is stable and sorts in place; a comparator result
    that is not a positive number (NaN included) leaves [x] before [y]. For a
    consistent comparator the outcome is the one stable ordering, whatever
    the engine's algorithm; insertion from the right computes it. The
    comparator of the formatters is consistent when dayjs reads every
    timestamp of the batch, and when it reads none. On a batch that mixes
    readable and unreadable timestamps it is not, and the outcome is then up
    to the engine: the statements below that depend on the order are about
    batches whose timestamps are read. *)
Definition sorts_after (v : option Z) : bool :=
  match v with
  | Some d => (0 <? d)%Z
  | None => false
  end.

Fixpoint insert_sorted {A} (compare : A -> A -> option Z) (x : A) (l : list A) : list A :=
  match l with
  | [] => [x]
  | y :: l' => if sorts_after (compare x y) then y :: insert_sorted compare x l' else x :: l
  end.

Definition sort_list {A} (compare : A -> A -> option Z) (l : list A) : list A :=
  fold_right (insert_sorted compare) [] l.

Definition Array_sort (compare : Contribution -> Contribution -> option Z) (a : nat) : M nat :=
  modify (with_arrays (alter (sort_list compare) a)) ;;
  ret a.

Section WithRuntime.
Context `{Runtime}.

(** [(a, b) => dayjs(a.timestamp).valueOf() - dayjs(b.timestamp).valueOf()],
    NaN as soon as one side is. *)
Definition by_timestamp (a b : Contribution) : option Z :=
  match dayjs_valueOf (timestamp a), dayjs_valueOf (timestamp b) with
  | Some x, Some y => Some (x - y)%Z
  | _, _ => None
  end.

(** The body of [for (const contribution of sorted)], with the counter
    [commitCount] threaded through the iterations. *)
Fixpoint commit_loop (repoManager : RepositoryManager.t) (anonymize : bool)
    (authorName authorEmail : string) (sorted_length : nat)
    (sorted : list Contribution) (commitCount : nat) : M nat :=
  match sorted with
  | [] => ret commitCount
  | contribution :: rest =>
      let message := buildCommitMessage contribution anonymize in
      let date := Date_parse (timestamp contribution) in
      let* commitCount :=
        try_catch
          (RepositoryManager.createCommit repoManager
             (RepositoryManager.mkCommitOptions message authorName authorEmail date) ;;
           let commitCount := S commitCount in
           (if (commitCount mod 100 =? 0)%nat then
              console_log ("  Progress: " ++ of_nat commitCount ++ "/" ++ of_nat sorted_length
                             ++ " commits created...")
            else ret tt) ;;
           ret commitCount)
          (fun error =>
             console_warn ("Warning: Failed to create commit for " ++ type contribution
                             ++ " at " ++ timestamp contribution ++ ":") error ;;
             ret commitCount) in
      commit_loop repoManager anonymize authorName authorEmail sorted_length rest commitCount
  end.

(** The lines of the summary; the banner is the one of the source file,
    byte for byte. *)
Definition summary (repositoryPath : string) (totalCommits : nat) (newCommits : Z)
    (exported : nat) (authorName authorEmail : string) (anonymize : option bool) : string :=
  let lines : list string := [] in
  let lines := push lines (nl ++ "âœ… Git export completed successfully!" ++ nl) in
  let lines := push lines ("Repository location: " ++ repositoryPath) in
  let lines := push lines ("Total commits: " ++ of_nat totalCommits) in
  let lines := push lines ("New commits created: " ++ of_Z newCommits) in
  let lines := push lines ("Contributions exported: " ++ of_nat exported) in
  let lines := push lines ("Author: " ++ authorName ++ " <" ++ authorEmail ++ ">") in
  let lines := if default false anonymize then push lines "Anonymization: enabled" else lines in
  let lines := push lines (nl ++ "To push to GitHub:") in
  let lines := push lines ("  cd " ++ outputDirectory) in
  let lines :=
    push lines "  git remote add origin git@github.com:username/activity-showcase.git" in
  let lines := push lines "  git branch -M main" in
  let lines := push lines "  git push -u origin main --force" in
  String.concat nl lines.

(** [contributions] is a reference to the caller's array. *)
Definition format (contributions : nat) (options : FormatterOptions) : M FormatterResult :=
  let* gitAvailable := RepositoryManager.isGitAvailable in
  if negb gitAvailable then
    throw ("Git is not installed or not available in PATH. "
             ++ "Please install git to use the git export format.")
  else
    let* items := array_read contributions in
    if (List.length items =? 0)%nat then
      ret (mkResult ("No contributions to export. The repository was not created "
                       ++ "because there are no contributions in this range."))
    else
      let* name := getenv "GIT_AUTHOR_NAME" in
      let authorName := or_else name defaultAuthorName in
      let* email := getenv "GIT_AUTHOR_EMAIL" in
      let authorEmail := or_else email defaultAuthorEmail in
      let* dir := gets cwd in
      let repositoryPath := join dir outputDirectory in
      let* repoManager := RepositoryManager.constructor repositoryPath in
      let* isNew := RepositoryManager.initializeRepository repoManager in
      let* initialCount :=
        if isNew : bool then ret 0%nat else RepositoryManager.getCommitCount repoManager in
      let* copy := spread contributions in
      let* sorted := Array_sort by_timestamp copy in
      let* sorted_items := array_read sorted in
      let* commitCount :=
        commit_loop repoManager (default false (anonymize options)) authorName authorEmail
          (List.length sorted_items) sorted_items 0 in
      let* totalCommits := RepositoryManager.getCommitCount repoManager in
      let newCommits := (Z.of_nat totalCommits - Z.of_nat initialCount)%Z in
      let* items := array_read contributions in
      ret (mkResult (summary repositoryPath totalCommits newCommits (List.length items)
                       authorName authorEmail (anonymize options))).

End WithRuntime.

End GitFormatter.

(** ** src/formatters/console.ts *)
Module ConsoleFormatter.
Import Js GitFormatter.

(** [dayjs.utc(timestamp).format(pattern)], for the two patterns in use:
    the calendar day and the time of day, both in UTC. They belong to dayjs
    and stay abstract. *)
Class Calendar : Type := mkCalendar {
  utc_day : string -> string;
  utc_time : string -> string;
}.

(** A [Map] with string keys: the entries in insertion order. *)
Definition Map (V : Type) : Type := list (string * V).

Definition Map_has {V} (m : Map V) (key : string) : bool :=
  existsb (fun entry => String.eqb (fst entry) key) m.

(** The value under [key] replaced by its image; [get(key).push(x)] is
    such an update, the array in the map being the one that is mutated. *)
Fixpoint Map_update {V} (m : Map V) (key : string) (f : V -> V) : Map V :=
  match m with
  | [] => []
  | (k, v) :: m' =>
      if String.eqb k key then (k, f v) :: m' else (k, v) :: Map_update m' key f
  end.

Definition Map_set {V} (m : Map V) (key : string) (v : V) : Map V :=
  if Map_has m key then Map_update m key (fun _ => v) else push m (key, v).

Section WithRuntime.
Context `{Runtime} `{Calendar}.

(** [for (const item of sorted)] over [byDate] *)
Definition by_date (sorted : list Contribution) : Map (list Contribution) :=
  fold_left
    (fun byDate item =>
       let date := utc_day (timestamp item) in
       let byDate := if negb (Map_has byDate date) then Map_set byDate date [] else byDate in
       Map_update byDate date (fun list => push list item))
    sorted [].

(** The body of [for (const contribution of list)]: one line. *)
Definition line (options : FormatterOptions) (contribution : Contribution) : string :=
  let timestamp := utc_time (timestamp contribution) in
  let parts : list string := [type contribution; timestamp] in
  let parts :=
    if truthy (repository contribution) then
      let repo := if default false (anonymize options)
                  then Anonymizer.anonymizeRepository (repository contribution)
                  else default "" (repository contribution) in
      push parts ("[" ++ repo ++ "]")
    else parts in
  let parts :=
    if truthy (projectId contribution) then
      push parts ("{" ++ default "" (projectId contribution) ++ "}")
    else parts in
  let parts :=
    if truthy (target contribution) then
      push parts ("(" ++ default "" (target contribution) ++ ")")
    else parts in
  let parts :=
    if truthy (text contribution) then
      let text := if default false (anonymize options)
                  then Anonymizer.anonymizeMessage (text contribution)
                  else default "" (text contribution) in
      push parts text
    else parts in
  let parts :=
    if withLinks options && truthy (url contribution) then
      push parts ("(" ++ default "" (url contribution) ++ ")")
    else parts in
  String.concat ": " parts.

(** The formatter only reads its argument; the array is given by its
    elements. *)
Definition format (contributions : list Contribution) (options : FormatterOptions)
    : FormatterResult :=
  if (List.length contributions =? 0)%nat then
    mkResult "No contributions found in this range"
  else
    let sorted := sort_list by_timestamp contributions in
    let byDate := by_date sorted in
    let lines :=
      fold_left
        (fun lines entry =>
           let lines := push lines (nl ++ "## " ++ fst entry) in
           fold_left (fun lines contribution => push lines (line options contribution))
             (snd entry) lines)
        byDate [] in
    mkResult (String.concat nl lines).

End WithRuntime.
End ConsoleFormatter.

(** ** A runtime on ISO-8601 instants

    [Date] and dayjs agree on timestamps of the form [YYYY-MM-DDTHH:mm:ssZ],
    the form the platform APIs deliver; this instance parses exactly those
    and prints time values the way [toISOString] does. It is used to run the
    model on concrete inputs; the properties below hold for every runtime. *)
Module IsoRuntime.

Local Open Scope Z_scope.

Definition days_from_civil (y m d : Z) : Z :=
  let y := if m <=? 2 then y - 1 else y in
  let era := y / 400 in
  let yoe := y - era * 400 in
  let doy := (153 * (if 2 <? m then m - 3 else m + 9) + 2) / 5 + d - 1 in
  let doe := yoe * 365 + yoe / 4 - yoe / 100 + doy in
  era * 146097 + doe - 719468.

Definition civil_from_days (z : Z) : Z * Z * Z :=
  let z := z + 719468 in
  let era := z / 146097 in
  let doe := z - era * 146097 in
  let yoe := (doe - doe / 1460 + doe / 36524 - doe / 146096) / 365 in
  let doy := doe - (365 * yoe + yoe / 4 - yoe / 100) in
  let mp := (5 * doy + 2) / 153 in
  let d := doy - (153 * mp + 2) / 5 + 1 in
  let m := if mp <? 10 then mp + 3 else mp - 9 in
  (if m <=? 2 then yoe + era * 400 + 1 else yoe + era * 400, m, d).

Definition digit (c : ascii) : option Z :=
  if Regex.in_range "0" "9" c then Some (Z.of_nat (nat_of_ascii c) - 48) else None.

Fixpoint number (digits : list ascii) (acc : Z) : option Z :=
  match digits with
  | [] => Some acc
  | c :: rest =>
      match digit c with
      | Some v => number rest (10 * acc + v)
      | None => None
      end
  end.

Definition parse (s : string) : option Z :=
  match list_ascii_of_string s with
  | [y1; y2; y3; y4; "-"; m1; m2; "-"; d1; d2; "T"; h1; h2; ":"; n1; n2; ":"; s1; s2; "Z"]%char =>
      match number [y1; y2; y3; y4] 0, number [m1; m2] 0, number [d1; d2] 0,
            number [h1; h2] 0, number [n1; n2] 0, number [s1; s2] 0 with
      | Some y, Some m, Some d, Some h, Some n, Some sec =>
          let days := days_from_civil y m d in
          if (1 <=? m) && (m <=? 12) && (1 <=? d) && (h <=? 23) && (n <=? 59) && (sec <=? 59)
             && bool_decide (civil_from_days days = (y, m, d))
          then Some (((days * 24 + h) * 60 + n) * 60000 + sec * 1000)
          else None
      | _, _, _, _, _, _ => None
      end
  | _ => None
  end.

Fixpoint padded (width : nat) (n : Z) : string :=
  match width with
  | O => EmptyString
  | S width' =>
      padded width' (n / 10) ++ String (ascii_of_nat (48 + Z.to_nat (n mod 10))) EmptyString
  end.

Definition print (t : Z) : string :=
  let days := t / 86400000 in
  let ms := t mod 86400000 in
  let '(y, m, d) := civil_from_days days in
  let year := if (0 <=? y) && (y <=? 9999) then padded 4 y
              else if y <? 0 then "-" ++ padded 6 (- y) else "+" ++ padded 6 y in
  year ++ "-" ++ padded 2 m ++ "-" ++ padded 2 d ++ "T" ++ padded 2 (ms / 3600000) ++ ":"
    ++ padded 2 (ms / 60000 mod 60) ++ ":" ++ padded 2 (ms / 1000 mod 60) ++ "."
    ++ padded 3 (ms mod 1000) ++ "Z".

Definition runtime : Js.Runtime := Js.mkRuntime parse parse print.

End IsoRuntime.

(** ** The conventional-commit prefix, as the specification words it

    A recognized type keyword in any letter case, an optional parenthesized
    scope of word characters and hyphens, a colon, and optional whitespace
    (spec section 4.1). *)
Module Grammar.
Import Regex.

Fixpoint uppercase (s : string) : string :=
  match s with
  | EmptyString => EmptyString
  | String c s' => String (canonicalize c) (uppercase s')
  end.

Fixpoint all_chars (p : ascii -> bool) (s : string) : bool :=
  match s with
  | EmptyString => true
  | String c s' => p c && all_chars p s'
  end.

Definition is_keyword (kw : string) : Prop :=
  exists k, In k Anonymizer.keywords /\ uppercase kw = uppercase k.

Definition is_scope (sc : string) : Prop :=
  sc = "" \/
  exists body, body <> "" /\ all_chars Anonymizer.scope_char body = true /\
               sc = "(" ++ body ++ ")".

(** A run of whitespace characters. *)
Inductive spaces : string -> Prop :=
  | spaces_nil : spaces ""
  | spaces_cons (t s : string) : In t space_tokens -> spaces s -> spaces (t ++ s).

Definition no_leading_space (s : string) : Prop :=
  forall t x, In t space_tokens -> s <> t ++ x.

Definition begins_with_prefix (message : string) : Prop :=
  exists kw sc tail, is_keyword kw /\ is_scope sc /\ message = kw ++ sc ++ ":" ++ tail.

(** The strings a pattern matches, declaratively. *)
Inductive matches (ignoreCase : bool) : regex -> string -> Prop :=
  | matches_eps : matches ignoreCase Eps ""
  | matches_chr c x :
      chr_matches ignoreCase c x = true -> matches ignoreCase (Chr c) (String x "")
  | matches_cls (p : ascii -> bool) x :
      p x = true -> matches ignoreCase (Cls p) (String x "")
  | matches_seq r1 r2 a b :
      matches ignoreCase r1 a -> matches ignoreCase r2 b ->
      matches ignoreCase (Seq r1 r2) (a ++ b)
  | matches_alt_l r1 r2 a : matches ignoreCase r1 a -> matches ignoreCase (Alt r1 r2) a
  | matches_alt_r r1 r2 a : matches ignoreCase r2 a -> matches ignoreCase (Alt r1 r2) a
  | matches_opt_none r : matches ignoreCase (Opt r) ""
  | matches_opt_some r a : matches ignoreCase r a -> matches ignoreCase (Opt r) a
  | matches_star_nil r : matches ignoreCase (Star r) ""
  | matches_star_cons r a b :
      matches ignoreCase r a -> matches ignoreCase (Star r) b ->
      matches ignoreCase (Star r) (a ++ b).

(** [p] matches the beginning of [s], letter case ignored. *)
Fixpoint ci_prefix (p s : string) : bool :=
  match p, s with
  | EmptyString, _ => true
  | String c p', String x s' => chr_matches true c x && ci_prefix p' s'
  | String _ _, EmptyString => false
  end.

Definition is_lowercase_hex (c : ascii) : bool := in_range "0" "9" c || in_range "a" "f" c.

Definition not_letter (c : ascii) : bool :=
  negb (in_range "A" "Z" c) && negb (in_range "a" "z" c).

End Grammar.

(** ** The commit message, as the specification words it

    The fields in their fixed order; a field is present when it is defined
    and not empty, an absent field contributes nothing, and the fields are
    joined with ": " (spec section 4.3). *)
Module MessageSpec.
Import Js.

Definition field (v : option string) (render : string -> string) : list string :=
  match v with
  | None | Some "" => []
  | Some s => [render s]
  end.

Definition leading_fields (c : Contribution) (anonymize : bool) : list string :=
  List.concat
    [ ["[" ++ type c ++ "]"];
      field (repository c)
        (fun r => if anonymize then Anonymizer.anonymizeRepository (Some r) else r);
      field (target c) (fun t => "(" ++ t ++ ")");
      field (projectId c) (fun p => "{" ++ p ++ "}") ].

Definition text_field (c : Contribution) (anonymize : bool) : list string :=
  field (text c) (fun t => if anonymize then Anonymizer.anonymizeMessage (Some t) else t).

Definition message (c : Contribution) (anonymize : bool) : string :=
  String.concat ": " (List.concat [leading_fields c anonymize; text_field c anonymize]).

(** [s.startsWith(p)] *)
Fixpoint starts_with (p s : string) : bool :=
  match p, s with
  | EmptyString, _ => true
  | String a p', String b s' => Ascii.eqb a b && starts_with p' s'
  | String _ _, EmptyString => false
  end.

End MessageSpec.

(** ** The repository life cycle, as the specification words it *)
Module RepositorySpec.
Import Js.

(** The state Present: the control directory lies directly at the path. *)
Definition present (dir : string) (w : World) : Prop := join dir ".git" ∈ files w.

#[global] Instance present_decision (dir : string) (w : World) : Decision (present dir w).
Proof. unfold present. apply _. Defined.

(** The transition Absent -> Present: the tool initializes the directory,
    then commit signing is switched off in its configuration. *)
Definition initialized (dir : string) (w : World) : World :=
  with_git (with_config (insert (dir, "commit.gpgsign") "false"))
    (with_git (called (GitAddConfig dir "commit.gpgsign" "false"))
       (with_files (fun fs => {[ join dir ".git" ]} ∪ fs)
          (with_git (called (GitInit dir)) w))).

(** The four variables [createCommit] borrows. *)
Definition ambient : list string :=
  [ "GIT_AUTHOR_DATE"; "GIT_COMMITTER_DATE"; "GIT_COMMITTER_NAME"; "GIT_COMMITTER_EMAIL" ].

(** The effect of [restoreEnvironmentVariables] on the environment. *)
Definition restore_env (original : list (string * option string))
    (e : gmap string string) : gmap string string :=
  fold_left (fun e kv => match snd kv with
                         | Some v => <[ fst kv := v ]> e
                         | None => delete (fst kv) e
                         end) original e.

(** The number of commits in the history of [dir]. *)
Definition commit_total (dir : string) (w : World) : nat :=
  List.length (default [] (history (git w) !! dir)).

End RepositorySpec.

(** ** Concrete situations, to run the model on *)
Module Scenario.
Import Js.

(** A git that works and never fails. *)
Definition tool : Git := mkGit true (fun _ => None) 0 ∅ ∅ [].

(** A git whose second commit invocation fails. *)
Definition flaky : Git :=
  mkGit true (fun rank => if (rank =? 1)%nat then Some "fatal: unable to write" else None)
    0 ∅ ∅ [].

(** The two contributions of the specification's example, and a third. *)
Definition a_commit : Contribution :=
  mkContribution "commit" "2026-01-01T10:00:00Z" (Some "owner/repo") None None
    (Some "feat: add feature") None.
Definition a_pull_request : Contribution :=
  mkContribution "pr" "2026-01-02T12:00:00Z" (Some "owner/repo") None (Some "main")
    (Some "Fix bug") None.
Definition a_review : Contribution :=
  mkContribution "review" "2026-01-03T09:30:00Z" (Some "owner/repo") None None
    (Some "LGTM") None.

(** A working directory that is itself inside a repository; the caller's
    array, at reference 0, holds the contributions out of order. *)
Definition nested (g : Git) (batch : list Contribution) : World :=
  mkWorld {[ "GIT_COMMITTER_NAME" := "Someone Else" ]} "/home/dev"
    {[ "/home/dev"; "/home/dev/.git" ]} {[ 0%nat := batch ]} [] g.

Definition export_dir : string := "/home/dev/git-contributions-export".

End Scenario.

(** ** The export, as the specification words it *)
Module FormatSpec.
Import Js GitFormatter RepositorySpec.

Section WithRuntime.
Context `{Runtime}.

(** The instant a contribution is sorted by. *)
Definition instant (c : Contribution) : Z := default 0%Z (dayjs_valueOf (timestamp c)).

(** A timestamp is parseable when dayjs, which orders the batch, and [Date],
    which dates the commit, both read an instant from it. *)
Definition dated (c : Contribution) : Prop := is_Some (dayjs_valueOf (timestamp c)).

Definition parseable (c : Contribution) : Prop :=
  dated c /\ is_Some (Date_parse (timestamp c)).

Definition not_later (a b : Contribution) : Prop := (instant a <= instant b)%Z.

(** [sorted] is the stable ascending arrangement of [batch]: ascending, and
    for every instant the contributions at that instant appear as in [batch]. *)
Definition stable_ascending (batch sorted : list Contribution) : Prop :=
  StronglySorted not_later sorted /\
  forall t, filter (fun c => instant c =? t)%Z sorted = filter (fun c => instant c =? t)%Z batch.

(** The invocation and the commit that a contribution gives rise to. *)
Definition author_string (name email : string) : string := name ++ " <" ++ email ++ ">".

Definition raw_call (dir name email : string) (anonymize : bool) (c : Contribution) : ToolCall :=
  GitRaw dir ["commit"; "--allow-empty"; "--message"; buildCommitMessage c anonymize;
              "--author"; author_string name email].

Definition commit_of (name email : string) (anonymize : bool) (c : Contribution) : Commit :=
  let stamp := option_map Date_toISOString (Date_parse (timestamp c)) in
  mkCommit (buildCommitMessage c anonymize) (author_string name email)
    stamp (Some name) (Some email) stamp.

(** What happens to each contribution of [l], in order, when the next commit
    invocation has rank [rank]: a contribution whose date is invalid fails
    inside [createCommit] before the tool is invoked, and uses up no rank;
    any other has its invocation, which fails if the tool says so. *)
Fixpoint outcomes (fault : nat -> option string) (rank : nat) (l : list Contribution)
    : list (option string) :=
  match l with
  | [] => []
  | c :: l' =>
      match Date_parse (timestamp c) with
      | None => Some "Invalid time value" :: outcomes fault rank l'
      | Some _ => fault rank :: outcomes fault (S rank) l'
      end
  end.

(** The contributions that reach the tool, those whose commit is created,
    and the warnings for the others. *)
Fixpoint attempted (l : list Contribution) : list Contribution :=
  match l with
  | [] => []
  | c :: l' =>
      match Date_parse (timestamp c) with
      | None => attempted l'
      | Some _ => c :: attempted l'
      end
  end.

Fixpoint survivors (fault : nat -> option string) (rank : nat) (l : list Contribution)
    : list Contribution :=
  match l with
  | [] => []
  | c :: l' =>
      match Date_parse (timestamp c) with
      | None => survivors fault rank l'
      | Some _ =>
          match fault rank with
          | None => c :: survivors fault (S rank) l'
          | Some _ => survivors fault (S rank) l'
          end
      end
  end.

Definition warning (c : Contribution) (reason : string) : string :=
  ("Warning: Failed to create commit for " ++ type c ++ " at " ++ timestamp c ++ ":")
    ++ " " ++ reason.

Fixpoint warnings (fault : nat -> option string) (rank : nat) (l : list Contribution)
    : list string :=
  match l with
  | [] => []
  | c :: l' =>
      match Date_parse (timestamp c) with
      | None => warning c "Invalid time value" :: warnings fault rank l'
      | Some _ =>
          match fault rank with
          | None => warnings fault (S rank) l'
          | Some reason => warning c reason :: warnings fault (S rank) l'
          end
      end
  end.

(** What the loop over [l] has done when it leaves [w'] from [w]. *)
Definition loop_effect (dir name email : string) (anonymize : bool)
    (l : list Contribution) (w w' : World) : Prop :=
  let fault := commit_fault (git w) in
  let rank := commit_runs (git w) in
  env w' = env w /\ cwd w' = cwd w /\ files w' = files w /\ arrays w' = arrays w
  /\ (exists extra, console w' = (console w ++ extra)%list
                    /\ forall x, In x (warnings fault rank l) -> In x extra)
  /\ installed (git w') = installed (git w)
  /\ commit_fault (git w') = fault
  /\ commit_runs (git w') = (rank + List.length (attempted l))%nat
  /\ config (git w') = config (git w)
  /\ calls (git w')
     = (calls (git w) ++ map (raw_call dir name email anonymize) (attempted l))%list
  /\ default [] (history (git w') !! dir)
     = (default [] (history (git w) !! dir)
          ++ map (commit_of name email anonymize) (survivors fault rank l))%list.

End WithRuntime.

(** What the tool is asked before the loop: the probe, then either the
    count of an existing repository or the creation of a new one. *)
Definition prelude (dir : string) (w : World) : list ToolCall :=
  GitVersion ::
  (if bool_decide (present dir w) then [GitLog dir]
   else [GitInit dir; GitAddConfig dir "commit.gpgsign" "false"]).

(** The world [w1] in which the loop starts, for an export started in [w]
    on the array [a]: a repository is present at [dir], the tool runs, its
    history and its faults are those of [w], and no array of [w] has moved. *)
Definition prepared (dir : string) (w w1 : World) : Prop :=
  env w1 = env w /\ cwd w1 = cwd w /\ console w1 = console w
  /\ present dir w1
  /\ (forall a cs, arrays w !! a = Some cs -> arrays w1 !! a = Some cs)
  /\ installed (git w1) = true
  /\ commit_fault (git w1) = commit_fault (git w)
  /\ commit_runs (git w1) = commit_runs (git w)
  /\ history (git w1) = history (git w)
  /\ calls (git w1) = (calls (git w) ++ prelude dir w)%list.

(** The commit count before the export: zero for a new repository. *)
Definition baseline (dir : string) (w : World) : nat :=
  if bool_decide (present dir w) then commit_total dir w else 0%nat.

Definition author_name (w : World) : string :=
  or_else (env w !! "GIT_AUTHOR_NAME") defaultAuthorName.
Definition author_email (w : World) : string :=
  or_else (env w !! "GIT_AUTHOR_EMAIL") defaultAuthorEmail.

(** The lines of the summary. *)
Definition summary_lines (location : string) (total : nat) (new : Z) (exported : nat)
    (name email : string) (anonymized : bool) : list string :=
  List.concat
    [ [ nl ++ "âœ… Git export completed successfully!" ++ nl;
        "Repository location: " ++ location;
        "Total commits: " ++ of_nat total;
        "New commits created: " ++ of_Z new;
        "Contributions exported: " ++ of_nat exported;
        "Author: " ++ name ++ " <" ++ email ++ ">" ];
      (if anonymized then ["Anonymization: enabled"] else []);
      [ nl ++ "To push to GitHub:";
        "  cd git-contributions-export";
        "  git remote add origin git@github.com:username/activity-showcase.git";
        "  git branch -M main";
        "  git push -u origin main --force" ] ].

(** [hay.includes(needle)] *)
Definition occurs (needle hay : string) : bool :=
  match String.index 0 needle hay with
  | Some _ => true
  | None => false
  end.

End FormatSpec.

(** ** The anonymizers' outputs, as their callers see them *)
Module DigestSpec.
Import Grammar.

(** A whole conventional-commit prefix, the whitespace after the colon
    included. *)
Definition conventional_prefix (p : string) : Prop :=
  exists kw sc ws, is_keyword kw /\ is_scope sc /\ spaces ws /\ p = kw ++ sc ++ ":" ++ ws.

(** Eight lowercase hexadecimal characters. *)
Definition short_digest (h : string) : Prop :=
  String.length h = 8%nat /\ all_chars is_lowercase_hex h = true.

(** What is hashed in place of a value that is undefined or empty. *)
Definition or_sentinel (v : option string) (sentinel : string) : string :=
  match v with
  | None | Some "" => sentinel
  | Some s => s
  end.

End DigestSpec.

(** ** Saving and restoring variables *)
Module EnvironmentSpec.
Import Js.

(** The saved values of [keys], as [createCommit] collects them: each
    variable with its value, or with [None] when it is not set. *)
Definition snapshot (keys : list string) (e : gmap string string)
    : list (string * option string) :=
  map (fun key => (key, e !! key)) keys.

(** The one commit that a successful [createCommit] records. *)
Definition recorded `{Runtime} (options : RepositoryManager.CommitOptions) (t : Z) : Commit :=
  mkCommit (RepositoryManager.message options)
    (RepositoryManager.authorName options ++ " <" ++ RepositoryManager.authorEmail options ++ ">")
    (Some (Date_toISOString t)) (Some (RepositoryManager.authorName options))
    (Some (RepositoryManager.authorEmail options)) (Some (Date_toISOString t)).

End EnvironmentSpec.

(** ** Further situations to run the model on *)
Module Situation.
Import Js.

(** A machine without git. *)
Definition missing : Git := mkGit false (fun _ => None) 0 ∅ ∅ [].



(** A git that works, with two commits already in the repository at
    /home/dev. *)
Definition earlier : Commit :=
  mkCommit "earlier work" "Dev <dev@example.com>" None None None None.
Definition busy : Git :=
  mkGit true (fun _ => None) 0 ∅ {[ "/home/dev" := [earlier; earlier] ]} [].

End Situation.

(** ** What stays and what grows *)
Module FrameSpec.
Import Js.

(** The repository git finds when it is started in [dir]. *)
Definition enclosing (dir : string) (w : World) : option string :=
  discover (String.length dir) dir (files w).

(** [s.split(sep)] *)
Fixpoint split_on (sep : ascii) (s : string) : list string :=
  match s with
  | EmptyString => [EmptyString]
  | String c s' =>
      if Ascii.eqb c sep then EmptyString :: split_on sep s'
      else match split_on sep s' with
           | segment :: rest => String c segment :: rest
           | [] => [String c EmptyString]
           end
  end.

(** An absolute path in the form that [path.join] and [process.cwd] give:
    it begins with "/", and no segment of it is empty, "." or "..". The
    ancestors of such a path are the directories above it, which is where
    git looks for a repository. *)
Definition plain (p : string) : bool :=
  match p with
  | String "/" rest =>
      forallb (fun segment => negb (String.eqb segment "") && negb (String.eqb segment ".")
                              && negb (String.eqb segment ".."))
        (split_on "/" rest)
  | _ => false
  end.

(** From [w] to [w'] an export to [dir] has only added: the environment,
    the working directory and the arrays are those of [w]; no file is gone
    and nothing but [dir] and its control directory has appeared; the other
    histories are untouched; the history of [dir], the console and the
    invocations have been appended to. *)
Definition grows (dir : string) (w w' : World) : Prop :=
  env w' = env w /\ cwd w' = cwd w
  /\ (forall b cs, arrays w !! b = Some cs -> arrays w' !! b = Some cs)
  /\ files w ⊆ files w' /\ files w' ⊆ files w ∪ {[ dir; join dir ".git" ]}
  /\ (forall d, d <> dir -> history (git w') !! d = history (git w) !! d)
  /\ default [] (history (git w) !! dir) `prefix_of` default [] (history (git w') !! dir)
  /\ console w `prefix_of` console w'
  /\ calls (git w) `prefix_of` calls (git w').

End FrameSpec.

(** ** Anonymization, field by field *)
Module FieldSpec.
Import Js GitFormatter.

(** The contribution with its repository name and its text replaced by
    their anonymized forms, where it has them; every other field as it is. *)
Definition anonymized (c : Contribution) : Contribution :=
  mkContribution (type c) (timestamp c)
    (if truthy (repository c) then Some (Anonymizer.anonymizeRepository (repository c))
     else repository c)
    (projectId c) (target c)
    (if truthy (text c) then Some (Anonymizer.anonymizeMessage (text c)) else text c)
    (url c).

End FieldSpec.

(** ** The export, counted and printed *)
Module ExportSpec.
Import Js GitFormatter FormatSpec.

(** The progress notification after [count] commits of [total]. *)
Definition progress_line (count total : nat) : string :=
  "  Progress: " ++ of_nat count ++ "/" ++ of_nat total ++ " commits created...".

(** The notifications of an export of [total] contributions that all
    succeed: one for each count that is a multiple of 100. *)
Definition progress_lines (total : nat) : list string :=
  flat_map (fun count => if (count mod 100 =? 0)%nat then [progress_line count total] else [])
    (seq 1 total).

(** The failed and the successful ones among the outcomes. *)
Fixpoint failures (outs : list (option string)) : nat :=
  match outs with
  | [] => 0
  | Some _ :: outs' => S (failures outs')
  | None :: outs' => failures outs'
  end.

Definition successes (outs : list (option string)) : nat :=
  (List.length outs - failures outs)%nat.

Section WithRuntime.
Context `{Runtime}.

(** The date of the contribution can be read by [Date]. *)
Definition valid (c : Contribution) : Prop := is_Some (Date_parse (timestamp c)).

(** Everything the loop prints for [l], in order, when [count] commits have
    been created so far and the next invocation has rank [rank]. *)
Fixpoint printed (fault : nat -> option string) (rank count total : nat)
    (l : list Contribution) : list string :=
  match l with
  | [] => []
  | c :: l' =>
      match Date_parse (timestamp c) with
      | None => warning c "Invalid time value" :: printed fault rank count total l'
      | Some _ =>
          match fault rank with
          | Some reason => warning c reason :: printed fault (S rank) count total l'
          | None =>
              ((if (S count mod 100 =? 0)%nat then [progress_line (S count) total] else [])
                 ++ printed fault (S rank) (S count) total l')%list
          end
      end
  end.

(** A commit made by the export for the identity [name], [email]: author
    and committer are that identity, and both dates are the same instant. *)
Definition attributed (name email : string) (c : Commit) : Prop :=
  commit_author c = name ++ " <" ++ email ++ ">"
  /\ committer_name c = Some name /\ committer_email c = Some email
  /\ is_Some (author_date c) /\ committer_date c = author_date c.

End WithRuntime.
End ExportSpec.

(** ** The calendar of the ISO runtime *)
Module IsoCalendar.

(** The day and the time of day, read off the ISO rendering; dayjs prints
    "Invalid Date" for a timestamp it cannot read. *)
Definition field (from length : nat) (s : string) : string :=
  match IsoRuntime.parse s with
  | Some t => substring from length (IsoRuntime.print t)
  | None => "Invalid Date"
  end.

Definition calendar : ConsoleFormatter.Calendar :=
  ConsoleFormatter.mkCalendar (field 0 10) (field 11 8).

End IsoCalendar.

(** ** The console report, as its reader sees it *)
Module ReportSpec.
Import Js GitFormatter ConsoleFormatter.

(** The number of elements in all the groups. *)
Definition size {A} (m : Map (list A)) : nat :=
  list_sum (map (fun entry => List.length (snd entry)) m).

Section WithRuntime.
Context `{Runtime} `{Calendar}.

(** The contributions of [l] that fall on [day], in the order of [l]. *)
Definition on_day (day : string) (l : list Contribution) : list Contribution :=
  List.filter (fun c => String.eqb (utc_day (timestamp c)) day) l.

(** The header of a day and the lines of a group. *)
Definition header (day : string) : string := nl ++ "## " ++ day.

Definition section (options : FormatterOptions) (entry : string * list Contribution)
    : list string :=
  header (fst entry) :: map (line options) (snd entry).

(** What [byDate] holds once the contributions of [l] have been entered:
    distinct days, under each day the contributions of that day in the
    order of [l] (at least one), every contribution under its day. *)
Definition grouped (l : list Contribution) (m : Map (list Contribution)) : Prop :=
  List.NoDup (map fst m)
  /\ (forall day group, In (day, group) m -> group <> [] /\ group = on_day day l)
  /\ (forall c, In c l -> In (utc_day (timestamp c)) (map fst m))
  /\ size m = List.length l.

(** One round of the loop that fills [byDate]. *)
Definition enter (byDate : Map (list Contribution)) (item : Contribution)
    : Map (list Contribution) :=
  let date := utc_day (timestamp item) in
  let byDate := if negb (Map_has byDate date) then Map_set byDate date [] else byDate in
  Map_update byDate date (fun list => push list item).

End WithRuntime.

(** The contribution without its link. *)
Definition unlinked (c : Contribution) : Contribution :=
  mkContribution (type c) (timestamp c) (repository c) (projectId c) (target c) (text c) None.

End ReportSpec.

(** ** The invocations of an export *)
Module ProtocolSpec.
Import Js GitFormatter FormatSpec.

Section WithRuntime.
Context `{Runtime}.

(** [Date] reads the timestamp of the contribution. *)
Definition readable (c : Contribution) : bool :=
  match Date_parse (timestamp c) with
  | Some _ => true
  | None => false
  end.

(** The commit invocations of an export of [batch]: one for each
    contribution with a readable date, in the order of the sorted batch. *)
Definition commit_calls (dir name email : string) (anonymize : bool)
    (batch : list Contribution) : list ToolCall :=
  map (raw_call dir name email anonymize)
    (List.filter readable (sort_list by_timestamp batch)).

End WithRuntime.

(** Commit signing switched off for the repository at [dir]. *)
Definition unsigned (dir : string) (c : gmap (string * string) string)
    : gmap (string * string) string :=
  <[ (dir, "commit.gpgsign") := "false" ]> c.

End ProtocolSpec.

(** * Properties *)

(** ** The digest on the test vectors of FIPS 180-4 *)
Example sha256_empty :
  Sha256.sha256_hex ""
  = "e3b0c44298fc1c149afbf4c8996fb92427ae41e4649b934ca495991b7852b855".
Proof. vm_compute. reflexivity. Qed.

Example sha256_abc :
  Sha256.sha256_hex "abc"
  = "ba7816bf8f01cfea414140de5dae2223b00361a396177a9cb410ff61f20015ad".
Proof. vm_compute. reflexivity. Qed.

Example sha256_two_blocks :
  Sha256.sha256_hex "abcdbcdecdefdefgefghfghighijhijkijkljklmklmnlmnomnopnopq"
  = "248d6a61d20638b8e5c026930c3e6039a33ce45964ff2167f6ecedd419db06c1".
Proof. vm_compute. reflexivity. Qed.

(** ** Strings *)
Module StringFacts.

Lemma append_cons (x : ascii) (a b : string) : String x a ++ b = String x (a ++ b).
Proof. reflexivity. Qed.

Lemma append_nil_l (b : string) : "" ++ b = b.
Proof. reflexivity. Qed.

Lemma append_assoc (a b c : string) : (a ++ b) ++ c = a ++ (b ++ c).
Proof.
  induction a as [|x a IH]; [reflexivity|].
  rewrite !append_cons. now rewrite IH.
Qed.

Lemma append_nil_r (a : string) : a ++ "" = a.
Proof.
  induction a as [|x a IH]; [reflexivity|].
  rewrite append_cons. now rewrite IH.
Qed.

Lemma length_append (a b : string) :
  String.length (a ++ b) = (String.length a + String.length b)%nat.
Proof.
  induction a as [|x a IH]; [reflexivity|].
  rewrite append_cons. simpl. now rewrite IH.
Qed.

Lemma substring_all (a : string) : substring 0 (String.length a) a = a.
Proof. induction a as [|x a IH]; simpl; [reflexivity | now rewrite IH]. Qed.

Lemma substring_zero (a : string) : substring 0 0 a = "".
Proof. destruct a; reflexivity. Qed.

Lemma substring_head (a b : string) : substring 0 (String.length a) (a ++ b) = a.
Proof.
  induction a as [|x a IH]; [apply substring_zero|].
  rewrite append_cons. simpl. now rewrite IH.
Qed.

Lemma substring_tail (a b : string) :
  substring (String.length a) (String.length b) (a ++ b) = b.
Proof.
  induction a as [|x a IH]; [apply substring_all|].
  rewrite append_cons. simpl. exact IH.
Qed.

Lemma substring_from_append (a b : string) :
  Anonymizer.substring_from (String.length a) (a ++ b) = b.
Proof.
  unfold Anonymizer.substring_from. rewrite length_append.
  replace (String.length a + String.length b - String.length a)%nat
    with (String.length b) by lia.
  apply substring_tail.
Qed.

Lemma matched_text (a b : string) :
  substring 0 (String.length (a ++ b) - String.length b) (a ++ b) = a.
Proof.
  rewrite length_append.
  replace (String.length a + String.length b - String.length b)%nat
    with (String.length a) by lia.
  apply substring_head.
Qed.

End StringFacts.

(** ** The matcher *)
Module RegexFacts.
Import Regex Grammar StringFacts.

Lemma uppercase_append (a b : string) : uppercase (a ++ b) = uppercase a ++ uppercase b.
Proof.
  induction a as [|x a IH]; [reflexivity|].
  rewrite append_cons. simpl. rewrite append_cons. now rewrite IH.
Qed.

Lemma uppercase_cons_inv (a : string) c u :
  uppercase a = String c u ->
  exists x a', a = String x a' /\ canonicalize x = c /\ uppercase a' = u.
Proof.
  destruct a as [|x a']; simpl; intros E; [discriminate|].
  injection E as E1 E2. eauto.
Qed.

Lemma uppercase_nil_inv (a : string) : uppercase a = "" -> a = "".
Proof. destruct a; simpl; [reflexivity | discriminate]. Qed.

(** A literal consumes any spelling of itself. *)
Lemma exec_lit_match (p a s : string) K :
  uppercase a = uppercase p -> exec true (lit p) (a ++ s) K = K s.
Proof.
  revert a. induction p as [|c p IH]; intros a E.
  - apply uppercase_nil_inv in E. subst a. reflexivity.
  - simpl in E. apply uppercase_cons_inv in E as (x & a' & -> & Ex & E').
    rewrite append_cons. simpl. unfold chr_matches. rewrite Ex.
    rewrite (proj2 (Ascii.eqb_eq _ _) eq_refl). now apply IH.
Qed.

Lemma exec_lit_fail (p s : string) K :
  ci_prefix p s = false -> exec true (lit p) s K = None.
Proof.
  revert s. induction p as [|c p IH]; intros s E; [discriminate|].
  destruct s as [|x s]; simpl; [reflexivity|].
  simpl in E |- *. destruct (Ascii.eqb (canonicalize c) (canonicalize x)); [|reflexivity].
  apply IH. exact E.
Qed.

Lemma ci_prefix_spelling (p a k s : string) :
  uppercase a = uppercase k -> ci_prefix p (a ++ s) = ci_prefix p (k ++ s).
Proof.
  revert a k. induction p as [|c p IH]; intros a k E; [reflexivity|].
  destruct k as [|y k].
  - apply uppercase_nil_inv in E. now subst a.
  - simpl in E. apply uppercase_cons_inv in E as (x & a' & -> & Ex & E').
    rewrite !append_cons. simpl. unfold chr_matches. rewrite Ex.
    f_equal. now apply IH.
Qed.

(** Alternatives: when all of them fail, and when one literal matches. *)
Lemma exec_alts_none ic rs s K :
  (forall r, In r rs -> exec ic r s K = None) -> exec ic (alts rs) s K = None.
Proof.
  induction rs as [|r rs IH]; intros Hn; [reflexivity|].
  simpl. rewrite (Hn r (or_introl eq_refl)). apply IH. intros; apply Hn; now right.
Qed.

Lemma exec_alts_lit_none ks a k s K :
  uppercase a = uppercase k ->
  (forall k', In k' ks -> k' <> k -> ci_prefix k' (k ++ s) = false) ->
  K s = None ->
  exec true (alts (map lit ks)) (a ++ s) K = None.
Proof.
  intros E Hne HK. induction ks as [|k1 ks IH]; [reflexivity|].
  simpl. destruct (String.string_dec k1 k) as [->|Hd].
  - rewrite (exec_lit_match _ _ _ _ E), HK. apply IH. intros; apply Hne; auto; now right.
  - rewrite exec_lit_fail.
    + apply IH. intros; apply Hne; auto; now right.
    + rewrite (ci_prefix_spelling _ _ _ _ E). apply Hne; auto. now left.
Qed.

Lemma exec_alts_lit ks a k s K :
  In k ks -> uppercase a = uppercase k ->
  (forall k', In k' ks -> k' <> k -> ci_prefix k' (k ++ s) = false) ->
  exec true (alts (map lit ks)) (a ++ s) K = K s.
Proof.
  intros Hin E Hne. induction ks as [|k1 ks IH]; [destruct Hin|].
  simpl. destruct (String.string_dec k1 k) as [->|Hd].
  - rewrite (exec_lit_match _ _ _ _ E). destruct (K s) eqn:HK; [reflexivity|].
    apply (exec_alts_lit_none ks a k); auto. intros; apply Hne; auto; now right.
  - rewrite exec_lit_fail.
    + apply IH.
      * destruct Hin as [->|Hin]; [contradiction | exact Hin].
      * intros; apply Hne; auto; now right.
    + rewrite (ci_prefix_spelling _ _ _ _ E). apply Hne; auto. now left.
Qed.

Lemma iterate_S step K fuel s :
  iterate step K (S fuel) s =
  match step s (fun s1 => if (String.length s1 <? String.length s)%nat
                          then iterate step K fuel s1 else None) with
  | Some rest => Some rest
  | None => K s
  end.
Proof. reflexivity. Qed.

(** Greedy iteration over a character class stops at the first character
    outside it, when the rest of the pattern cannot start inside the class. *)
Lemma iterate_class step (p : ascii -> bool) body rest K fuel :
  (forall k, step "" k = None) ->
  (forall x s k, step (String x s) k = if p x then k s else None) ->
  all_chars p body = true ->
  (forall c s, rest = String c s -> p c = false) ->
  (forall c s, p c = true -> K (String c s) = None) ->
  (String.length body < fuel)%nat ->
  iterate step K fuel (body ++ rest) = K rest.
Proof.
  intros Hnil Hcons Hall Hrest HK. revert fuel Hall.
  induction body as [|b body IH]; intros fuel Hall Hfuel.
  - destruct fuel as [|f]; [reflexivity|]. rewrite append_nil_l, iterate_S.
    destruct rest as [|c s]; [now rewrite Hnil|].
    rewrite Hcons, (Hrest c s eq_refl). reflexivity.
  - destruct fuel as [|f]; [simpl in Hfuel; lia|].
    simpl in Hall. apply andb_prop in Hall as [Hb Hall].
    rewrite append_cons, iterate_S, Hcons, Hb.
    replace (String.length (body ++ rest) <? String.length (String b (body ++ rest)))%nat
      with true by (symmetry; apply Nat.ltb_lt; simpl; lia).
    rewrite (IH f Hall) by (simpl in Hfuel; lia).
    destruct (K rest); [reflexivity|]. now apply HK.
Qed.

Lemma canonicalize_cases (x : ascii) :
  canonicalize x = x \/ in_range "A" "Z" (canonicalize x) = true.
Proof.
  destruct x as [[] [] [] [] [] [] [] []]; vm_compute; auto.
Qed.

Lemma chr_matches_not_letter (c x : ascii) :
  not_letter c = true -> chr_matches true c x = true -> x = c.
Proof.
  unfold not_letter, chr_matches. intros Hc Hm.
  apply andb_prop in Hc as [Hu Hl].
  apply negb_true_iff in Hu, Hl.
  unfold canonicalize in Hm at 1. rewrite Hl in Hm.
  apply Ascii.eqb_eq in Hm.
  destruct (canonicalize_cases x) as [E|E]; congruence.
Qed.

Lemma ci_prefix_exact (t s : string) :
  all_chars not_letter t = true -> ci_prefix t s = true -> exists x, s = t ++ x.
Proof.
  revert s. induction t as [|c t IH]; intros s Hall Hp.
  - exists s. reflexivity.
  - destruct s as [|x s]; [discriminate|].
    simpl in Hall, Hp. apply andb_prop in Hall as [Hc Hall].
    apply andb_prop in Hp as [Hm Hp].
    apply (chr_matches_not_letter _ _ Hc) in Hm. subst x.
    destruct (IH s Hall Hp) as [y ->]. exists y. reflexivity.
Qed.

Lemma space_tokens_not_letters :
  forallb (all_chars not_letter) space_tokens = true.
Proof. vm_compute. reflexivity. Qed.

Lemma space_token_nonempty t : In t space_tokens -> (0 < String.length t)%nat.
Proof.
  intros Hin. assert (H : forallb (fun t => 0 <? String.length t)%nat space_tokens = true)
    by (vm_compute; reflexivity).
  rewrite forallb_forall in H. apply Nat.ltb_lt. now apply H.
Qed.

Lemma space_tokens_apart t t' s :
  In t space_tokens -> In t' space_tokens -> t' <> t -> ci_prefix t' (t ++ s) = false.
Proof.
  intros Hin Hin' Hne. unfold space_tokens, white_space in Hin, Hin'. simpl in Hin, Hin'.
  repeat (destruct Hin as [<-|Hin]; [|]); try (destruct Hin);
    repeat (destruct Hin' as [<-|Hin']; [|]); try (destruct Hin');
    try reflexivity; exfalso; apply Hne; reflexivity.
Qed.

(** Greedy iteration over whitespace takes the whole run. *)
Lemma exec_space_none rest K :
  no_leading_space rest -> exec true space rest K = None.
Proof.
  intros Hrest. apply exec_alts_none. intros r Hr.
  apply in_map_iff in Hr as (t & <- & Ht).
  apply exec_lit_fail. destruct (ci_prefix t rest) eqn:E; [exfalso | reflexivity].
  pose proof space_tokens_not_letters as Hall. rewrite forallb_forall in Hall.
  destruct (ci_prefix_exact t rest (Hall t Ht) E) as [x ->].
  now apply (Hrest t x).
Qed.

Lemma iterate_spaces ws rest fuel :
  spaces ws -> no_leading_space rest -> (String.length ws < fuel)%nat ->
  iterate (exec true space) Some fuel (ws ++ rest) = Some rest.
Proof.
  intros Hws Hrest. revert fuel.
  induction Hws as [|t s Ht Hs IH]; intros fuel Hfuel.
  - destruct fuel as [|f]; [reflexivity|].
    rewrite append_nil_l, iterate_S. now rewrite exec_space_none.
  - pose proof (space_token_nonempty t Ht) as Hlen.
    rewrite length_append in Hfuel.
    destruct fuel as [|f]; [lia|].
    rewrite append_assoc, iterate_S. unfold space at 1.
    rewrite (exec_alts_lit space_tokens t t); auto.
    + replace (String.length (s ++ rest) <? String.length (t ++ s ++ rest))%nat with true
        by (symmetry; apply Nat.ltb_lt; rewrite (length_append t); lia).
      rewrite IH by lia. reflexivity.
    + intros t' Ht' Hne. now apply space_tokens_apart.
Qed.

(** What the matcher accepts is in the language of the pattern. *)
Lemma iterate_sound ic r step :
  (forall s K x, step s K = Some x ->
     exists a b, s = a ++ b /\ matches ic r a /\ K b = Some x) ->
  forall fuel s K x, iterate step K fuel s = Some x ->
    exists a b, s = a ++ b /\ matches ic (Star r) a /\ K b = Some x.
Proof.
  intros Hstep fuel. induction fuel as [|f IH]; intros s K x E.
  - exists "", s. repeat split; [constructor | exact E].
  - rewrite iterate_S in E.
    destruct (step s _) as [y|] eqn:Es.
    + injection E as ->.
      apply Hstep in Es as (a & b & -> & Ha & Eb).
      destruct (String.length b <? String.length (a ++ b))%nat; [|discriminate].
      apply IH in Eb as (a' & b' & -> & Ha' & Eb').
      exists (a ++ a'), b'. rewrite append_assoc. repeat split; [|exact Eb'].
      now constructor.
    + exists "", s. repeat split; [constructor | exact E].
Qed.

Lemma exec_sound ic r :
  forall s K x, exec ic r s K = Some x ->
    exists a b, s = a ++ b /\ matches ic r a /\ K b = Some x.
Proof.
  induction r as [| |c|p|r1 IH1 r2 IH2|r1 IH1 r2 IH2|r IH|r IH]; intros s K x E; simpl in E.
  - exists "", s. repeat split; [constructor | exact E].
  - discriminate.
  - destruct s as [|y s]; [discriminate|].
    destruct (chr_matches ic c y) eqn:Ec; [|discriminate].
    exists (String y ""), s. repeat split; [now constructor | exact E].
  - destruct s as [|y s]; [discriminate|].
    destruct (p y) eqn:Ep; [|discriminate].
    exists (String y ""), s. repeat split; [now constructor | exact E].
  - apply IH1 in E as (a1 & b1 & -> & H1 & E).
    apply IH2 in E as (a2 & b2 & -> & H2 & E).
    exists (a1 ++ a2), b2. rewrite append_assoc. repeat split; [|exact E].
    now constructor.
  - destruct (exec ic r1 s K) as [y|] eqn:E1.
    + injection E as ->. apply IH1 in E1 as (a & b & -> & Ha & Eb).
      exists a, b. repeat split; [|exact Eb]. now apply matches_alt_l.
    + apply IH2 in E as (a & b & -> & Ha & Eb).
      exists a, b. repeat split; [|exact Eb]. now apply matches_alt_r.
  - destruct (exec ic r s K) as [y|] eqn:E1.
    + injection E as ->. apply IH in E1 as (a & b & -> & Ha & Eb).
      exists a, b. repeat split; [|exact Eb]. now apply matches_opt_some.
    + exists "", s. repeat split; [constructor | exact E].
  - change (iterate (exec ic r) K (S (String.length s)) s = Some x) in E.
    eapply iterate_sound; [|exact E]. exact IH.
Qed.

Lemma matches_alts ic rs a :
  matches ic (alts rs) a -> exists r, In r rs /\ matches ic r a.
Proof.
  induction rs as [|r rs IH]; simpl; intros Hm; inversion Hm; subst.
  - exists r. split; [now left | assumption].
  - destruct IH as (r' & Hin & Hr'); [assumption|].
    exists r'. split; [now right | assumption].
Qed.

Lemma matches_lit (k a : string) :
  matches true (lit k) a -> uppercase a = uppercase k.
Proof.
  revert a. induction k as [|c k IH]; simpl; intros a Hm; inversion Hm; subst.
  - reflexivity.
  - match goal with H : matches true (Chr c) _ |- _ => inversion H; subst end.
    rewrite append_cons, append_nil_l. simpl. f_equal.
    + match goal with H : chr_matches true c _ = true |- _ =>
        unfold chr_matches in H; apply Ascii.eqb_eq in H; now rewrite H end.
    + now apply IH.
Qed.

Lemma matches_chr_exact (c : ascii) (a : string) :
  not_letter c = true -> matches true (Chr c) a -> a = String c "".
Proof.
  intros Hc Hm. inversion Hm; subst.
  match goal with H : chr_matches true c _ = true |- _ =>
    apply (chr_matches_not_letter _ _ Hc) in H; now subst end.
Qed.

Lemma matches_lit_exact (t a : string) :
  all_chars not_letter t = true -> matches true (lit t) a -> a = t.
Proof.
  revert a. induction t as [|c t IH]; simpl; intros a Hall Hm; inversion Hm; subst.
  - reflexivity.
  - apply andb_prop in Hall as [Hc Hall].
    match goal with H : matches true (Chr c) _ |- _ =>
      apply (matches_chr_exact _ _ Hc) in H; subst end.
    rewrite append_cons, append_nil_l. f_equal. now apply IH.
Qed.

Lemma matches_star_cls ic (p : ascii -> bool) (a : string) :
  matches ic (Star (Cls p)) a -> all_chars p a = true.
Proof.
  intros Hm. remember (Star (Cls p)) as r eqn:Er.
  induction Hm; try discriminate.
  - reflexivity.
  - injection Er as ->. inversion Hm1; subst.
    rewrite append_cons, append_nil_l. simpl.
    apply andb_true_intro. split; [assumption | now apply IHHm2].
Qed.

Lemma matches_star_space (a : string) : matches true (Star space) a -> spaces a.
Proof.
  intros Hm. remember (Star space) as r eqn:Er.
  induction Hm; try discriminate.
  - constructor.
  - injection Er as ->.
    apply matches_alts in Hm1 as (r & Hin & Hr).
    apply in_map_iff in Hin as (t & <- & Ht).
    pose proof space_tokens_not_letters as Hall. rewrite forallb_forall in Hall.
    apply (matches_lit_exact _ _ (Hall t Ht)) in Hr. subst a.
    constructor; [exact Ht | now apply IHHm2].
Qed.

End RegexFacts.

(** ** The anonymizer *)
Module AnonymizerFacts.
Import Regex Grammar StringFacts RegexFacts Anonymizer.

Lemma hex_digit_lowercase (n : N) : is_lowercase_hex (Sha256.hex_digit n) = true.
Proof.
  destruct n as [|p]; [reflexivity|].
  do 5 (try destruct p as [p|p|]); reflexivity.
Qed.

Lemma substring_hex32 (x : N) (tail : string) :
  substring 0 8 (Sha256.hex32 x tail) = Sha256.hex32 x "".
Proof. unfold Sha256.hex32. cbn [substring]. now rewrite substring_zero. Qed.

(** The truncated digest: exactly eight lowercase hexadecimal characters. *)
Lemma createConsistentHash_hex (input : string) :
  String.length (createConsistentHash input 8) = 8%nat /\
  all_chars is_lowercase_hex (createConsistentHash input 8) = true.
Proof.
  unfold createConsistentHash, Sha256.sha256_hex, Sha256.hex_of_state.
  generalize (Sha256.digest (Sha256.bytes_of_string input)). intros st.
  rewrite substring_hex32. split; [reflexivity|].
  unfold Sha256.hex32. cbn [all_chars]. rewrite !hex_digit_lowercase. reflexivity.
Qed.

Lemma anonymizeMessage_nonempty (m : string) :
  m <> "" ->
  anonymizeMessage (Some m) =
  match match_anchored true conventionalPrefixPattern m with
  | Some prefix =>
      prefix ++ "hash_" ++ createConsistentHash (substring_from (String.length prefix) m) 8
  | None => "hash_" ++ createConsistentHash m 8
  end.
Proof. destruct m; [congruence | reflexivity]. Qed.

Lemma keywords_apart k k' s :
  In k keywords -> In k' keywords -> k' <> k -> ci_prefix k' (k ++ s) = false.
Proof.
  intros Hin Hin' Hne. unfold keywords in Hin, Hin'. simpl in Hin, Hin'.
  repeat (destruct Hin as [<-|Hin]; [|]); try (destruct Hin);
    repeat (destruct Hin' as [<-|Hin']; [|]); try (destruct Hin');
    try reflexivity; exfalso; apply Hne; reflexivity.
Qed.

Lemma scope_char_not_paren (c : ascii) :
  scope_char c = true -> chr_matches true ")" c = false.
Proof. destruct c as [[] [] [] [] [] [] [] []]; vm_compute; congruence. Qed.

(** The optional scope is consumed when it is there, and skipped otherwise,
    as long as what follows in the pattern demands a colon. *)
Lemma exec_opt_scope sc t K :
  is_scope sc ->
  (forall c s, chr_matches true ":" c = false -> K (String c s) = None) ->
  exec true (Opt scope_pattern) (sc ++ ":" ++ t) K = K (":" ++ t).
Proof.
  intros [->|(body & Hne & Hall & ->)] HK.
  - reflexivity.
  - destruct body as [|b body]; [congruence|].
    simpl in Hall. apply andb_prop in Hall as [Hb Hall].
    set (K2 := fun s1 => exec true (Chr ")") s1 K).
    assert (E : exec true scope_pattern (("(" ++ String b body ++ ")") ++ ":" ++ t) K
                = K (":" ++ t)).
    { change (exec true scope_pattern (("(" ++ String b body ++ ")") ++ ":" ++ t) K)
        with (if scope_char b
              then iterate (exec true (Cls scope_char)) K2
                     (S (String.length ((body ++ ")") ++ ":" ++ t)))
                     ((body ++ ")") ++ ":" ++ t)
              else None).
      rewrite Hb, (append_assoc body).
      rewrite (iterate_class _ scope_char); try reflexivity; try assumption.
      - intros c s E. injection E as <- _. reflexivity.
      - intros c s Hc. unfold K2. cbn [exec]. now rewrite (scope_char_not_paren c Hc).
      - rewrite length_append. lia. }
    change (exec true (Opt scope_pattern) ?s K)
      with (match exec true scope_pattern s K with Some r => Some r | None => K s end).
    rewrite E. destruct (K (":" ++ t)); [reflexivity|].
    now apply HK.
Qed.

(** The matcher on a message that begins with a prefix: the match is the
    prefix with all the whitespace that follows the colon. *)
Lemma match_prefix kw sc ws rest :
  is_keyword kw -> is_scope sc -> spaces ws -> no_leading_space rest ->
  match_anchored true conventionalPrefixPattern (kw ++ sc ++ ":" ++ ws ++ rest)
  = Some (kw ++ sc ++ ":" ++ ws).
Proof.
  intros (k & Hk & Ek) Hsc Hws Hrest.
  set (K3 := fun s3 => exec true (Star space) s3 Some).
  set (K2 := fun s2 => exec true (Chr ":") s2 K3).
  set (K1 := fun s1 => exec true (Opt scope_pattern) s1 K2).
  assert (E : exec true conventionalPrefixPattern (kw ++ sc ++ ":" ++ ws ++ rest) Some
              = Some rest).
  { change (exec true conventionalPrefixPattern ?s Some)
      with (exec true (alts (map lit keywords)) s K1).
    rewrite (exec_alts_lit keywords kw k); auto.
    2:{ intros k' Hk' Hne. now apply keywords_apart. }
    unfold K1. rewrite exec_opt_scope; auto.
    2:{ intros c s Hc. unfold K2. cbn [exec]. now rewrite Hc. }
    change (K2 (":" ++ ws ++ rest))
      with (iterate (exec true space) Some (S (String.length (ws ++ rest))) (ws ++ rest)).
    apply iterate_spaces; auto. rewrite length_append. lia. }
  unfold match_anchored. rewrite E.
  replace (kw ++ sc ++ ":" ++ ws ++ rest) with ((kw ++ sc ++ ":" ++ ws) ++ rest)
    by now rewrite !append_assoc.
  now rewrite matched_text.
Qed.

Lemma keyword_nonempty kw : is_keyword kw -> kw <> "".
Proof.
  intros (k & Hk & Ek) ->. unfold keywords in Hk. simpl in Hk.
  repeat (destruct Hk as [<-|Hk]; [discriminate|]). destruct Hk.
Qed.

Lemma matches_seq_inv ic r1 r2 a :
  matches ic (Seq r1 r2) a ->
  exists a1 a2, a = a1 ++ a2 /\ matches ic r1 a1 /\ matches ic r2 a2.
Proof. intros Hm. inversion Hm; subst. eauto. Qed.

Lemma matches_opt_inv ic r a : matches ic (Opt r) a -> a = "" \/ matches ic r a.
Proof. intros Hm. inversion Hm; subst; auto. Qed.

Lemma matches_cls_inv ic (p : ascii -> bool) a :
  matches ic (Cls p) a -> exists x, a = String x "" /\ p x = true.
Proof. intros Hm. inversion Hm; subst. eauto. Qed.

Lemma scope_shape sc : matches true (Opt scope_pattern) sc -> is_scope sc.
Proof.
  intros Hm. apply matches_opt_inv in Hm as [->|Hm]; [now left | right].
  apply matches_seq_inv in Hm as (a1 & a2 & -> & H1 & H2).
  apply matches_chr_exact in H1; [subst a1 | reflexivity].
  apply matches_seq_inv in H2 as (body & a3 & -> & H2 & H3).
  apply matches_chr_exact in H3; [subst a3 | reflexivity].
  apply matches_seq_inv in H2 as (b1 & b2 & -> & H2 & H4).
  apply matches_cls_inv in H2 as (x & -> & Hx).
  apply matches_star_cls in H4.
  exists (String x b2). repeat split.
  - discriminate.
  - simpl. now rewrite Hx, H4.
Qed.

(** Whatever the pattern matches is a prefix in the sense of the grammar. *)
Lemma prefix_shape a :
  matches true conventionalPrefixPattern a ->
  exists kw sc ws, is_keyword kw /\ is_scope sc /\ spaces ws /\ a = kw ++ sc ++ ":" ++ ws.
Proof.
  intros Hm. unfold conventionalPrefixPattern in Hm.
  apply matches_seq_inv in Hm as (kw & a1 & -> & Hkw & Hm).
  apply matches_seq_inv in Hm as (sc & a2 & -> & Hsc & Hm).
  apply matches_seq_inv in Hm as (co & ws & -> & Hco & Hws).
  apply matches_alts in Hkw as (r & Hin & Hr).
  apply in_map_iff in Hin as (k & <- & Hk). apply matches_lit in Hr.
  apply scope_shape in Hsc.
  apply matches_chr_exact in Hco; [subst co | reflexivity].
  apply matches_star_space in Hws.
  exists kw, sc, ws. repeat split; try assumption.
  exists k. split; assumption.
Qed.

Lemma match_anchored_sound m p :
  match_anchored true conventionalPrefixPattern m = Some p ->
  exists kw sc ws rest,
    is_keyword kw /\ is_scope sc /\ spaces ws /\
    p = kw ++ sc ++ ":" ++ ws /\ m = p ++ rest.
Proof.
  unfold match_anchored. intros E.
  destruct (exec true conventionalPrefixPattern m Some) as [rest|] eqn:Ex; [|discriminate].
  apply exec_sound in Ex as (a & b & -> & Ha & Eb). injection Eb as ->.
  rewrite matched_text in E. injection E as <-.
  apply prefix_shape in Ha as (kw & sc & ws & Hkw & Hsc & Hws & ->).
  exists kw, sc, ws, rest. repeat split; assumption.
Qed.

Lemma no_prefix_no_match m :
  ~ begins_with_prefix m -> match_anchored true conventionalPrefixPattern m = None.
Proof.
  intros Hn. destruct (match_anchored true conventionalPrefixPattern m) as [p|] eqn:E;
    [exfalso | reflexivity].
  apply match_anchored_sound in E as (kw & sc & ws & rest & Hkw & Hsc & Hws & -> & ->).
  apply Hn. exists kw, sc, (ws ++ rest). repeat split; try assumption.
  now rewrite !append_assoc.
Qed.

Lemma ci_prefix_app (t x : string) : ci_prefix t (t ++ x) = true.
Proof.
  induction t as [|c t IH]; [reflexivity|].
  rewrite append_cons. simpl. rewrite IH.
  unfold chr_matches. now rewrite (proj2 (Ascii.eqb_eq _ _) eq_refl).
Qed.

(** Every string splits into its leading whitespace and the rest. *)
Lemma split_spaces (tail : string) :
  exists ws rest, tail = ws ++ rest /\ spaces ws /\ no_leading_space rest.
Proof.
  remember (String.length tail) as n eqn:En.
  assert (Hn : (String.length tail <= n)%nat) by lia. clear En.
  revert tail Hn. induction n as [|n IH]; intros tail Hn.
  - destruct tail; [|simpl in Hn; lia].
    exists "", "". repeat split; [constructor|].
    intros t x Ht E. apply space_token_nonempty in Ht.
    destruct t; [simpl in Ht; lia | discriminate].
  - destruct (existsb (fun t => ci_prefix t tail) space_tokens) eqn:Ex.
    + apply existsb_exists in Ex as (t & Ht & Hp).
      pose proof space_tokens_not_letters as Hall. rewrite forallb_forall in Hall.
      destruct (ci_prefix_exact t tail (Hall t Ht) Hp) as [x ->].
      pose proof (space_token_nonempty t Ht) as Hlen.
      rewrite length_append in Hn.
      destruct (IH x) as (ws & rest & -> & Hws & Hrest); [lia|].
      exists (t ++ ws), rest. repeat split; [now rewrite append_assoc | now constructor | exact Hrest].
    + exists "", tail. repeat split; [constructor|].
      intros t x Ht ->.
      assert (existsb (fun t0 => ci_prefix t0 (t ++ x)) space_tokens = true); [|congruence].
      apply existsb_exists. exists t. split; [exact Ht | apply ci_prefix_app].
Qed.

(** The pattern recognises exactly the messages that begin with a prefix. *)
Lemma prefix_decision m :
  begins_with_prefix m <-> match_anchored true conventionalPrefixPattern m <> None.
Proof.
  split.
  - intros (kw & sc & tail & Hkw & Hsc & ->).
    destruct (split_spaces tail) as (ws & rest & -> & Hws & Hrest).
    now rewrite match_prefix.
  - intros Hm. destruct (match_anchored true conventionalPrefixPattern m) as [p|] eqn:E;
      [|congruence].
    apply match_anchored_sound in E as (kw & sc & ws & rest & Hkw & Hsc & Hws & -> & ->).
    exists kw, sc, (ws ++ rest). repeat split; try assumption.
    now rewrite !append_assoc.
Qed.

Lemma anonymizeMessage_prefix (kw sc ws rest : string) :
  is_keyword kw -> is_scope sc -> spaces ws -> no_leading_space rest ->
  anonymizeMessage (Some (kw ++ sc ++ ":" ++ ws ++ rest))
  = (kw ++ sc ++ ":" ++ ws) ++ "hash_" ++ substring 0 8 (Sha256.sha256_hex rest).
Proof.
  intros Hkw Hsc Hws Hrest.
  rewrite anonymizeMessage_nonempty.
  - rewrite match_prefix by assumption.
    replace (kw ++ sc ++ ":" ++ ws ++ rest) with ((kw ++ sc ++ ":" ++ ws) ++ rest)
      by now rewrite !append_assoc.
    now rewrite substring_from_append.
  - pose proof (keyword_nonempty kw Hkw) as Hne.
    destruct kw; [congruence | discriminate].
Qed.

End AnonymizerFacts.

Import Regex Grammar Anonymizer.

(** C3. A message that begins with a conventional-commit prefix (a keyword
    of the fixed set in any letter case, an optional parenthesized scope of
    word characters and hyphens, a colon, and the whitespace that follows)
    is anonymized to that prefix, exactly as written, followed by "hash_"
    and the first 8 hexadecimal characters of the SHA-256 digest of the
    remainder of the message. *)
Theorem anonymizeMessage_preserves_prefix (kw sc ws rest : string) :
  is_keyword kw -> is_scope sc -> spaces ws -> no_leading_space rest ->
  anonymizeMessage (Some (kw ++ sc ++ ":" ++ ws ++ rest))
  = (kw ++ sc ++ ":" ++ ws) ++ "hash_" ++ substring 0 8 (Sha256.sha256_hex rest)
  /\ String.length (substring 0 8 (Sha256.sha256_hex rest)) = 8%nat
  /\ all_chars is_lowercase_hex (substring 0 8 (Sha256.sha256_hex rest)) = true.
Proof.
  intros Hkw Hsc Hws Hrest. split; [|apply (AnonymizerFacts.createConsistentHash_hex rest)].
  rewrite AnonymizerFacts.anonymizeMessage_nonempty.
  - rewrite AnonymizerFacts.match_prefix by assumption.
    replace (kw ++ sc ++ ":" ++ ws ++ rest) with ((kw ++ sc ++ ":" ++ ws) ++ rest)
      by now rewrite !StringFacts.append_assoc.
    now rewrite StringFacts.substring_from_append.
  - pose proof (AnonymizerFacts.keyword_nonempty kw Hkw) as Hne.
    destruct kw; [congruence | discriminate].
Qed.

Lemma anonymizeMessage_preserves_prefix_witness :
  anonymizeMessage (Some "fix(auth): resolve login issue") = "fix(auth): hash_a57463f7".
Proof.
  refine (eq_trans (proj1
    (anonymizeMessage_preserves_prefix "fix" "(auth)" " " "resolve login issue" _ _ _ _)) _).
  - exists "fix". split; [simpl; tauto | reflexivity].
  - right. exists "auth". repeat split; discriminate.
  - apply (spaces_cons " " ""); [simpl; tauto | constructor].
  - intros t x Ht. unfold space_tokens, white_space in Ht. simpl in Ht.
    repeat (destruct Ht as [<-|Ht]; [discriminate|]). destruct Ht.
  - vm_compute. reflexivity.
Defined.

(** The cases of [test/lib/anonymizer.spec.ts], with their values. *)
Example anonymizeMessage_uppercase :
  anonymizeMessage (Some "FEAT: add feature") = "FEAT: hash_bd096126".
Proof. vm_compute. reflexivity. Qed.

Example anonymizeMessage_takes_all_whitespace :
  anonymizeMessage (Some ("ci:" ++ utf8 0x2003 ++ utf8 0xA0 ++ " x"))
  = ("ci:" ++ utf8 0x2003 ++ utf8 0xA0 ++ " ") ++ "hash_2d711642".
Proof. vm_compute. reflexivity. Qed.

Example anonymizeMessage_unclosed_scope :
  anonymizeMessage (Some "fix(auth: x") = "hash_8c38328b".
Proof. vm_compute. reflexivity. Qed.

Example anonymizeText_pull_request :
  anonymizeText (Some "feat: x") pr = "pr_hash_3fa1d5fd"
  /\ anonymizeText (Some "feat: x") commit = anonymizeMessage (Some "feat: x")
  /\ anonymizeText (Some "") commit = "commit_hash_" ++ createConsistentHash "commit_empty" 8.
Proof. vm_compute. repeat split. Qed.

Example anonymizeRepository_distinct :
  anonymizeRepository (Some "facebook/react") <> anonymizeRepository (Some "vuejs/vue").
Proof. vm_compute. discriminate. Qed.

(** C8, as the code has it. A message that is not empty and does not begin
    with a recognized prefix is anonymized to "hash_" followed by the first
    8 lowercase hexadecimal characters of the SHA-256 digest of the whole
    message; the absent message and the empty string both map to the digest
    of the sentinel "empty". *)
Theorem anonymizeMessage_without_prefix (message : string) :
  message <> "" -> ~ begins_with_prefix message ->
  anonymizeMessage (Some message) = "hash_" ++ substring 0 8 (Sha256.sha256_hex message)
  /\ String.length (substring 0 8 (Sha256.sha256_hex message)) = 8%nat
  /\ all_chars is_lowercase_hex (substring 0 8 (Sha256.sha256_hex message)) = true
  /\ anonymizeMessage None = "hash_" ++ substring 0 8 (Sha256.sha256_hex "empty")
  /\ anonymizeMessage (Some "") = "hash_" ++ substring 0 8 (Sha256.sha256_hex "empty").
Proof.
  intros Hne Hn. split; [|split; [|split; [|split]]].
  - rewrite AnonymizerFacts.anonymizeMessage_nonempty by assumption.
    now rewrite AnonymizerFacts.no_prefix_no_match.
  - apply (AnonymizerFacts.createConsistentHash_hex message).
  - apply (AnonymizerFacts.createConsistentHash_hex message).
  - reflexivity.
  - reflexivity.
Qed.

Lemma anonymizeMessage_without_prefix_witness :
  anonymizeMessage (Some "some random commit message") = "hash_e4424f90".
Proof.
  refine (eq_trans (proj1 (anonymizeMessage_without_prefix "some random commit message" _ _)) _).
  - discriminate.
  - intros Hb. apply AnonymizerFacts.prefix_decision in Hb. apply Hb. vm_compute. reflexivity.
  - vm_compute. reflexivity.
Defined.

(** C8 as stated fails on the empty string: it is present and begins with no
    prefix, yet it is hashed as the sentinel and not as itself. *)
Lemma anonymizeMessage_empty_string_counterexample :
  ~ begins_with_prefix ""
  /\ anonymizeMessage (Some "") <> "hash_" ++ substring 0 8 (Sha256.sha256_hex "")
  /\ anonymizeMessage (Some "") = anonymizeMessage None.
Proof.
  split; [|split].
  - intros Hb. apply AnonymizerFacts.prefix_decision in Hb. apply Hb. reflexivity.
  - vm_compute. discriminate.
  - reflexivity.
Qed.

(** ** Commit messages *)
Module MessageFacts.
Import Js GitFormatter MessageSpec StringFacts RegexFacts AnonymizerFacts.

Lemma buildCommitMessage_fields (c : Contribution) (anonymize : bool) :
  buildCommitMessage c anonymize = message c anonymize.
Proof.
  unfold buildCommitMessage, message, leading_fields, text_field, push.
  destruct c as [ty ts repo pid tgt txt u]; cbn [type repository target projectId text].
  destruct repo as [[|? ?]|], tgt as [[|? ?]|], pid as [[|? ?]|], txt as [[|? ?]|];
    destruct anonymize; reflexivity.
Qed.

Lemma starts_with_ci (p s : string) : starts_with p s = true -> ci_prefix p s = true.
Proof.
  revert s. induction p as [|a p IH]; intros s Hp; [reflexivity|].
  destruct s as [|b s]; [discriminate|].
  simpl in Hp |- *. apply andb_prop in Hp as [Hab Hp].
  apply Ascii.eqb_eq in Hab. subst b.
  rewrite (proj2 (Ascii.eqb_eq _ _) eq_refl). now apply IH.
Qed.

(** No output of [anonymizeMessage] has one of the type-specific forms. *)
Lemma anonymizeMessage_not_kind_form (v : option string) (k : TextKind) :
  starts_with (kind_name k ++ "_hash_") (anonymizeMessage v) = false.
Proof.
  destruct v as [m|]; [|destruct k; reflexivity].
  destruct m as [|x m]; [destruct k; reflexivity|].
  rewrite anonymizeMessage_nonempty by discriminate.
  destruct (match_anchored true conventionalPrefixPattern (String x m)) as [p|] eqn:E;
    [|destruct k; reflexivity].
  apply match_anchored_sound in E as (kw & sc & ws & rest & (k0 & Hk0 & Ek) & _ & _ & -> & _).
  destruct (starts_with _ _) eqn:Es; [exfalso | reflexivity].
  apply starts_with_ci in Es. rewrite !append_assoc in Es.
  rewrite (ci_prefix_spelling _ _ _ _ Ek) in Es.
  unfold keywords in Hk0. simpl in Hk0.
  repeat (destruct Hk0 as [<-|Hk0]; [destruct k; discriminate Es|]). destruct Hk0.
Qed.

End MessageFacts.

Import Js GitFormatter.

(** C6. The commit message is the list of the fields [type] in brackets,
    the repository (anonymized or raw), the target in parentheses, the
    project id in braces and the text (anonymized or raw), in that order,
    where an absent field is dropped and the others are joined with ": ";
    the two messages of the specification's example come out exactly. *)
Theorem buildCommitMessage_assembly (c : Contribution) (anonymize : bool) :
  buildCommitMessage c anonymize = MessageSpec.message c anonymize
  /\ buildCommitMessage
       (mkContribution "commit" "2026-01-01T10:00:00Z" (Some "owner/repo") None None
          (Some "feat: add feature") None) false
     = "[commit]: owner/repo: feat: add feature"
  /\ buildCommitMessage
       (mkContribution "pr" "2026-01-02T12:00:00Z" (Some "owner/repo") None (Some "main")
          (Some "Fix bug") None) false
     = "[pr]: owner/repo: (main): Fix bug".
Proof.
  split; [apply MessageFacts.buildCommitMessage_fields | split; reflexivity].
Qed.

(** C10. With anonymization on, the text of a contribution of any type goes
    through [anonymizeMessage]: the message ends with that rendering, a
    conventional-commit prefix in the text is kept verbatim, and the text
    component never has a type-specific form of [anonymizeText]. *)
Theorem text_anonymized_as_message (c : Contribution) (t : string) :
  text c = Some t -> t <> "" ->
  buildCommitMessage c true
  = String.concat ": "
      (List.concat [MessageSpec.leading_fields c true; [anonymizeMessage (Some t)]])
  /\ (forall kw sc ws rest,
        is_keyword kw -> is_scope sc -> spaces ws -> no_leading_space rest ->
        t = kw ++ sc ++ ":" ++ ws ++ rest ->
        anonymizeMessage (Some t)
        = (kw ++ sc ++ ":" ++ ws) ++ "hash_" ++ substring 0 8 (Sha256.sha256_hex rest))
  /\ (forall k, MessageSpec.starts_with (kind_name k ++ "_hash_") (anonymizeMessage (Some t))
                = false)
  /\ anonymizeMessage (Some t) <> anonymizeText (Some t) pr
  /\ anonymizeMessage (Some t) <> anonymizeText (Some t) review.
Proof.
  intros Ht Hne.
  assert (Hform : forall k, MessageSpec.starts_with (kind_name k ++ "_hash_")
                              (anonymizeMessage (Some t)) = false)
    by (intros k; apply MessageFacts.anonymizeMessage_not_kind_form).
  split; [|split; [|split; [exact Hform | split]]].
  - rewrite MessageFacts.buildCommitMessage_fields.
    unfold MessageSpec.message, MessageSpec.text_field. rewrite Ht.
    destruct t; [congruence | reflexivity].
  - intros kw sc ws rest Hkw Hsc Hws Hrest ->.
    now apply AnonymizerFacts.anonymizeMessage_prefix.
  - intros E. specialize (Hform pr). rewrite E in Hform.
    destruct t; [congruence | discriminate Hform].
  - intros E. specialize (Hform review). rewrite E in Hform.
    destruct t; [congruence | discriminate Hform].
Qed.

Lemma text_anonymized_as_message_witness :
  buildCommitMessage
    (mkContribution "pr" "2026-01-02T12:00:00Z" (Some "owner/repo") None (Some "main")
       (Some "feat: add login") None) true
  = "[pr]: repo_65e817ee: (main): feat: hash_a08f988a".
Proof.
  refine (eq_trans (proj1 (text_anonymized_as_message
    (mkContribution "pr" "2026-01-02T12:00:00Z" (Some "owner/repo") None (Some "main")
       (Some "feat: add login") None) "feat: add login" eq_refl _)) _).
  - discriminate.
  - vm_compute. reflexivity.
Defined.

(** ** The repository manager *)
Module RepositoryFacts.
Import Js RepositoryManager RepositorySpec.

Lemma invoke_run c w :
  invoke c w = (if installed (git w) then Ok tt else Throw "spawn git ENOENT",
                with_git (called c) w).
Proof. unfold invoke. destruct (installed (git w)); reflexivity. Qed.

(** A directory that holds a control directory is its own repository. *)
Lemma discover_present fuel dir (fs : gset string) :
  join dir ".git" ∈ fs -> discover fuel dir fs = Some dir.
Proof. intros Hp. destruct fuel; cbn [discover]; now rewrite (bool_decide_eq_true_2 _ Hp). Qed.

Lemma initializeRepository_present this w :
  present (repositoryPath this) w -> initializeRepository this w = (Ok false, w).
Proof.
  intros Hp. unfold initializeRepository, bind, existsSync, gets.
  now rewrite (bool_decide_eq_true_2 _ Hp).
Qed.

Lemma initializeRepository_absent this w :
  ~ present (repositoryPath this) w ->
  initializeRepository this w =
  if installed (git w) then (Ok true, initialized (repositoryPath this) w)
  else (Throw "spawn git ENOENT", with_git (called (GitInit (repositoryPath this))) w).
Proof.
  intros Hp. unfold initializeRepository, bind, existsSync, gets.
  rewrite (bool_decide_eq_false_2 _ Hp).
  unfold git_init, git_addConfig, repository_of, existsSync, bind, gets, modify.
  rewrite !invoke_run. destruct (installed (git w)) eqn:Ei; [|reflexivity].
  rewrite invoke_run. cbn [with_files with_git git installed called files]. rewrite Ei.
  rewrite discover_present by set_solver. reflexivity.
Qed.

Lemma initialized_present dir w : present dir (initialized dir w).
Proof. unfold present, initialized. simpl. set_solver. Qed.

Lemma restoreEnvironmentVariables_run original w :
  restoreEnvironmentVariables original w = (Ok tt, with_env (restore_env original) w).
Proof.
  revert w. induction original as [|[key value] rest IH]; intros w.
  - destruct w; reflexivity.
  - cbn [restoreEnvironmentVariables]. unfold bind.
    destruct value as [v|]; unfold setenv, unsetenv, modify; rewrite IH; destruct w; reflexivity.
Qed.

(** What one commit invocation does. *)
Lemma git_raw_commit_run dir message author w :
  git_raw_commit dir message author w =
  let call := GitRaw dir ["commit"; "--allow-empty"; "--message"; message; "--author"; author] in
  let w1 := with_git (called call) w in
  let w2 := with_git commit_ran w1 in
  if installed (git w) then
    match discover (String.length dir) dir (files w) with
    | Some root =>
        match commit_fault (git w) (commit_runs (git w)) with
        | Some reason => (Throw reason, w2)
        | None =>
            (Ok tt,
             with_git (with_history (fun h =>
               <[ root := push (default [] (h !! root))
                            (mkCommit message author (env w !! "GIT_AUTHOR_DATE")
                               (env w !! "GIT_COMMITTER_NAME") (env w !! "GIT_COMMITTER_EMAIL")
                               (env w !! "GIT_COMMITTER_DATE")) ]> h)) w2)
        end
    | None => (Throw "fatal: not a git repository", w2)
    end
  else (Throw "spawn git ENOENT", w1).
Proof.
  unfold git_raw_commit, bind. rewrite invoke_run.
  destruct (installed (git w)); [|reflexivity].
  unfold gets, modify, repository_of, gets, throw.
  cbn [with_git files git env commit_runs commit_fault called commit_ran].
  destruct (discover (String.length dir) dir (files w)); [|reflexivity].
  destruct (commit_fault (git w) (commit_runs (git w))); reflexivity.
Qed.

(** The commit invocation never touches the process itself. *)
Lemma git_raw_commit_frame dir message author w :
  exists r g, git_raw_commit dir message author w
              = (r, mkWorld (env w) (cwd w) (files w) (arrays w) (console w) g).
Proof.
  rewrite git_raw_commit_run. cbv zeta.
  destruct (installed (git w)); [|eauto].
  destruct (discover _ _ _); [|eauto].
  destruct (commit_fault _ _); eauto.
Qed.

(** Setting the four variables and restoring what was saved is the identity. *)
Lemma restore_after_set (e : gmap string string) (d n m : string) :
  restore_env
    [ ("GIT_AUTHOR_DATE", e !! "GIT_AUTHOR_DATE"); ("GIT_COMMITTER_DATE", e !! "GIT_COMMITTER_DATE");
      ("GIT_COMMITTER_NAME", e !! "GIT_COMMITTER_NAME");
      ("GIT_COMMITTER_EMAIL", e !! "GIT_COMMITTER_EMAIL") ]
    (<["GIT_COMMITTER_EMAIL" := m]> (<["GIT_COMMITTER_NAME" := n]>
       (<["GIT_COMMITTER_DATE" := d]> (<["GIT_AUTHOR_DATE" := d]> e))))
  = e.
Proof.
  apply map_eq. intros i. unfold restore_env. cbn [fold_left fst snd].
  destruct (e !! "GIT_AUTHOR_DATE") eqn:E1, (e !! "GIT_COMMITTER_DATE") eqn:E2,
    (e !! "GIT_COMMITTER_NAME") eqn:E3, (e !! "GIT_COMMITTER_EMAIL") eqn:E4;
    repeat (rewrite lookup_insert || rewrite lookup_delete);
    repeat case_decide; subst; congruence.
Qed.

Lemma createCommit_env `{Runtime} this options w :
  env (snd (createCommit this options w)) = env w.
Proof.
  unfold createCommit, bind, toISOString.
  destruct (date options) as [t|]; [|reflexivity].
  unfold getenv, gets, try_finally, setenv, modify. cbn [with_env env cwd files arrays console git].
  match goal with |- context [git_raw_commit ?d ?m ?a ?w0] =>
    destruct (git_raw_commit_frame d m a w0) as (r & g & ->) end.
  rewrite restoreEnvironmentVariables_run.
  cbn [with_env env snd]. apply restore_after_set.
Qed.

Lemma set_lookups (e : gmap string string) (d n m : string) :
  let e' := <["GIT_COMMITTER_EMAIL" := m]> (<["GIT_COMMITTER_NAME" := n]>
              (<["GIT_COMMITTER_DATE" := d]> (<["GIT_AUTHOR_DATE" := d]> e))) in
  e' !! "GIT_AUTHOR_DATE" = Some d /\ e' !! "GIT_COMMITTER_NAME" = Some n /\
  e' !! "GIT_COMMITTER_EMAIL" = Some m /\ e' !! "GIT_COMMITTER_DATE" = Some d.
Proof.
  cbv zeta. repeat split.
  - rewrite !lookup_insert_ne by discriminate. apply lookup_insert_eq.
  - rewrite lookup_insert_ne by discriminate. apply lookup_insert_eq.
  - apply lookup_insert_eq.
  - rewrite !lookup_insert_ne by discriminate. apply lookup_insert_eq.
Qed.

(** What one [createCommit] does when the tool can run in an initialized
    repository: the environment is back to what it was, and the history has
    grown by one commit unless the invocation failed. *)
Lemma with_env_with_git f g w : with_env f (with_git g w) = with_git g (with_env f w).
Proof. reflexivity. Qed.

Lemma with_env_with_env f g w : with_env f (with_env g w) = with_env (fun e => f (g e)) w.
Proof. reflexivity. Qed.

Lemma with_git_with_git f g w : with_git f (with_git g w) = with_git (fun x => f (g x)) w.
Proof. reflexivity. Qed.

Lemma with_env_id f w : f (env w) = env w -> with_env f w = w.
Proof. unfold with_env. intros ->. now destruct w. Qed.

#[local] Arguments restoreEnvironmentVariables : simpl never.
#[local] Arguments restore_env : simpl never.

Lemma createCommit_run `{Runtime} this options w t :
  date options = Some t -> installed (git w) = true -> present (repositoryPath this) w ->
  createCommit this options w =
  let author := authorName options ++ " <" ++ authorEmail options ++ ">" in
  let call := GitRaw (repositoryPath this)
                ["commit"; "--allow-empty"; "--message"; message options; "--author"; author] in
  let stamp := Some (Date_toISOString t) in
  match commit_fault (git w) (commit_runs (git w)) with
  | Some reason => (Throw reason, with_git (fun g => commit_ran (called call g)) w)
  | None =>
      (Ok tt,
       with_git (fun g => with_history (fun h =>
         <[ repositoryPath this :=
              push (default [] (h !! repositoryPath this))
                (mkCommit (message options) author stamp (Some (authorName options))
                   (Some (authorEmail options)) stamp) ]> h) (commit_ran (called call g))) w)
  end.
Proof.
  intros Hd Hi Hp. unfold createCommit, bind, toISOString. rewrite Hd.
  unfold getenv, gets, try_finally, setenv, modify.
  rewrite git_raw_commit_run. simpl.
  rewrite Hi, (discover_present _ _ _ Hp).
  destruct (set_lookups (env w) (Date_toISOString t) (authorName options)
              (authorEmail options)) as (-> & -> & -> & ->).
  destruct (commit_fault (git w) (commit_runs (git w))) as [reason|];
    rewrite restoreEnvironmentVariables_run; simpl;
    rewrite !with_env_with_git, !with_env_with_env,
      (with_env_id _ _ (restore_after_set (env w) _ _ _)), ?with_git_with_git; reflexivity.
Qed.

(** In every case [createCommit] leaves the process as it found it; only
    the state of the tool moves. *)
Lemma createCommit_frame `{Runtime} this options w :
  exists r g, createCommit this options w
              = (r, mkWorld (env w) (cwd w) (files w) (arrays w) (console w) g)
              /\ installed g = installed (git w).
Proof.
  unfold createCommit, bind, toISOString.
  destruct (date options) as [t|]; [|exists (Throw "Invalid time value"), (git w); now destruct w].
  unfold getenv, gets, try_finally, setenv, modify.
  rewrite git_raw_commit_run. simpl.
  destruct (installed (git w)) eqn:Hi;
    [destruct (discover (String.length (repositoryPath this)) (repositoryPath this) (files w));
       [destruct (commit_fault (git w) (commit_runs (git w)))|]|];
    rewrite restoreEnvironmentVariables_run; simpl;
    rewrite !with_env_with_git, !with_env_with_env,
      (with_env_id _ _ (restore_after_set (env w) _ _ _)), ?with_git_with_git;
    eexists; eexists; (split; [destruct w; reflexivity | simpl; exact Hi]).
Qed.

Lemma createCommit_invalid_date `{Runtime} this options w :
  date options = None -> createCommit this options w = (Throw "Invalid time value", w).
Proof. intros Hd. unfold createCommit, bind, toISOString. now rewrite Hd. Qed.

Lemma isGitAvailable_run w :
  isGitAvailable w = (Ok true, with_git (called GitVersion) w).
Proof. reflexivity. Qed.

Lemma constructor_run dir w :
  constructor dir w =
  (Ok (mk dir), if bool_decide (dir ∈ files w) then w
                else with_files (fun fs => {[ dir ]} ∪ fs) w).
Proof.
  unfold constructor, bind, existsSync, gets, mkdirSync, modify, ret.
  destruct (bool_decide (dir ∈ files w)); reflexivity.
Qed.

(** The count is that of the repository git finds from the path. *)
Lemma getCommitCount_found this w :
  getCommitCount this w =
  (Ok (if installed (git w) then
         match discover (String.length (repositoryPath this)) (repositoryPath this) (files w) with
         | Some root => List.length (default [] (history (git w) !! root))
         | None => 0%nat
         end
       else 0%nat),
   with_git (called (GitLog (repositoryPath this))) w).
Proof.
  unfold getCommitCount, try_catch, git_log_total, bind. rewrite invoke_run.
  destruct (installed (git w)); [|reflexivity].
  unfold repository_of, gets, throw, ret.
  cbn [with_git files git history called].
  destruct (discover _ _ (files w)) as [root|]; [|reflexivity].
  change (history (git (with_git (called (GitLog (repositoryPath this))) w)))
    with (history (git w)).
  destruct (default [] (history (git w) !! root)); reflexivity.
Qed.

Lemma getCommitCount_world this w :
  snd (getCommitCount this w) = with_git (called (GitLog (repositoryPath this))) w.
Proof. now rewrite getCommitCount_found. Qed.

Lemma getCommitCount_run this w :
  present (repositoryPath this) w ->
  getCommitCount this w =
  (Ok (if installed (git w) then commit_total (repositoryPath this) w else 0%nat),
   with_git (called (GitLog (repositoryPath this))) w).
Proof.
  intros Hp. rewrite getCommitCount_found. now rewrite (discover_present _ _ _ Hp).
Qed.

End RepositoryFacts.

Import RepositoryManager RepositorySpec.

(** C1. Whatever its arguments and whatever the environment, and whether the
    commit invocation succeeds or raises, [createCommit] leaves each of
    GIT_AUTHOR_DATE, GIT_COMMITTER_DATE, GIT_COMMITTER_NAME and
    GIT_COMMITTER_EMAIL with its value from before the call, unset ones being
    unset again; in fact the whole environment is as it was. *)
Theorem createCommit_restores_environment `{Runtime}
    (this : RepositoryManager.t) (options : CommitOptions) (w : World) :
  let w' := snd (createCommit this options w) in
  Forall (fun name => env w' !! name = env w !! name) ambient /\ env w' = env w.
Proof.
  cbv zeta. rewrite RepositoryFacts.createCommit_env. split; [|reflexivity].
  repeat constructor.
Qed.

(** A successful and a failing call, with one variable set and three unset. *)
Example createCommit_succeeds :
  let w := Scenario.nested Scenario.tool [] in
  let w0 := RepositorySpec.initialized Scenario.export_dir w in
  let r := createCommit (H := IsoRuntime.runtime) (RepositoryManager.mk Scenario.export_dir)
             (mkCommitOptions "[commit]: x" "Dev" "dev@example.com" (Some 1767261600000%Z)) w0 in
  fst r = Ok tt
  /\ commit_total Scenario.export_dir (snd r) = 1%nat
  /\ env (snd r) !! "GIT_AUTHOR_DATE" = None
  /\ env (snd r) !! "GIT_COMMITTER_NAME" = Some "Someone Else".
Proof. vm_compute. repeat split. Qed.

Example createCommit_fails :
  let w := Scenario.nested Scenario.flaky [] in
  let w0 := with_git commit_ran (RepositorySpec.initialized Scenario.export_dir w) in
  let r := createCommit (H := IsoRuntime.runtime) (RepositoryManager.mk Scenario.export_dir)
             (mkCommitOptions "[commit]: x" "Dev" "dev@example.com" (Some 1767261600000%Z)) w0 in
  fst r = Throw "fatal: unable to write"
  /\ commit_total Scenario.export_dir (snd r) = 0%nat
  /\ env (snd r) !! "GIT_AUTHOR_DATE" = None
  /\ env (snd r) !! "GIT_COMMITTER_NAME" = Some "Someone Else".
Proof. vm_compute. repeat split. Qed.

(** C5. [initializeRepository] looks for the control directory directly at
    the target path and nowhere else. When it is there, the call returns
    false and changes nothing (no tool invocation, no configuration write).
    When it is not, the call runs the tool's initialization, switches commit
    signing off and returns true, after which the repository is present and
    a further call is a no-op that reports that it already existed. *)
Theorem initializeRepository_idempotent (this : RepositoryManager.t) (w : World) :
  (present (repositoryPath this) w -> initializeRepository this w = (Ok false, w))
  /\ (~ present (repositoryPath this) w -> installed (git w) = true ->
      let w' := initialized (repositoryPath this) w in
      initializeRepository this w = (Ok true, w')
      /\ calls (git w') = (calls (git w) ++
           [GitInit (repositoryPath this);
            GitAddConfig (repositoryPath this) "commit.gpgsign" "false"])%list
      /\ config (git w') !! (repositoryPath this, "commit.gpgsign") = Some "false"
      /\ present (repositoryPath this) w'
      /\ initializeRepository this w' = (Ok false, w')).
Proof.
  split.
  - apply RepositoryFacts.initializeRepository_present.
  - intros Ha Hi. cbv zeta.
    pose proof (RepositoryFacts.initialized_present (repositoryPath this) w) as Hp.
    repeat split.
    + rewrite RepositoryFacts.initializeRepository_absent by assumption. now rewrite Hi.
    + unfold initialized. simpl. unfold push. now rewrite <- app_assoc.
    + unfold initialized. simpl. apply lookup_insert_eq.
    + exact Hp.
    + now apply RepositoryFacts.initializeRepository_present.
Qed.

(** The working directory lies inside a repository; the export directory
    below it is still found absent, and gets a repository of its own. *)
Lemma initializeRepository_idempotent_witness :
  let this := RepositoryManager.mk Scenario.export_dir in
  let w := Scenario.nested Scenario.tool [] in
  present "/home/dev" w
  /\ initializeRepository this w = (Ok true, initialized Scenario.export_dir w)
  /\ initializeRepository this (initialized Scenario.export_dir w)
     = (Ok false, initialized Scenario.export_dir w).
Proof.
  cbv zeta.
  assert (Ha : ~ present Scenario.export_dir (Scenario.nested Scenario.tool []))
    by (apply (bool_decide_eq_false_1 (present Scenario.export_dir _)); vm_compute;
        reflexivity).
  pose proof (initializeRepository_idempotent (RepositoryManager.mk Scenario.export_dir)
                (Scenario.nested Scenario.tool [])) as [Hpresent Habsent].
  destruct (Habsent Ha eq_refl) as (Hrun & _ & _ & Hp & _).
  split; [|split].
  - apply (bool_decide_eq_true_1 (present "/home/dev" _)). vm_compute. reflexivity.
  - exact Hrun.
  - exact (proj1 (initializeRepository_idempotent (RepositoryManager.mk Scenario.export_dir)
             (initialized Scenario.export_dir (Scenario.nested Scenario.tool []))) Hp).
Defined.

(** ** The export loop *)
Module LoopFacts.
Import Js GitFormatter FormatSpec RepositoryFacts.

Section WithRuntime.
Context `{Runtime}.

Variables (this : RepositoryManager.t) (anonymize : bool) (name email : string) (total : nat).

#[local] Abbreviation dir := (repositoryPath this).

Lemma survivors_app fault rank (l1 l2 : list Contribution) :
  survivors fault rank (l1 ++ l2)%list
  = (survivors fault rank l1
       ++ survivors fault (rank + List.length (attempted l1)) l2)%list.
Proof.
  revert rank. induction l1 as [|c l1 IH]; intros rank;
    cbn [survivors attempted app List.length].
  - now rewrite Nat.add_0_r.
  - destruct (Date_parse (timestamp c)); [|apply IH].
    rewrite IH. cbn [List.length].
    replace (rank + S (List.length (attempted l1)))%nat
      with (S rank + List.length (attempted l1))%nat by lia.
    destruct (fault rank); reflexivity.
Qed.

Lemma warnings_app fault rank (l1 l2 : list Contribution) :
  warnings fault rank (l1 ++ l2)%list
  = (warnings fault rank l1
       ++ warnings fault (rank + List.length (attempted l1)) l2)%list.
Proof.
  revert rank. induction l1 as [|c l1 IH]; intros rank;
    cbn [warnings attempted app List.length].
  - now rewrite Nat.add_0_r.
  - destruct (Date_parse (timestamp c)); [|now rewrite IH].
    rewrite IH. cbn [List.length].
    replace (rank + S (List.length (attempted l1)))%nat
      with (S rank + List.length (attempted l1))%nat by lia.
    destruct (fault rank); reflexivity.
Qed.

Lemma attempted_app (l1 l2 : list Contribution) :
  attempted (l1 ++ l2)%list = (attempted l1 ++ attempted l2)%list.
Proof.
  induction l1 as [|c l1 IH]; cbn [attempted app]; [reflexivity|].
  destruct (Date_parse (timestamp c)); now rewrite IH.
Qed.

(** Effects compose along the batch. *)
Lemma loop_effect_app (l1 l2 : list Contribution) (w w2 w' : World) :
  loop_effect dir name email anonymize l1 w w2 ->
  loop_effect dir name email anonymize l2 w2 w' ->
  loop_effect dir name email anonymize (l1 ++ l2)%list w w'.
Proof.
  unfold loop_effect. cbv zeta.
  intros (E1 & C1 & F1 & A1 & (x1 & O1 & W1) & I1 & U1 & R1 & G1 & K1 & H1)
         (E2 & C2 & F2 & A2 & (x2 & O2 & W2) & I2 & U2 & R2 & G2 & K2 & H2).
  rewrite U1, R1 in *.
  repeat split; try congruence.
  - exists (x1 ++ x2)%list. split; [now rewrite O2, O1, app_assoc|].
    intros x Hx. rewrite warnings_app in Hx. apply in_or_app.
    apply in_app_or in Hx as [Hx|Hx]; [left; now apply W1 | right; now apply W2].
  - rewrite R2, attempted_app, length_app. lia.
  - now rewrite K2, K1, attempted_app, map_app, app_assoc.
  - now rewrite H2, H1, survivors_app, map_app, app_assoc.
Qed.

(** One iteration on an invalid date: a warning, and the tool is not asked. *)
Lemma step_invalid (c : Contribution) (w : World) :
  Date_parse (timestamp c) = None ->
  loop_effect dir name email anonymize [c] w
    (with_console (fun out => push out (warning c "Invalid time value")) w).
Proof.
  intros Ht. unfold loop_effect. cbv zeta. cbn [warnings survivors attempted map]. rewrite Ht.
  cbn [map List.length]. rewrite Nat.add_0_r, !app_nil_r.
  repeat split.
  exists [warning c "Invalid time value"]. split; [reflexivity | auto].
Qed.

(** One iteration whose invocation fails: a warning, no commit. *)
Lemma step_failure (c : Contribution) (w : World) (t : Z) (reason : string) :
  Date_parse (timestamp c) = Some t ->
  commit_fault (git w) (commit_runs (git w)) = Some reason ->
  loop_effect dir name email anonymize [c] w
    (with_console (fun out => push out (warning c reason))
       (with_git (fun g => commit_ran (called (raw_call dir name email anonymize c) g)) w)).
Proof.
  intros Ht Ef. unfold loop_effect. cbv zeta. cbn [warnings survivors attempted map].
  rewrite Ht, Ef. cbn [map List.length]. rewrite Nat.add_1_r, app_nil_r.
  repeat split.
  exists [warning c reason]. split; [reflexivity | auto].
Qed.

(** One iteration whose invocation succeeds: a commit, and possibly a
    progress line. *)
Lemma step_success (c : Contribution) (w : World) (t : Z) (f : list string -> list string) :
  commit_fault (git w) (commit_runs (git w)) = None ->
  Date_parse (timestamp c) = Some t ->
  (exists extra, forall out, f out = (out ++ extra)%list) ->
  loop_effect dir name email anonymize [c] w
    (with_console f
       (with_git (fun g => with_history (fun h =>
          <[ dir := push (default [] (h !! dir)) (commit_of name email anonymize c) ]> h)
          (commit_ran (called (raw_call dir name email anonymize c) g))) w)).
Proof.
  intros Ef Ht (extra & Hf). unfold loop_effect. cbv zeta.
  cbn [warnings survivors attempted map]. rewrite Ht, Ef.
  cbn [map List.length]. rewrite Nat.add_1_r.
  repeat split.
  - exists extra. split; [apply Hf | intros x []].
  - cbn [history git with_console with_git with_history]. now rewrite lookup_insert_eq.
Qed.

(** Whatever the dates and the faults, the loop returns, and leaves the
    process as it found it but for the console. *)
Lemma commit_loop_frame (l : list Contribution) :
  forall (n : nat) (w : World),
    exists n' w',
      commit_loop this anonymize name email total l n w = (Ok n', w')
      /\ env w' = env w /\ cwd w' = cwd w /\ files w' = files w /\ arrays w' = arrays w
      /\ installed (git w') = installed (git w).
Proof.
  induction l as [|c rest IH]; intros n w.
  - exists n, w. repeat split.
  - cbn [commit_loop]. unfold bind at 1. unfold try_catch. unfold bind at 1.
    match goal with |- context [RepositoryManager.createCommit this ?o w] =>
      destruct (createCommit_frame this o w) as (r & g & -> & Hi) end.
    destruct r as [[]|reason].
    + unfold bind at 1.
      destruct (S n mod 100 =? 0)%nat; unfold console_log, console_warn, modify, ret;
        match goal with |- context [commit_loop _ _ _ _ _ rest ?m ?w2] =>
          destruct (IH m w2) as (n' & w' & -> & E1 & E2 & E3 & E4 & E5) end;
        exists n', w'; repeat split; simpl in *; congruence.
    + unfold bind at 1. unfold console_warn, modify, ret.
      match goal with |- context [commit_loop _ _ _ _ _ rest ?m ?w2] =>
        destruct (IH m w2) as (n' & w' & -> & E1 & E2 & E3 & E4 & E5) end.
      exists n', w'. repeat split; simpl in *; congruence.
Qed.

(** The loop never throws and accounts for every contribution: one
    invocation for each valid date, in order; a commit for each success, a
    warning for each failure. *)
Lemma commit_loop_run (l : list Contribution) :
  forall (n : nat) (w : World),
    installed (git w) = true -> present dir w ->
    exists w',
      commit_loop this anonymize name email total l n w
      = (Ok (n + List.length (survivors (commit_fault (git w)) (commit_runs (git w)) l))%nat, w')
      /\ loop_effect dir name email anonymize l w w'.
Proof.
  induction l as [|c rest IH]; intros n w Hi Hp.
  - exists w. split; [cbn; now rewrite Nat.add_0_r|].
    unfold loop_effect. cbn. rewrite !app_nil_r, Nat.add_0_r.
    repeat split; try reflexivity. exists []. now rewrite app_nil_r.
  - cbn [commit_loop]. unfold bind at 1. unfold try_catch. unfold bind at 1.
    cbn [survivors].
    destruct (Date_parse (timestamp c)) as [t|] eqn:Ht.
    2:{ rewrite createCommit_invalid_date by reflexivity.
        unfold bind at 1. unfold console_warn, modify, ret.
        match goal with |- context [commit_loop _ _ _ _ _ rest n ?w2] =>
          destruct (IH n w2) as (w' & Erun & Heff); [exact Hi | exact Hp |];
          exists w'; split; [exact Erun|];
          apply (loop_effect_app [c] rest w w2 w'); [|exact Heff] end.
        now apply step_invalid. }
    rewrite (createCommit_run this
               (RepositoryManager.mkCommitOptions (buildCommitMessage c anonymize) name email
                  (Some t)) w t eq_refl Hi Hp). cbv zeta.
    cbn [RepositoryManager.message authorName authorEmail].
    destruct (commit_fault (git w) (commit_runs (git w))) as [reason|] eqn:Ef.
    + unfold bind at 1. unfold console_warn, modify, ret.
      match goal with |- context [commit_loop _ _ _ _ _ rest n ?w2] =>
        destruct (IH n w2) as (w' & Erun & Heff); [exact Hi | exact Hp |];
        exists w'; split; [exact Erun|];
        apply (loop_effect_app [c] rest w w2 w'); [|exact Heff] end.
      now apply (step_failure c w t).
    + unfold bind at 1.
      destruct (S n mod 100 =? 0)%nat; unfold console_log, modify, ret;
        match goal with |- context [commit_loop _ _ _ _ _ rest (S n) ?w2] =>
          destruct (IH (S n) w2) as (w' & Erun & Heff); [exact Hi | exact Hp |];
          exists w'; split;
            [rewrite Erun; cbn [List.length]; f_equal; f_equal; simpl; lia|];
          apply (loop_effect_app [c] rest w w2 w'); [|exact Heff] end.
      * pose proof (step_success c w t
          (fun out => push out ("  Progress: " ++ of_nat (S n) ++ "/" ++ of_nat total
                                  ++ " commits created...")) Ef Ht) as Hs.
        unfold commit_of, raw_call, author_string in Hs. rewrite Ht in Hs.
        apply Hs. eexists. intros out. reflexivity.
      * pose proof (step_success c w t (fun out => out) Ef Ht) as Hs.
        unfold commit_of, raw_call, author_string in Hs. rewrite Ht in Hs.
        assert (Hid : forall w0, with_console (fun out => out) w0 = w0) by (now intros []).
        rewrite Hid in Hs. apply Hs. exists []. intros out. now rewrite app_nil_r.
Qed.

End WithRuntime.
End LoopFacts.

(** ** Sorting by timestamp *)
Module SortFacts.
Import Js GitFormatter FormatSpec.

Lemma insert_sorted_permutation {A} (compare : A -> A -> option Z) (x : A) (l : list A) :
  Permutation (insert_sorted compare x l) (x :: l).
Proof.
  induction l as [|y l IH]; cbn [insert_sorted]; [reflexivity|].
  destruct (sorts_after (compare x y)); [|reflexivity].
  rewrite IH. apply perm_swap.
Qed.

Lemma sort_list_permutation {A} (compare : A -> A -> option Z) (l : list A) :
  Permutation (sort_list compare l) l.
Proof.
  induction l as [|x l IH]; cbn [sort_list fold_right]; [reflexivity|].
  fold (sort_list compare l). rewrite insert_sorted_permutation. now rewrite IH.
Qed.

Section WithRuntime.
Context `{Runtime}.

(** On parseable timestamps the comparator orders by instant. *)
Lemma sorts_after_instant (x y : Contribution) :
  dated x -> dated y -> sorts_after (by_timestamp x y) = (instant y <? instant x)%Z.
Proof.
  unfold dated, by_timestamp, instant. intros [a ->] [b ->]. cbn.
  destruct (Z.ltb_spec 0 (a - b)), (Z.ltb_spec b a); try reflexivity; lia.
Qed.

Lemma insert_sorted_ascending (x : Contribution) (l : list Contribution) :
  dated x -> Forall dated l -> StronglySorted not_later l ->
  StronglySorted not_later (insert_sorted by_timestamp x l).
Proof.
  intros Hx Hl Hs. induction l as [|y l IH]; cbn [insert_sorted].
  - repeat constructor.
  - apply Forall_cons_1 in Hl as [Hy Hl]. apply StronglySorted_inv in Hs as [Hs Hall].
    rewrite (sorts_after_instant x y Hx Hy).
    destruct (Z.ltb_spec (instant y) (instant x)) as [Hlt|Hge].
    + constructor; [now apply IH|].
      rewrite insert_sorted_permutation. constructor; [unfold not_later; lia | exact Hall].
    + constructor; [now constructor|].
      constructor; [exact Hge|].
      eapply Forall_impl; [exact Hall|]. unfold not_later. intros z Hz. lia.
Qed.

Lemma insert_sorted_stable (t : Z) (x : Contribution) (l : list Contribution) :
  dated x -> Forall dated l ->
  filter (fun c => instant c =? t)%Z (insert_sorted by_timestamp x l)
  = filter (fun c => instant c =? t)%Z (x :: l).
Proof.
  intros Hx Hl. induction l as [|y l IH]; cbn [insert_sorted]; [reflexivity|].
  apply Forall_cons_1 in Hl as [Hy Hl].
  rewrite (sorts_after_instant x y Hx Hy).
  destruct (Z.ltb_spec (instant y) (instant x)) as [Hlt|Hge]; [|reflexivity].
  rewrite !filter_cons, (IH Hl), filter_cons.
  destruct (Z.eqb_spec (instant y) t), (Z.eqb_spec (instant x) t);
    repeat case_decide; try reflexivity; try lia; try contradiction.
Qed.

(** The sort delivers the stable ascending arrangement. *)
Lemma sort_list_stable_ascending (batch : list Contribution) :
  Forall dated batch -> stable_ascending batch (sort_list by_timestamp batch).
Proof.
  intros Hb. induction batch as [|x l IH]; [split; [constructor | reflexivity]|].
  apply Forall_cons_1 in Hb as [Hx Hl]. destruct (IH Hl) as [Hs Hf].
  assert (Hd : Forall dated (sort_list by_timestamp l))
    by (now rewrite sort_list_permutation).
  cbn [sort_list fold_right]. fold (sort_list by_timestamp l). split.
  - now apply insert_sorted_ascending.
  - intros t. rewrite (insert_sorted_stable t x _ Hx Hd), !filter_cons, Hf. reflexivity.
Qed.

End WithRuntime.
End SortFacts.

(** ** Failures *)
Module FaultFacts.
Import Js FormatSpec.

Section WithRuntime.
Context `{Runtime}.

Lemma all_succeed (fault : nat -> option string) (rank : nat) (l : list Contribution) :
  (forall j, (j < List.length l)%nat -> outcomes fault rank l !! j = Some None) ->
  survivors fault rank l = l /\ warnings fault rank l = [] /\ attempted l = l.
Proof.
  revert rank. induction l as [|c l IH]; intros rank Hn; [repeat split|].
  pose proof (Hn 0%nat ltac:(simpl; lia)) as H0.
  assert (Hrest : forall j, (j < List.length l)%nat ->
                    (outcomes fault rank (c :: l)) !! S j = Some None)
    by (intros j Hj; apply Hn; simpl; lia).
  cbn [outcomes survivors warnings attempted] in *.
  destruct (Date_parse (timestamp c)); [|discriminate H0].
  injection H0 as ->.
  destruct (IH (S rank) Hrest) as (-> & -> & ->). repeat split.
Qed.

(** Exactly one failing attempt, the one at position [i]: all the other
    contributions survive, and the one warning names the one at [i]. *)
Lemma one_failure (fault : nat -> option string) (rank : nat) (l : list Contribution)
    (i : nat) (reason : string) :
  outcomes fault rank l !! i = Some (Some reason) ->
  (forall j, (j < List.length l)%nat -> j <> i -> outcomes fault rank l !! j = Some None) ->
  exists failed, l !! i = Some failed
                 /\ List.length (survivors fault rank l) = (List.length l - 1)%nat
                 /\ warnings fault rank l = [warning failed reason].
Proof.
  revert rank i. induction l as [|c l IH]; intros rank i Hf Hn; [discriminate Hf|].
  destruct i as [|i].
  - assert (Hrest : forall j, (j < List.length l)%nat ->
                      (outcomes fault rank (c :: l)) !! S j = Some None)
      by (intros j Hj; apply Hn; simpl; lia).
    cbn [outcomes survivors warnings] in *.
    destruct (Date_parse (timestamp c)).
    + injection Hf as ->.
      destruct (all_succeed fault (S rank) l Hrest) as (-> & -> & _).
      exists c. repeat split. simpl. lia.
    + injection Hf as <-.
      destruct (all_succeed fault rank l Hrest) as (-> & -> & _).
      exists c. repeat split. simpl. lia.
  - pose proof (Hn 0%nat ltac:(simpl; lia) ltac:(discriminate)) as H0.
    assert (Hrest : forall j, (j < List.length l)%nat -> j <> i ->
                      (outcomes fault rank (c :: l)) !! S j = Some None)
      by (intros j Hj Hne; apply Hn; simpl; lia).
    cbn [outcomes survivors warnings] in *.
    destruct (Date_parse (timestamp c)); [|discriminate H0].
    injection H0 as ->.
    destruct (IH (S rank) i Hf Hrest) as (failed & Hfailed & Hlen & Hw).
    exists failed. repeat split; [exact Hfailed | | exact Hw].
    cbn [List.length]. rewrite Hlen.
    apply lookup_lt_Some in Hfailed. lia.
Qed.

Lemma attempted_parseable (l : list Contribution) :
  Forall parseable l -> attempted l = l.
Proof.
  induction 1 as [|c l [_ [t Ht]] _ IH]; cbn [attempted]; [reflexivity|].
  now rewrite Ht, IH.
Qed.

End WithRuntime.
End FaultFacts.

(** ** The export *)
Module FormatFacts.
Import Js GitFormatter FormatSpec RepositoryFacts LoopFacts.

Lemma fresh_above {A} (m : gmap nat A) (k : nat) :
  is_Some (m !! k) -> (k <= map_fold (fun k _ acc => Nat.max k acc) 0 m)%nat.
Proof.
  revert k. apply (map_fold_weak_ind (fun r (m : gmap nat A) =>
    forall k, is_Some (m !! k) -> (k <= r)%nat)).
  - intros k [x Hx]. now rewrite lookup_empty in Hx.
  - intros i x m' r Hi IH k Hk. destruct (decide (i = k)) as [->|Hne]; [lia|].
    rewrite lookup_insert_ne in Hk by assumption. specialize (IH k Hk). lia.
Qed.

Lemma control_directory_distinct (dir : string) : join dir ".git" <> dir.
Proof.
  intros E. apply (f_equal String.length) in E.
  unfold join in E. rewrite !StringFacts.length_append in E. simpl in E. lia.
Qed.

Section WithRuntime.
Context `{Runtime}.

Lemma format_run (a : nat) (options : FormatterOptions) (w : World) (cs : list Contribution) :
  installed (git w) = true -> arrays w !! a = Some cs -> cs <> [] ->
  let dir := join (cwd w) outputDirectory in
  let sorted := sort_list by_timestamp cs in
  exists w1 w2 n,
    prepared dir w w1
    /\ commit_loop (RepositoryManager.mk dir) (default false (anonymize options))
         (author_name w) (author_email w) (List.length sorted) sorted 0 w1 = (Ok n, w2)
    /\ format a options w
       = (Ok (mkResult (summary dir (commit_total dir w2)
                          (Z.of_nat (commit_total dir w2) - Z.of_nat (baseline dir w))
                          (List.length cs) (author_name w) (author_email w)
                          (anonymize options))),
          with_git (called (GitLog dir)) w2).
Proof.
  intros Hi Ha Hne. cbv zeta.
  set (dir := join (cwd w) outputDirectory).
  unfold format, bind. rewrite isGitAvailable_run. cbv beta iota. cbn [negb].
  unfold array_read, getenv, gets. cbv beta iota.
  change (arrays (with_git (called GitVersion) w)) with (arrays w). rewrite Ha.
  destruct cs as [|c0 cs0] eqn:Ecs; [congruence|]. rewrite <- Ecs in *. clear Hne.
  replace (List.length (default [] (Some cs)) =? 0)%nat with false by (now rewrite Ecs).
  change (cwd (with_git (called GitVersion) w)) with (cwd w).
  change (env (with_git (called GitVersion) w)) with (env w).
  fold dir. fold (author_name w) (author_email w).
  rewrite constructor_run. cbv beta iota.
  (* the world once the directory and the repository are there *)
  set (w0 := with_git (called GitVersion) w).
  set (wc := if bool_decide (dir ∈ files w0) then w0 else with_files (fun fs => {[dir]} ∪ fs) w0).
  assert (Hwc : env wc = env w /\ cwd wc = cwd w /\ console wc = console w
                /\ arrays wc = arrays w /\ git wc = called GitVersion (git w)
                /\ (present dir wc <-> present dir w)).
  { unfold wc. destruct (bool_decide (dir ∈ files w0)); repeat split; try tauto.
    - unfold present. simpl. intros Hp. apply elem_of_union in Hp as [Hp|Hp]; [|exact Hp].
      apply elem_of_singleton in Hp. now apply control_directory_distinct in Hp.
    - unfold present. simpl. intros Hp. apply elem_of_union. now right. }
  destruct Hwc as (Ewc & Cwc & Owc & Awc & Gwc & Pwc).
  (* the repository: found, or created *)
  assert (Hinit : exists isNew w' w3,
    initializeRepository (RepositoryManager.mk dir) wc = (Ok isNew, w')
    /\ (if isNew : bool then ret 0%nat else getCommitCount (RepositoryManager.mk dir)) w'
       = (Ok (baseline dir w), w3)
    /\ prepared dir w w3 /\ arrays w3 = arrays w).
  { unfold baseline, prepared, prelude.
    destruct (decide (present dir w)) as [Hp|Hp].
    - rewrite (bool_decide_eq_true_2 _ Hp).
      exists false, wc, (with_git (called (GitLog dir)) wc).
      split; [apply initializeRepository_present; now apply Pwc|].
      split; [rewrite getCommitCount_run by (cbn [repositoryPath]; now apply Pwc);
              cbn [repositoryPath]; rewrite Gwc; simpl; rewrite Hi; unfold commit_total;
              now rewrite Gwc|].
      simpl. rewrite Gwc, Awc. simpl. unfold push. rewrite <- app_assoc.
      repeat split; try assumption; auto. now apply Pwc.
    - rewrite (bool_decide_eq_false_2 _ Hp).
      exists true, (initialized dir wc), (initialized dir wc).
      split; [rewrite initializeRepository_absent by (cbn [repositoryPath]; tauto);
              rewrite Gwc; simpl; now rewrite Hi|].
      split; [reflexivity|].
      unfold initialized. simpl. rewrite Gwc, Awc. simpl. unfold push. rewrite <- !app_assoc.
      repeat split; try assumption; auto.
      unfold present. simpl. apply elem_of_union. left. now apply elem_of_singleton. }
  destruct Hinit as (isNew & w' & w3 & -> & Hb & Hprep & Aw3). cbv beta iota.
  rewrite Hb. clear Hb. cbv beta iota.
  (* the copy, sorted in place *)
  unfold spread, Array_sort, bind, array_read, gets, modify, ret. cbv beta iota.
  rewrite Aw3, Ha. change (default [] (Some cs)) with cs.
  set (copy := S (map_fold (fun k _ m => Nat.max k m) 0%nat (arrays w))).
  set (w1 := with_arrays (alter (sort_list by_timestamp) copy)
               (with_arrays (insert copy cs) w3)).
  assert (Hsorted : arrays w1 !! copy = Some (sort_list by_timestamp cs)).
  { unfold w1. simpl. rewrite lookup_alter_eq, lookup_insert_eq. reflexivity. }
  assert (Hkept : forall a' cs', arrays w !! a' = Some cs' -> arrays w1 !! a' = Some cs').
  { intros a' cs' Ha'. unfold w1. simpl.
    assert (copy <> a').
    { intros E. pose proof (fresh_above (arrays w) a' (ex_intro _ cs' Ha')).
      unfold copy in E. lia. }
    rewrite lookup_alter_ne, lookup_insert_ne by assumption. now rewrite Aw3. }
  rewrite Hsorted.
  change (default [] (Some (sort_list by_timestamp cs))) with (sort_list by_timestamp cs).
  destruct (commit_loop_frame (RepositoryManager.mk dir) (default false (anonymize options))
              (author_name w) (author_email w) (List.length (sort_list by_timestamp cs))
              (sort_list by_timestamp cs) 0 w1)
    as (n & w2 & Eloop & E2 & C2 & F2 & A2 & I2).
  exists w1, w2, n.
  destruct Hprep as (P1 & P2 & P3 & P4 & P5 & P6 & P7 & P8 & P9 & P10).
  split; [unfold prepared; repeat split; try assumption|].
  split; [exact Eloop|].
  rewrite Eloop. cbv beta iota.
  rewrite getCommitCount_run by (cbn [repositoryPath]; unfold present; rewrite F2; exact P4).
  cbn [repositoryPath]. cbv beta iota.
  assert (Hlast : installed (git w2) = true).
  { rewrite I2. change (installed (git w1)) with (installed (git w3)). exact P6. }
  rewrite Hlast.
  change (arrays (with_git (called (GitLog dir)) w2)) with (arrays w2).
  rewrite A2, (Hkept a cs Ha). reflexivity.
Qed.

Lemma format_empty (a : nat) (options : FormatterOptions) (w : World) :
  installed (git w) = true -> arrays w !! a = Some [] ->
  format a options w
  = (Ok (mkResult ("No contributions to export. The repository was not created "
                     ++ "because there are no contributions in this range.")),
     with_git (called GitVersion) w).
Proof.
  intros Hi Ha. unfold format, bind. rewrite isGitAvailable_run. cbv beta iota.
  cbn [negb]. unfold array_read, gets. cbv beta iota.
  change (arrays (with_git (called GitVersion) w)) with (arrays w). now rewrite Ha.
Qed.

Lemma summary_by_lines (location : string) (total : nat) (new : Z) (exported : nat)
    (name email : string) (anonymize : option bool) :
  summary location total new exported name email anonymize
  = String.concat nl
      (summary_lines location total new exported name email (default false anonymize)).
Proof. unfold summary, summary_lines, push. destruct anonymize as [[]|]; reflexivity. Qed.

(** A successful export, in full: where the loop starts, what it does, and
    what is reported. *)
Lemma format_effect (a : nat) (options : FormatterOptions) (w : World) (cs : list Contribution) :
  installed (git w) = true -> arrays w !! a = Some cs -> cs <> [] ->
  let dir := join (cwd w) outputDirectory in
  let sorted := sort_list by_timestamp cs in
  let anon := default false (anonymize options) in
  exists w1 w2,
    prepared dir w w1
    /\ loop_effect dir (author_name w) (author_email w) anon sorted w1 w2
    /\ format a options w
       = (Ok (mkResult (summary dir (commit_total dir w2)
                          (Z.of_nat (commit_total dir w2) - Z.of_nat (baseline dir w))
                          (List.length cs) (author_name w) (author_email w)
                          (anonymize options))),
          with_git (called (GitLog dir)) w2).
Proof.
  intros Hi Ha Hne. cbv zeta.
  destruct (format_run a options w cs Hi Ha Hne) as (w1 & w2 & n & Hprep & Eloop & Eformat).
  exists w1, w2. split; [exact Hprep|]. split; [|exact Eformat].
  pose proof Hprep as (_ & _ & _ & Hp & _ & Hi1 & _).
  destruct (commit_loop_run (RepositoryManager.mk (join (cwd w) outputDirectory))
              (default false (anonymize options)) (author_name w) (author_email w)
              (List.length (sort_list by_timestamp cs)) (sort_list by_timestamp cs) 0 w1
              Hi1 Hp) as (w2' & Eloop' & Heff).
  rewrite Eloop in Eloop'. injection Eloop' as _ ->. exact Heff.
Qed.

(** The same, seen from outside: the result and the world it leaves. *)
Lemma format_outcome (a : nat) (options : FormatterOptions) (w : World) (cs : list Contribution) :
  installed (git w) = true -> arrays w !! a = Some cs -> cs <> [] ->
  let dir := join (cwd w) outputDirectory in
  let sorted := sort_list by_timestamp cs in
  let anon := default false (anonymize options) in
  let fault := commit_fault (git w) in
  let rank := commit_runs (git w) in
  exists r w',
    format a options w = (Ok r, w')
    /\ content r
       = String.concat nl
           (summary_lines dir (commit_total dir w')
              (Z.of_nat (commit_total dir w') - Z.of_nat (baseline dir w))
              (List.length cs) (author_name w) (author_email w) anon)
    /\ calls (git w')
       = (calls (git w) ++ prelude dir w
            ++ map (raw_call dir (author_name w) (author_email w) anon) (attempted sorted)
            ++ [GitLog dir])%list
    /\ default [] (history (git w') !! dir)
       = (default [] (history (git w) !! dir)
            ++ map (commit_of (author_name w) (author_email w) anon)
                 (survivors fault rank sorted))%list
    /\ (forall x, In x (warnings fault rank sorted) -> In x (console w'))
    /\ arrays w' !! a = Some cs
    /\ env w' = env w.
Proof.
  intros Hi Ha Hne. cbv zeta.
  destruct (format_effect a options w cs Hi Ha Hne) as (w1 & w2 & Hprep & Heff & Eformat).
  destruct Hprep as (P1 & P2 & P3 & P4 & P5 & P6 & P7 & P8 & P9 & P10).
  destruct Heff as (E1 & E2 & E3 & E4 & (extra & E5 & E5') & E6 & E7 & E8 & E9 & E10 & E11).
  rewrite P7, P8, P9 in *.
  eexists. eexists. split; [exact Eformat|].
  cbn [content]. unfold commit_total.
  cbn [git with_git history called calls arrays env console].
  repeat split.
  - apply summary_by_lines.
  - unfold push. rewrite E10, P10. now rewrite <- !app_assoc.
  - exact E11.
  - intros x Hx. rewrite E5. apply in_or_app. right. now apply E5'.
  - rewrite E4. now apply P5.
  - congruence.
Qed.

End WithRuntime.
End FormatFacts.

Import FormatSpec.

(** C7. When the probe succeeds and the batch is empty, [format] returns the
    informational result and touches nothing: the only trace it leaves is
    the probe itself. No directory is created, no repository initialized,
    no commit attempted. *)
Theorem format_nothing_to_export `{Runtime}
    (a : nat) (options : FormatterOptions) (w : World) :
  installed (git w) = true -> arrays w !! a = Some [] ->
  let r := format a options w in
  fst r = Ok (mkResult ("No contributions to export. The repository was not created "
                          ++ "because there are no contributions in this range."))
  /\ files (snd r) = files w
  /\ calls (git (snd r)) = (calls (git w) ++ [GitVersion])%list
  /\ history (git (snd r)) = history (git w)
  /\ config (git (snd r)) = config (git w)
  /\ commit_runs (git (snd r)) = commit_runs (git w)
  /\ env (snd r) = env w /\ arrays (snd r) = arrays w /\ console (snd r) = console w.
Proof.
  intros Hi Ha. cbv zeta. rewrite (FormatFacts.format_empty a options w Hi Ha).
  repeat split.
Qed.

Lemma format_nothing_to_export_witness :
  let w := Scenario.nested Scenario.tool [] in
  let r := format (H := IsoRuntime.runtime) 0 (mkOptions false None) w in
  fst r = Ok (mkResult ("No contributions to export. The repository was not created "
                          ++ "because there are no contributions in this range."))
  /\ files (snd r) = files w
  /\ calls (git (snd r)) = [GitVersion].
Proof.
  cbv zeta.
  destruct (format_nothing_to_export (H := IsoRuntime.runtime) 0 (mkOptions false None)
              (Scenario.nested Scenario.tool []) eq_refl (lookup_singleton_eq _ _))
    as (Hr & Hf & Hc & _).
  split; [exact Hr | split; [exact Hf | exact Hc]].
Defined.

(** C9, as the code has it. An export of a non-empty batch that completes
    returns the summary made of: the banner, the repository location, the
    total commit count (the count queried after the loop), the new-commit
    count (that total minus the baseline), the number of contributions, the
    author name and email, the line "Anonymization: enabled" exactly when
    anonymization was requested, and the fixed push instructions. *)
Theorem format_summary `{Runtime}
    (a : nat) (options : FormatterOptions) (w : World) (cs : list Contribution) :
  installed (git w) = true -> arrays w !! a = Some cs -> cs <> [] ->
  let dir := join (cwd w) outputDirectory in
  exists r w',
    format a options w = (Ok r, w')
    /\ content r
       = String.concat nl
           (summary_lines dir (commit_total dir w')
              (Z.of_nat (commit_total dir w') - Z.of_nat (baseline dir w))
              (List.length cs) (author_name w) (author_email w)
              (default false (anonymize options)))
    /\ (In "Anonymization: enabled"
          (summary_lines dir (commit_total dir w')
             (Z.of_nat (commit_total dir w') - Z.of_nat (baseline dir w))
             (List.length cs) (author_name w) (author_email w)
             (default false (anonymize options)))
        <-> anonymize options = Some true).
Proof.
  intros Hi Ha Hne. cbv zeta.
  destruct (FormatFacts.format_run a options w cs Hi Ha Hne) as (w1 & w2 & n & _ & _ & E).
  eexists. eexists. split; [exact E|]. split; [apply FormatFacts.summary_by_lines|].
  unfold summary_lines. split.
  - destruct (anonymize options) as [[]|]; [reflexivity | |];
      intros Hin; cbv [List.concat app default from_option id In] in Hin;
      exfalso; intuition discriminate.
  - intros ->. cbv [List.concat app default from_option id In]. tauto.
Qed.

Lemma format_summary_witness :
  let w := Scenario.nested Scenario.tool [Scenario.a_pull_request; Scenario.a_commit] in
  exists r w',
    format (H := IsoRuntime.runtime) 0 (mkOptions false (Some true)) w = (Ok r, w')
    /\ content r
       = String.concat nl
           (summary_lines "/home/dev/git-contributions-export" 2 2 2
              "Git Activity Tracer" "noreply@example.com" true).
Proof.
  cbv zeta.
  destruct (format_summary (H := IsoRuntime.runtime) 0 (mkOptions false (Some true))
              (Scenario.nested Scenario.tool [Scenario.a_pull_request; Scenario.a_commit])
              [Scenario.a_pull_request; Scenario.a_commit]
              eq_refl (lookup_singleton_eq _ _) ltac:(discriminate))
    as (r & w' & E & Hc & _).
  exists r, w'. split; [exact E|].
  rewrite Hc. assert (Hw : w' = snd (format (H := IsoRuntime.runtime) 0
    (mkOptions false (Some true))
    (Scenario.nested Scenario.tool [Scenario.a_pull_request; Scenario.a_commit])))
    by now rewrite E.
  rewrite Hw. vm_compute. reflexivity.
Defined.

(** C9 as stated fails when anonymization is off: the summary then says
    nothing about anonymization at all. *)
Lemma format_summary_silent_counterexample :
  let w := Scenario.nested Scenario.tool [Scenario.a_commit] in
  let r := format (H := IsoRuntime.runtime) 0 (mkOptions false (Some false)) w in
  exists text, fst r = Ok (mkResult text) /\ occurs "nonymiz" text = false.
Proof. cbv zeta. eexists. split; vm_compute; reflexivity. Qed.

(** C4. On a batch whose timestamps are all parseable, [format] works through
    the stable ascending arrangement of the batch: ascending by instant,
    contributions at the same instant in their input order. The commit
    invocations are issued in that order, one per contribution, the commits
    that succeed enter the history in that order, and the caller's array is
    left as it was. *)
Theorem format_commits_in_timestamp_order `{Runtime}
    (a : nat) (options : FormatterOptions) (w : World) (cs : list Contribution) :
  installed (git w) = true -> arrays w !! a = Some cs -> cs <> [] ->
  Forall parseable cs ->
  let dir := join (cwd w) outputDirectory in
  let anon := default false (anonymize options) in
  exists sorted r w',
    format a options w = (Ok r, w')
    /\ stable_ascending cs sorted
    /\ calls (git w')
       = (calls (git w) ++ prelude dir w
            ++ map (raw_call dir (author_name w) (author_email w) anon) sorted
            ++ [GitLog dir])%list
    /\ default [] (history (git w') !! dir)
       = (default [] (history (git w) !! dir)
            ++ map (commit_of (author_name w) (author_email w) anon)
                 (survivors (commit_fault (git w)) (commit_runs (git w)) sorted))%list
    /\ arrays w' !! a = Some cs.
Proof.
  intros Hi Ha Hne Hp. cbv zeta.
  assert (Hdated : Forall dated cs) by (eapply Forall_impl; [exact Hp | now intros c []]).
  destruct (FormatFacts.format_outcome a options w cs Hi Ha Hne)
    as (r & w' & E & _ & Hcalls & Hhist & _ & Harr & _).
  rewrite FaultFacts.attempted_parseable in Hcalls
    by now rewrite SortFacts.sort_list_permutation.
  exists (sort_list by_timestamp cs), r, w'.
  repeat split; try assumption; now apply SortFacts.sort_list_stable_ascending.
Qed.

(** The three dates of the specification's example, given out of order. *)
Lemma format_commits_in_timestamp_order_witness :
  let w := Scenario.nested Scenario.tool
             [Scenario.a_review; Scenario.a_commit; Scenario.a_pull_request] in
  exists r w',
    format (H := IsoRuntime.runtime) 0 (mkOptions false None) w = (Ok r, w')
    /\ map author_date (default [] (history (git w') !! Scenario.export_dir))
       = [ Some "2026-01-01T10:00:00.000Z"; Some "2026-01-02T12:00:00.000Z";
           Some "2026-01-03T09:30:00.000Z" ]
    /\ arrays w' !! 0%nat
       = Some [Scenario.a_review; Scenario.a_commit; Scenario.a_pull_request].
Proof.
  cbv zeta.
  destruct (format_commits_in_timestamp_order (H := IsoRuntime.runtime) 0 (mkOptions false None)
              (Scenario.nested Scenario.tool
                 [Scenario.a_review; Scenario.a_commit; Scenario.a_pull_request])
              [Scenario.a_review; Scenario.a_commit; Scenario.a_pull_request]
              eq_refl (lookup_singleton_eq _ _) ltac:(discriminate))
    as (sorted & r & w' & E & _ & _ & _ & Harr).
  - repeat constructor; eexists; vm_compute; reflexivity.
  - exists r, w'. split; [exact E|]. split; [|exact Harr].
    assert (Hw : w' = snd (format (H := IsoRuntime.runtime) 0 (mkOptions false None)
      (Scenario.nested Scenario.tool
         [Scenario.a_review; Scenario.a_commit; Scenario.a_pull_request])))
      by now rewrite E.
    rewrite Hw. vm_compute. reflexivity.
Defined.

(** C2. In a non-empty batch of N contributions whose timestamps dayjs
    can read (the sort then has one outcome, whatever the engine), let
    exactly one [createCommit] attempt fail, the one for the contribution at
    position [i] of the sorted batch, whether because the tool fails or
    because [Date] finds the date invalid, and let the other N - 1 succeed.
    Then the loop goes through
    the whole batch (every contribution with a valid date has its
    invocation, in order), the history has grown by exactly N - 1 commits,
    a warning with the type and the timestamp of the failed contribution is
    on the console, and [format] returns the summary of a successful
    export. *)
Theorem format_tolerates_one_failure `{Runtime}
    (a : nat) (options : FormatterOptions) (w : World) (cs : list Contribution)
    (i : nat) (reason : string) :
  installed (git w) = true -> arrays w !! a = Some cs -> cs <> [] ->
  Forall dated cs ->
  let dir := join (cwd w) outputDirectory in
  let anon := default false (anonymize options) in
  let sorted := sort_list by_timestamp cs in
  let attempts := outcomes (commit_fault (git w)) (commit_runs (git w)) sorted in
  attempts !! i = Some (Some reason) ->
  (forall j, (j < List.length cs)%nat -> j <> i -> attempts !! j = Some None) ->
  exists failed r w',
    sorted !! i = Some failed
    /\ format a options w = (Ok r, w')
    /\ calls (git w')
       = (calls (git w) ++ prelude dir w
            ++ map (raw_call dir (author_name w) (author_email w) anon) (attempted sorted)
            ++ [GitLog dir])%list
    /\ commit_total dir w' = (commit_total dir w + (List.length cs - 1))%nat
    /\ In ("Warning: Failed to create commit for " ++ type failed ++ " at "
             ++ timestamp failed ++ ": " ++ reason) (console w')
    /\ content r
       = String.concat nl
           (summary_lines dir (commit_total dir w')
              (Z.of_nat (commit_total dir w') - Z.of_nat (baseline dir w))
              (List.length cs) (author_name w) (author_email w) anon).
Proof.
  intros Hi Ha Hne _. cbv zeta. intros Hf Hn.
  assert (Hlen : List.length (sort_list by_timestamp cs) = List.length cs)
    by (apply Permutation_length, SortFacts.sort_list_permutation).
  rewrite <- Hlen in Hn.
  destruct (FaultFacts.one_failure (commit_fault (git w)) (commit_runs (git w))
              (sort_list by_timestamp cs) i reason Hf Hn)
    as (failed & Hfailed & Hsurv & Hwarn).
  destruct (FormatFacts.format_outcome a options w cs Hi Ha Hne)
    as (r & w' & E & Hcontent & Hcalls & Hhist & Hwarned & _ & _).
  exists failed, r, w'. repeat split; try assumption.
  - unfold commit_total. rewrite Hhist, length_app, length_map, Hsurv, Hlen. reflexivity.
  - apply Hwarned. rewrite Hwarn. left. unfold warning.
    now rewrite !StringFacts.append_assoc.
Qed.

(** Three contributions, the second invocation fails: two commits, and a
    warning about the pull request. *)
Lemma format_tolerates_one_failure_witness :
  let w := Scenario.nested Scenario.flaky
             [Scenario.a_review; Scenario.a_commit; Scenario.a_pull_request] in
  exists r w',
    format (H := IsoRuntime.runtime) 0 (mkOptions false None) w = (Ok r, w')
    /\ commit_total Scenario.export_dir w' = 2%nat
    /\ In "Warning: Failed to create commit for pr at 2026-01-02T12:00:00Z: fatal: unable to write"
         (console w').
Proof.
  cbv zeta.
  destruct (format_tolerates_one_failure (H := IsoRuntime.runtime) 0 (mkOptions false None)
              (Scenario.nested Scenario.flaky
                 [Scenario.a_review; Scenario.a_commit; Scenario.a_pull_request])
              [Scenario.a_review; Scenario.a_commit; Scenario.a_pull_request]
              1 "fatal: unable to write"
              eq_refl (lookup_singleton_eq _ _) ltac:(discriminate))
    as (failed & r & w' & Hfailed & E & _ & Htotal & Hwarn & _).
  - repeat constructor; eexists; vm_compute; reflexivity.
  - vm_compute. reflexivity.
  - intros [|[|[|j]]] Hj Hne; try (vm_compute; reflexivity); [congruence | simpl in Hj; lia].
  - exists r, w'. split; [exact E|]. split; [exact Htotal|].
    assert (Ef : failed = Scenario.a_pull_request)
      by (vm_compute in Hfailed; injection Hfailed as <-; reflexivity).
    rewrite Ef in Hwarn. exact Hwarn.
Defined.

(** The same tolerance when the failure is an unreadable timestamp: the
    tool is not asked for that contribution, and the two others are
    committed. *)
Example format_skips_invalid_date :
  let undated := mkContribution "review" "last tuesday" None None None (Some "LGTM") None in
  let w := Scenario.nested Scenario.tool [Scenario.a_pull_request; undated; Scenario.a_commit] in
  let r := format (H := IsoRuntime.runtime) 0 (mkOptions false None) w in
  commit_total Scenario.export_dir (snd r) = 2%nat
  /\ console (snd r)
     = ["Warning: Failed to create commit for review at last tuesday: Invalid time value"].
Proof. vm_compute. split; reflexivity. Qed.

(** * Further properties of the code *)

(** ** Digests *)
Module DigestFacts.
Import Grammar StringFacts AnonymizerFacts Anonymizer DigestSpec.

Lemma sha256_hex_length (input : string) : String.length (Sha256.sha256_hex input) = 64%nat.
Proof.
  unfold Sha256.sha256_hex, Sha256.hex_of_state.
  generalize (Sha256.digest (Sha256.bytes_of_string input)). intros st. reflexivity.
Qed.

Lemma sha256_hex_lowercase (input : string) :
  all_chars is_lowercase_hex (Sha256.sha256_hex input) = true.
Proof.
  unfold Sha256.sha256_hex, Sha256.hex_of_state.
  generalize (Sha256.digest (Sha256.bytes_of_string input)). intros st.
  unfold Sha256.hex32. cbn [all_chars]. rewrite !hex_digit_lowercase. reflexivity.
Qed.

Lemma length_substring_head (s : string) (n : nat) :
  String.length (substring 0 n s) = Nat.min n (String.length s).
Proof.
  revert n. induction s as [|c s IH]; intros [|n]; cbn [substring String.length Nat.min];
    try reflexivity.
  now rewrite IH.
Qed.

Lemma all_chars_substring_head (p : ascii -> bool) (s : string) (n : nat) :
  all_chars p s = true -> all_chars p (substring 0 n s) = true.
Proof.
  revert n. induction s as [|c s IH]; intros [|n]; cbn [substring all_chars];
    try reflexivity.
  intros Hs. apply andb_true_iff in Hs as [-> Hs]. now rewrite IH.
Qed.

Lemma substring_head_twice (s : string) (n m : nat) :
  n <= m -> substring 0 n (substring 0 m s) = substring 0 n s.
Proof.
  revert n m. induction s as [|c s IH]; intros [|n] [|m] Hnm; cbn [substring];
    try reflexivity; try lia.
  f_equal. apply IH. lia.
Qed.

Lemma short_digest_hash (input : string) : short_digest (createConsistentHash input 8).
Proof. apply createConsistentHash_hex. Qed.

End DigestFacts.

Import DigestSpec.

(** X1. [createConsistentHash input n] is the first [n] characters of the
    64-character digest: its length is [n], or 64 when [n] is larger; all its
    characters are lowercase hexadecimal digits; and a shorter hash of an
    input is the beginning of every longer hash of the same input. *)
Theorem createConsistentHash_truncation (input : string) (n : nat) :
  String.length (createConsistentHash input n) = Nat.min n 64
  /\ all_chars is_lowercase_hex (createConsistentHash input n) = true
  /\ (forall m, n <= m ->
        createConsistentHash input n = substring 0 n (createConsistentHash input m)).
Proof.
  unfold createConsistentHash. split; [|split].
  - now rewrite DigestFacts.length_substring_head, DigestFacts.sha256_hex_length.
  - apply DigestFacts.all_chars_substring_head, DigestFacts.sha256_hex_lowercase.
  - intros m Hnm. now rewrite DigestFacts.substring_head_twice.
Qed.

Lemma createConsistentHash_truncation_witness :
  String.length (createConsistentHash "owner/repo" 100) = 64%nat
  /\ createConsistentHash "owner/repo" 4 = substring 0 4 (createConsistentHash "owner/repo" 8).
Proof.
  split.
  - exact (proj1 (createConsistentHash_truncation "owner/repo" 100)).
  - apply (proj2 (proj2 (createConsistentHash_truncation "owner/repo" 4)) 8). lia.
Defined.

(** ** What the anonymizers let through *)
Module ShapeFacts.
Import Regex Grammar StringFacts RegexFacts AnonymizerFacts Anonymizer DigestSpec.

(** A non-empty message, split at the end of what the pattern matches. *)
Lemma anonymizeMessage_split (m : string) :
  m <> "" ->
  exists p rest,
    m = p ++ rest
    /\ (p = "" /\ ~ begins_with_prefix m \/ conventional_prefix p /\ begins_with_prefix m)
    /\ anonymizeMessage (Some m) = p ++ "hash_" ++ createConsistentHash rest 8.
Proof.
  intros Hne. rewrite anonymizeMessage_nonempty by assumption.
  destruct (match_anchored true conventionalPrefixPattern m) as [p|] eqn:E.
  - pose proof (proj2 (prefix_decision m) ltac:(congruence)) as Hb.
    apply match_anchored_sound in E as (kw & sc & ws & rest & Hkw & Hsc & Hws & Ep & Em).
    exists p, rest. split; [exact Em|]. split.
    + right. split; [exists kw, sc, ws; repeat split; assumption | exact Hb].
    + rewrite Em at 1. now rewrite substring_from_append.
  - exists "", m. split; [reflexivity|]. split; [|reflexivity].
    left. split; [reflexivity|]. intros Hb. apply prefix_decision in Hb. congruence.
Qed.

Lemma conventional_prefix_nonempty (p : string) : conventional_prefix p -> p <> "".
Proof.
  intros (kw & sc & ws & Hkw & _ & _ & ->) E.
  apply keyword_nonempty in Hkw. destruct kw; [congruence | discriminate].
Qed.

Lemma anonymizeMessage_not_empty (message : option string) : anonymizeMessage message <> "".
Proof.
  destruct message as [[|c m]|]; try discriminate.
  destruct (anonymizeMessage_split (String c m)) as (p & rest & _ & _ & ->); [discriminate|].
  destruct p; discriminate.
Qed.

(** The rendering of a hash is never taken for a prefix, nor for whitespace. *)
Lemma hash_form_no_prefix (h : string) :
  match_anchored true conventionalPrefixPattern ("hash_" ++ h) = None.
Proof. reflexivity. Qed.

Lemma hash_form_no_leading_space (h : string) : no_leading_space ("hash_" ++ h).
Proof.
  intros t x Ht. unfold space_tokens, white_space in Ht. simpl in Ht.
  change ("hash_" ++ h) with (String "h" ("ash_" ++ h)).
  repeat (destruct Ht as [<-|Ht]; [discriminate|]). destruct Ht.
Qed.

End ShapeFacts.

(** X2. Whatever the message, its anonymized form is a piece [p] of the
    message's beginning, followed by "hash_" and eight lowercase hexadecimal
    characters: [p] is a whole conventional-commit prefix when the message
    begins with one and is empty otherwise, and the digest is that of what
    follows [p] in the message (of the sentinel "empty" for an absent or
    empty message). Nothing else of the input reaches the output. *)
Theorem anonymizeMessage_shape (message : option string) :
  exists p rest,
    default "" message = p ++ rest
    /\ (p = "" /\ ~ begins_with_prefix (default "" message)
        \/ conventional_prefix p /\ begins_with_prefix (default "" message))
    /\ anonymizeMessage message
       = p ++ "hash_" ++ createConsistentHash
                           (match message with None | Some "" => "empty" | Some _ => rest end) 8
    /\ String.length (anonymizeMessage message) = String.length p + 13.
Proof.
  assert (Hnone : ~ begins_with_prefix "")
    by (intros Hb; apply AnonymizerFacts.prefix_decision in Hb; now apply Hb).
  assert (Hlen : forall p input,
            String.length (p ++ "hash_" ++ createConsistentHash input 8) = String.length p + 13).
  { intros p input. rewrite !StringFacts.length_append.
    rewrite (proj1 (AnonymizerFacts.createConsistentHash_hex input)). reflexivity. }
  destruct message as [[|c m]|].
  - exists "", "". repeat split; auto.
  - destruct (ShapeFacts.anonymizeMessage_split (String c m)) as (p & rest & Em & Hp & Ea);
      [discriminate|].
    exists p, rest. split; [exact Em|]. split; [exact Hp|]. split; [exact Ea|].
    rewrite Ea. apply Hlen.
  - exists "", "". repeat split; auto.
Qed.

(** A bare prefix: the remainder is empty, and it is the empty string
    that is hashed, not the sentinel. *)
Lemma anonymizeMessage_shape_witness :
  exists p rest,
    "feat:" = p ++ rest
    /\ (p = "" /\ ~ begins_with_prefix "feat:"
        \/ conventional_prefix p /\ begins_with_prefix "feat:")
    /\ anonymizeMessage (Some "feat:") = p ++ "hash_" ++ createConsistentHash rest 8
    /\ String.length (anonymizeMessage (Some "feat:")) = String.length p + 13.
Proof. exact (anonymizeMessage_shape (Some "feat:")). Defined.

(** X3. Every repository name, absent and empty ones included, is rendered
    as "repo_" followed by eight lowercase hexadecimal characters of the
    digest of the whole name: thirteen characters, none of them taken from
    the name. The absent and the empty name are hashed as the sentinel
    "unknown", and so coincide with a repository that is called "unknown". *)
Theorem anonymizeRepository_shape (repository : option string) :
  exists h,
    anonymizeRepository repository = "repo_" ++ h
    /\ h = createConsistentHash (or_sentinel repository "unknown") 8
    /\ short_digest h
    /\ String.length (anonymizeRepository repository) = 13
    /\ anonymizeRepository (Some (or_sentinel repository "unknown"))
       = anonymizeRepository repository.
Proof.
  exists (createConsistentHash (or_sentinel repository "unknown") 8).
  assert (E : anonymizeRepository repository
              = "repo_" ++ createConsistentHash (or_sentinel repository "unknown") 8)
    by (destruct repository as [[|c r]|]; reflexivity).
  split; [exact E|]. split; [reflexivity|].
  split; [apply DigestFacts.short_digest_hash|]. split.
  - rewrite E, StringFacts.length_append.
    rewrite (proj1 (AnonymizerFacts.createConsistentHash_hex _)). reflexivity.
  - destruct repository as [[|c r]|]; reflexivity.
Qed.

(** X4. [anonymizeText] hands a commit text that is not empty to
    [anonymizeMessage]. In every other case (a pull request or a review,
    or a text that is absent or empty, also for a commit) the result is
    the kind, "_hash_" and eight lowercase hexadecimal characters, with no
    conventional-commit prefix kept, and it differs from what
    [anonymizeMessage] gives for the same text. *)
Theorem anonymizeText_shape (text : option string) (kind : TextKind) :
  (kind = commit -> truthy text = true -> anonymizeText text kind = anonymizeMessage text)
  /\ (kind <> commit \/ truthy text = false ->
      exists h,
        anonymizeText text kind = (kind_name kind ++ "_hash_") ++ h
        /\ h = createConsistentHash (or_sentinel text (kind_name kind ++ "_empty")) 8
        /\ short_digest h
        /\ anonymizeText text kind <> anonymizeMessage text).
Proof.
  split.
  - intros -> Ht. destruct text as [[|c t]|]; try discriminate Ht. reflexivity.
  - intros Hc.
    assert (E : anonymizeText text kind
                = (kind_name kind ++ "_hash_")
                    ++ createConsistentHash (or_sentinel text (kind_name kind ++ "_empty")) 8).
    { destruct text as [[|c t]|]; try reflexivity.
      destruct kind; try reflexivity. destruct Hc as [Hc|Hc]; [congruence | discriminate Hc]. }
    eexists. split; [exact E|]. split; [reflexivity|].
    split; [apply DigestFacts.short_digest_hash|].
    intros Eq. pose proof (MessageFacts.anonymizeMessage_not_kind_form text kind) as Hk.
    rewrite <- Eq, E in Hk. destruct kind; discriminate Hk.
Qed.

Lemma anonymizeText_shape_witness :
  anonymizeText (Some "feat: add login") commit = "feat: hash_a08f988a"
  /\ anonymizeText (Some "feat: add login") pr <> anonymizeMessage (Some "feat: add login").
Proof.
  split.
  - refine (eq_trans (proj1 (anonymizeText_shape (Some "feat: add login") commit)
                        eq_refl eq_refl) _).
    vm_compute. reflexivity.
  - assert (Hk : pr <> commit \/ truthy (Some "feat: add login") = false)
      by (left; discriminate).
    pose proof (proj2 (anonymizeText_shape (Some "feat: add login") pr) Hk) as Hs.
    destruct Hs as (h & _ & _ & _ & Hd). exact Hd.
Defined.

(** X5. Anonymizing an anonymized message keeps its structure: the second
    pass preserves exactly the prefix that the first pass preserved (none,
    if there was none) and hashes the "hash_..." rendering behind it. *)
Theorem anonymizeMessage_twice (message : option string) :
  exists p h,
    anonymizeMessage message = p ++ "hash_" ++ h
    /\ short_digest h
    /\ anonymizeMessage (Some (anonymizeMessage message))
       = p ++ "hash_" ++ createConsistentHash ("hash_" ++ h) 8.
Proof.
  assert (Hplain : forall h, anonymizeMessage (Some ("hash_" ++ h))
                             = "hash_" ++ createConsistentHash ("hash_" ++ h) 8).
  { intros h. rewrite AnonymizerFacts.anonymizeMessage_nonempty by discriminate.
    now rewrite ShapeFacts.hash_form_no_prefix. }
  destruct message as [[|c m]|].
  - exists "", (createConsistentHash "empty" 8).
    split; [reflexivity|]. split; [apply DigestFacts.short_digest_hash | apply Hplain].
  - destruct (ShapeFacts.anonymizeMessage_split (String c m))
      as (p & rest & Em & [[-> _]|[(kw & sc & ws & Hkw & Hsc & Hws & ->) _]] & Ea);
      [discriminate| |].
    + exists "", (createConsistentHash rest 8).
      split; [exact Ea|]. split; [apply DigestFacts.short_digest_hash | rewrite Ea; apply Hplain].
    + exists (kw ++ sc ++ ":" ++ ws), (createConsistentHash rest 8).
      split; [exact Ea|]. split; [apply DigestFacts.short_digest_hash|].
      rewrite Ea.
      replace ((kw ++ sc ++ ":" ++ ws) ++ "hash_" ++ createConsistentHash rest 8)
        with (kw ++ sc ++ ":" ++ ws ++ "hash_" ++ createConsistentHash rest 8)
        by now rewrite !StringFacts.append_assoc.
      apply AnonymizerFacts.anonymizeMessage_prefix; try assumption.
      apply ShapeFacts.hash_form_no_leading_space.
  - exists "", (createConsistentHash "empty" 8).
    split; [reflexivity|]. split; [apply DigestFacts.short_digest_hash | apply Hplain].
Qed.

(** ** The repository manager, operation by operation *)
Module ManagerFacts.
Import Js RepositoryManager RepositorySpec EnvironmentSpec RepositoryFacts.

Lemma restore_env_cons key value rest (e : gmap string string) :
  restore_env ((key, value) :: rest) e
  = restore_env rest (match value with Some v => <[ key := v ]> e | None => delete key e end).
Proof. reflexivity. Qed.

Lemma restore_env_other (original : list (string * option string)) (e : gmap string string)
    (key : string) :
  ~ In key (map fst original) -> restore_env original e !! key = e !! key.
Proof.
  revert e. induction original as [|[k v] rest IH]; intros e Hk; [reflexivity|].
  rewrite restore_env_cons, IH by (intros Hin; apply Hk; now right).
  assert (k <> key) by (intros ->; apply Hk; now left).
  destruct v; [now rewrite lookup_insert_ne | now rewrite lookup_delete_ne].
Qed.

Lemma restore_env_entry (original : list (string * option string)) (e : gmap string string)
    (key : string) (value : option string) :
  NoDup (map fst original) -> In (key, value) original ->
  restore_env original e !! key = value.
Proof.
  revert e. induction original as [|[k v] rest IH]; intros e Hnd Hin; [destruct Hin|].
  apply NoDup_cons in Hnd as [Hk Hnd]. rewrite restore_env_cons.
  destruct Hin as [E|Hin].
  - injection E as -> ->. rewrite restore_env_other.
    + destruct value; [apply lookup_insert_eq | apply lookup_delete_eq].
    + intros Hin. apply Hk. now apply list_elem_of_In.
  - now apply IH.
Qed.

Lemma restore_env_snapshot (keys : list string) (saved e : gmap string string) (key : string) :
  restore_env (snapshot keys saved) e !! key
  = if bool_decide (key ∈ keys) then saved !! key else e !! key.
Proof.
  revert e. induction keys as [|k keys IH]; intros e; [reflexivity|].
  cbn [snapshot map]. rewrite restore_env_cons. fold (snapshot keys saved). rewrite IH.
  destruct (decide (k = key)) as [->|Hne].
  - rewrite (bool_decide_eq_true_2 (key ∈ key :: keys)) by (apply elem_of_cons; now left).
    destruct (bool_decide (key ∈ keys)); [reflexivity|].
    destruct (saved !! key) eqn:E; [now rewrite lookup_insert_eq | now rewrite lookup_delete_eq].
  - assert (Hiff : key ∈ k :: keys <-> key ∈ keys)
      by (rewrite elem_of_cons; split; [intros [?|?]; [congruence | assumption] | now right]).
    rewrite (bool_decide_ext _ _ Hiff).
    destruct (bool_decide (key ∈ keys)); [reflexivity|].
    destruct (saved !! k); [now rewrite lookup_insert_ne | now rewrite lookup_delete_ne].
Qed.

#[local] Arguments restoreEnvironmentVariables : simpl never.
#[local] Arguments restore_env : simpl never.

(** [createCommit] in every situation of the tool. *)
Lemma createCommit_cases `{Runtime} this options w t :
  date options = Some t ->
  createCommit this options w =
  let author := authorName options ++ " <" ++ authorEmail options ++ ">" in
  let call := GitRaw (repositoryPath this)
                ["commit"; "--allow-empty"; "--message"; message options; "--author"; author] in
  if installed (git w) then
    match discover (String.length (repositoryPath this)) (repositoryPath this) (files w) with
    | Some root =>
        match commit_fault (git w) (commit_runs (git w)) with
        | Some reason => (Throw reason, with_git (fun g => commit_ran (called call g)) w)
        | None =>
            (Ok tt,
             with_git (fun g => with_history (fun h =>
               <[ root := push (default [] (h !! root)) (recorded options t) ]> h)
               (commit_ran (called call g))) w)
        end
    | None => (Throw "fatal: not a git repository",
               with_git (fun g => commit_ran (called call g)) w)
    end
  else (Throw "spawn git ENOENT", with_git (called call) w).
Proof.
  intros Hd. cbv zeta.
  unfold createCommit, bind, toISOString. rewrite Hd.
  unfold getenv, gets, try_finally, setenv, modify.
  rewrite git_raw_commit_run. simpl.
  destruct (set_lookups (env w) (Date_toISOString t) (authorName options)
              (authorEmail options)) as (-> & -> & -> & ->).
  destruct (installed (git w)) eqn:Hi;
    [destruct (discover (String.length (repositoryPath this)) (repositoryPath this) (files w));
       [destruct (commit_fault (git w) (commit_runs (git w)))|]|];
    rewrite restoreEnvironmentVariables_run; simpl;
    rewrite !with_env_with_git, !with_env_with_env,
      (with_env_id _ _ (restore_after_set (env w) _ _ _)), ?with_git_with_git; reflexivity.
Qed.

(** The parent of a path is shorter than the path, so the search for the
    repository never runs out of fuel: more fuel finds the same. *)
Lemma split_last_shorter (p d base : string) :
  split_last p = Some (d, base) -> (String.length d < String.length p)%nat.
Proof.
  revert d base. induction p as [|c p IH]; intros d base E; [discriminate|].
  cbn [split_last] in E. destruct (split_last p) as [[d' base']|].
  - injection E as <- <-. specialize (IH d' base' eq_refl). simpl. lia.
  - destruct (Ascii.eqb c "/"); [|discriminate]. injection E as <- <-. simpl. lia.
Qed.

Lemma discover_enough (fs : gset string) (fuel fuel' : nat) :
  forall dir, (String.length dir <= fuel)%nat -> (String.length dir <= fuel')%nat ->
              discover fuel dir fs = discover fuel' dir fs.
Proof.
  assert (Hroot : forall k, discover k "" fs = discover 0 "" fs)
    by (intros [|k]; reflexivity).
  revert fuel'. induction fuel as [|fuel IH]; intros fuel' dir Hlen Hlen'.
  - destruct dir; [|simpl in Hlen; lia]. now rewrite (Hroot fuel').
  - destruct fuel' as [|fuel'].
    + destruct dir; [|simpl in Hlen'; lia]. now rewrite (Hroot (S fuel)).
    + cbn [discover]. destruct (bool_decide _); [reflexivity|].
      unfold dirname. destruct (split_last dir) as [[d base]|] eqn:Es; [|reflexivity].
      cbn [option_map fst]. pose proof (split_last_shorter _ _ _ Es) as Hd.
      apply IH; lia.
Qed.

Lemma discover_fuel (fs : gset string) (fuel : nat) (dir : string) :
  (String.length dir <= fuel)%nat ->
  discover fuel dir fs = discover (String.length dir) dir fs.
Proof. intros Hlen. now apply discover_enough. Qed.

End ManagerFacts.

Import EnvironmentSpec FrameSpec.

(** X6. The constructor makes sure the directory exists: afterwards the
    path is there and no path has disappeared; the environment, the
    console, the arrays and the tool are untouched; if the directory was
    already there the world is unchanged, so constructing twice is
    constructing once. When the parent of the path exists (or the path has
    no directory part), the directory itself is the only path that can have
    appeared. The instance reports the path it was given. *)
Theorem constructor_ensures_directory (dir : string) (w : World) :
  let w' := snd (constructor dir w) in
  fst (constructor dir w) = Ok (RepositoryManager.mk dir)
  /\ getRepositoryPath (RepositoryManager.mk dir) = dir
  /\ dir ∈ files w'
  /\ files w ⊆ files w'
  /\ ((forall parent, dirname dir = Some parent -> parent = "" \/ parent ∈ files w) ->
      forall p, p <> dir -> p ∈ files w' <-> p ∈ files w)
  /\ env w' = env w /\ cwd w' = cwd w /\ arrays w' = arrays w /\ console w' = console w
  /\ git w' = git w
  /\ (dir ∈ files w -> w' = w)
  /\ constructor dir w' = (Ok (RepositoryManager.mk dir), w').
Proof.
  cbv zeta. rewrite RepositoryFacts.constructor_run. cbn [fst snd].
  destruct (bool_decide (dir ∈ files w)) eqn:E.
  - apply bool_decide_eq_true_1 in E as Hin.
    split; [reflexivity|]. split; [reflexivity|]. split; [exact Hin|].
    split; [intros p Hp; exact Hp|]. split; [tauto|]. repeat split.
    now rewrite RepositoryFacts.constructor_run, E.
  - split; [reflexivity|]. split; [reflexivity|]. split; [|split; [|split]].
    + simpl. apply elem_of_union. left. now apply elem_of_singleton.
    + intros p Hp. simpl. apply elem_of_union. now right.
    + intros _ p Hne. simpl. rewrite elem_of_union, elem_of_singleton. tauto.
    + repeat split.
      * intros Hin. apply bool_decide_eq_false_1 in E. contradiction.
      * rewrite RepositoryFacts.constructor_run.
        rewrite bool_decide_eq_true_2; [reflexivity|].
        simpl. apply elem_of_union. left. now apply elem_of_singleton.
Qed.

(** The export directory is made in /home/dev, which exists: nothing else
    appears. Constructing on /home/dev itself changes nothing. *)
Lemma constructor_ensures_directory_witness :
  let w := Scenario.nested Scenario.tool [] in
  Scenario.export_dir ∈ files (snd (constructor Scenario.export_dir w))
  /\ ("/home/dev/other" ∈ files (snd (constructor Scenario.export_dir w))
      <-> "/home/dev/other" ∈ files w)
  /\ snd (constructor "/home/dev" w) = w.
Proof.
  cbv zeta.
  destruct (constructor_ensures_directory Scenario.export_dir
              (Scenario.nested Scenario.tool []))
    as (_ & _ & Hin & _ & Honly & _).
  split; [exact Hin|]. split.
  - apply Honly; [|discriminate].
    intros parent Hparent. right. vm_compute in Hparent. injection Hparent as <-.
    apply (bool_decide_eq_true_1 ("/home/dev" ∈ files (Scenario.nested Scenario.tool []))).
    vm_compute. reflexivity.
  - apply (constructor_ensures_directory "/home/dev" (Scenario.nested Scenario.tool [])).
    apply (bool_decide_eq_true_1 ("/home/dev" ∈ files (Scenario.nested Scenario.tool []))).
    vm_compute. reflexivity.
Defined.

(** X7. [restoreEnvironmentVariables] never throws. Given saved entries
    with distinct names, it leaves every saved variable with its saved
    value, a variable saved as undefined being deleted, and touches no
    variable that is not among the entries, nor anything but the
    environment. *)
Theorem restoreEnvironmentVariables_assigns (original : list (string * option string))
    (w : World) :
  NoDup (map fst original) ->
  let w' := snd (restoreEnvironmentVariables original w) in
  fst (restoreEnvironmentVariables original w) = Ok tt
  /\ (forall key value, In (key, value) original -> env w' !! key = value)
  /\ (forall key, ~ In key (map fst original) -> env w' !! key = env w !! key)
  /\ cwd w' = cwd w /\ files w' = files w /\ arrays w' = arrays w
  /\ console w' = console w /\ git w' = git w.
Proof.
  intros Hnd. cbv zeta. rewrite RepositoryFacts.restoreEnvironmentVariables_run.
  cbn [fst snd]. repeat split.
  - intros key value Hin. now apply ManagerFacts.restore_env_entry.
  - intros key Hk. now apply ManagerFacts.restore_env_other.
Qed.

Lemma restoreEnvironmentVariables_assigns_witness :
  let w := Scenario.nested Scenario.tool [] in
  let w' := snd (restoreEnvironmentVariables
                   [("GIT_COMMITTER_NAME", None); ("GIT_AUTHOR_DATE", Some "2026-01-01")] w) in
  env w' !! "GIT_COMMITTER_NAME" = None /\ env w' !! "GIT_AUTHOR_DATE" = Some "2026-01-01".
Proof.
  cbv zeta.
  assert (Hnd : NoDup (map fst [("GIT_COMMITTER_NAME", @None string);
                                ("GIT_AUTHOR_DATE", Some "2026-01-01")]))
    by (repeat constructor; simpl; intros Hin; apply list_elem_of_In in Hin;
        simpl in Hin; intuition discriminate).
  destruct (restoreEnvironmentVariables_assigns _ (Scenario.nested Scenario.tool []) Hnd)
    as (_ & Hset & _).
  split; apply Hset; simpl; tauto.
Defined.

(** X8. Saving variables and restoring them is a round trip: take the
    values of any list of variables in one environment, let those variables
    (and only those) be set, changed or deleted at will, and restore the
    saved entries; the environment is then exactly the one the values were
    taken from. *)
Theorem restoreEnvironmentVariables_round_trip (keys : list string) (w0 w : World) :
  (forall key, ~ In key keys -> env w !! key = env w0 !! key) ->
  env (snd (restoreEnvironmentVariables (snapshot keys (env w0)) w)) = env w0.
Proof.
  intros Hother. rewrite RepositoryFacts.restoreEnvironmentVariables_run. cbn [snd].
  apply map_eq. intros key. simpl. rewrite ManagerFacts.restore_env_snapshot.
  destruct (bool_decide (key ∈ keys)) eqn:E; [reflexivity|].
  apply bool_decide_eq_false_1 in E. apply Hother. intros Hin. apply E.
  now apply list_elem_of_In.
Qed.

Lemma restoreEnvironmentVariables_round_trip_witness :
  let w0 := Scenario.nested Scenario.tool [] in
  let w := with_env (fun e => delete "GIT_COMMITTER_NAME" (<[ "GIT_AUTHOR_DATE" := "x" ]> e)) w0 in
  env (snd (restoreEnvironmentVariables
              (snapshot ["GIT_AUTHOR_DATE"; "GIT_COMMITTER_NAME"] (env w0)) w)) = env w0.
Proof.
  cbv zeta. apply restoreEnvironmentVariables_round_trip.
  intros key Hk. simpl.
  rewrite lookup_delete_ne by (intros <-; apply Hk; simpl; tauto).
  rewrite lookup_insert_ne by (intros <-; apply Hk; simpl; tauto).
  reflexivity.
Defined.

(** X9. What a call of [createCommit] amounts to, in every case. If it
    returns, the date was valid and git ran without fault; if it throws, no
    history has changed; with an invalid date it throws "Invalid time value"
    before anything at all has happened. The files, the console and the
    configuration are never touched. When the path holds a repository, a
    call that returns has added exactly one commit to the history of that
    repository and left every other history alone; the commit carries the
    message, the author "name <email>", the same name and email as
    committer, and the ISO rendering of the date both as author date and as
    committer date. When the path is a plain absolute path without a
    repository of its own, the commit goes in the same way to the nearest
    enclosing repository, and the call throws if there is none. *)
Theorem createCommit_outcome `{Runtime}
    (this : RepositoryManager.t) (options : CommitOptions) (w : World) :
  let dir := repositoryPath this in
  let r := fst (createCommit this options w) in
  let w' := snd (createCommit this options w) in
  let added root :=
    default [] (history (git w') !! root)
    = (default [] (history (git w) !! root)
         ++ match date options with Some t => [recorded options t] | None => [] end)%list
    /\ forall d, d <> root -> history (git w') !! d = history (git w) !! d in
  (r = Ok tt ->
   is_Some (date options) /\ installed (git w) = true
   /\ commit_fault (git w) (commit_runs (git w)) = None)
  /\ (forall e, r = Throw e -> history (git w') = history (git w))
  /\ (date options = None -> r = Throw "Invalid time value" /\ w' = w)
  /\ files w' = files w /\ console w' = console w /\ config (git w') = config (git w)
  /\ (present dir w -> r = Ok tt -> added dir)
  /\ (plain dir = true ->
      (forall root, enclosing dir w = Some root -> r = Ok tt -> added root)
      /\ (enclosing dir w = None -> exists e, r = Throw e)).
Proof.
  cbv zeta. unfold enclosing.
  destruct (date options) as [t|] eqn:Hd.
  2:{ rewrite RepositoryFacts.createCommit_invalid_date by assumption. cbn [fst snd].
      repeat split; try reflexivity; try discriminate; eauto. }
  rewrite (ManagerFacts.createCommit_cases this options w t Hd). cbv zeta.
  assert (Hown : present (repositoryPath this) w ->
                 discover (String.length (repositoryPath this)) (repositoryPath this) (files w)
                 = Some (repositoryPath this))
    by (intros Hp; now apply RepositoryFacts.discover_present).
  destruct (installed (git w)) eqn:Hi;
    [destruct (discover (String.length (repositoryPath this)) (repositoryPath this) (files w))
       as [root|] eqn:Hr;
       [destruct (commit_fault (git w) (commit_runs (git w))) as [reason|] eqn:Hf|]|];
    cbn [fst snd];
    (split; [|split; [|split; [|split; [|split; [|split; [|split; [|intros _; split]]]]]]]);
    try discriminate; try reflexivity; eauto.
  - intros Hp _. specialize (Hown Hp). injection Hown as ->. split.
    + simpl. now rewrite lookup_insert_eq.
    + intros d Hne. simpl. now rewrite lookup_insert_ne by congruence.
  - intros root' E _. injection E as <-. split.
    + simpl. now rewrite lookup_insert_eq.
    + intros d Hne. simpl. now rewrite lookup_insert_ne by congruence.
Qed.

(** A commit made in the export directory before it has a repository of
    its own goes to the repository around it, at /home/dev. *)
Lemma createCommit_outcome_witness :
  let w := Scenario.nested Scenario.tool [] in
  let options := mkCommitOptions "[commit]: x" "Dev" "dev@example.com" (Some 1767261600000%Z) in
  let w' := snd (createCommit (H := IsoRuntime.runtime)
                   (RepositoryManager.mk Scenario.export_dir) options w) in
  enclosing Scenario.export_dir w = Some "/home/dev"
  /\ default [] (history (git w') !! "/home/dev")
     = [recorded (H := IsoRuntime.runtime) options 1767261600000%Z]
  /\ forall d, d <> "/home/dev" -> history (git w') !! d = history (git w) !! d.
Proof.
  cbv zeta.
  destruct (createCommit_outcome (H := IsoRuntime.runtime)
              (RepositoryManager.mk Scenario.export_dir)
              (mkCommitOptions "[commit]: x" "Dev" "dev@example.com" (Some 1767261600000%Z))
              (Scenario.nested Scenario.tool []))
    as (_ & _ & _ & _ & _ & _ & _ & Hplain).
  destruct (Hplain eq_refl) as (Hfound & _).
  assert (Hroot : enclosing Scenario.export_dir (Scenario.nested Scenario.tool [])
                  = Some "/home/dev") by (vm_compute; reflexivity).
  destruct (Hfound "/home/dev" Hroot) as (Hadded & Hother); [vm_compute; reflexivity|].
  split; [exact Hroot|]. split; [|exact Hother].
  refine (eq_trans Hadded _). reflexivity.
Defined.

Example createCommit_in_own_repository :
  let w := initialized Scenario.export_dir (Scenario.nested Scenario.tool []) in
  let w' := snd (createCommit (H := IsoRuntime.runtime)
                   (RepositoryManager.mk Scenario.export_dir)
                   (mkCommitOptions "[commit]: x" "Dev" "dev@example.com"
                      (Some 1767261600000%Z)) w) in
  enclosing Scenario.export_dir w = Some Scenario.export_dir
  /\ commit_total "/home/dev" w' = 0 /\ commit_total Scenario.export_dir w' = 1.
Proof. vm_compute. repeat split. Qed.

(** X10. [getCommitCount] never throws and changes nothing (the tool is
    only asked). It returns 0 when git cannot run. When git runs and the
    path holds a repository, it returns the number of commits of that
    repository. When git runs and the path is a plain absolute path without
    a repository of its own, it returns the number of commits of the
    nearest enclosing repository, and 0 if there is none: a missing git, a
    directory outside every repository and an empty history all read as
    0, and a directory inside another repository reads as that
    repository. *)
Theorem getCommitCount_absorbs_failure (this : RepositoryManager.t) (w : World) :
  let dir := repositoryPath this in
  let w' := snd (getCommitCount this w) in
  exists n,
    fst (getCommitCount this w) = Ok n
    /\ (installed (git w) = false -> n = 0)
    /\ (installed (git w) = true -> present dir w -> n = commit_total dir w)
    /\ (plain dir = true -> installed (git w) = true ->
        (forall root, enclosing dir w = Some root -> n = commit_total root w)
        /\ (enclosing dir w = None -> n = 0))
    /\ history (git w') = history (git w) /\ config (git w') = config (git w)
    /\ files w' = files w /\ env w' = env w /\ console w' = console w
    /\ calls (git w') = (calls (git w) ++ [GitLog dir])%list.
Proof.
  cbv zeta. unfold enclosing. rewrite RepositoryFacts.getCommitCount_found. cbn [fst snd].
  eexists. split; [reflexivity|].
  split; [now intros ->|].
  split; [intros Hi Hp; now rewrite Hi, (RepositoryFacts.discover_present _ _ _ Hp)|].
  split; [|repeat split].
  intros _ Hi. rewrite Hi. split.
  - intros root Hr. now rewrite Hr.
  - intros Hr. now rewrite Hr.
Qed.

(** Asked in the export directory before it has a repository of its own,
    the count is that of the repository around it; without git it is 0. *)
Lemma getCommitCount_absorbs_failure_witness :
  fst (getCommitCount (RepositoryManager.mk Scenario.export_dir)
         (Scenario.nested Situation.busy [])) = Ok 2
  /\ fst (getCommitCount (RepositoryManager.mk "/home/dev")
            (Scenario.nested Situation.missing [])) = Ok 0.
Proof.
  split.
  - destruct (getCommitCount_absorbs_failure (RepositoryManager.mk Scenario.export_dir)
                (Scenario.nested Situation.busy [])) as (n & -> & _ & _ & Hplain & _).
    f_equal. apply (proj1 (Hplain eq_refl eq_refl) "/home/dev"). vm_compute. reflexivity.
  - destruct (getCommitCount_absorbs_failure (RepositoryManager.mk "/home/dev")
                (Scenario.nested Situation.missing [])) as (n & -> & Hzero & _).
    f_equal. apply Hzero. reflexivity.
Defined.

(** X12. When the repository is absent and git cannot run,
    [initializeRepository] lets the failure through to its caller, and
    leaves no half-made repository behind: the control directory is still
    absent, no file has appeared, the configuration has not been written,
    and the initialization is the only invocation that was attempted. *)
Theorem initializeRepository_failure_propagates (this : RepositoryManager.t) (w : World) :
  ~ present (repositoryPath this) w -> installed (git w) = false ->
  let w' := snd (initializeRepository this w) in
  (exists reason, fst (initializeRepository this w) = Throw reason)
  /\ ~ present (repositoryPath this) w'
  /\ files w' = files w /\ config (git w') = config (git w)
  /\ history (git w') = history (git w)
  /\ calls (git w') = (calls (git w) ++ [GitInit (repositoryPath this)])%list.
Proof.
  intros Hp Hi. cbv zeta.
  rewrite RepositoryFacts.initializeRepository_absent by assumption. rewrite Hi.
  cbn [fst snd]. repeat split; eauto.
Qed.

Lemma initializeRepository_failure_propagates_witness :
  let w := Scenario.nested Situation.missing [] in
  let w' := snd (initializeRepository (RepositoryManager.mk Scenario.export_dir) w) in
  ~ present Scenario.export_dir w' /\ config (git w') = config (git w).
Proof.
  cbv zeta.
  assert (Ha : ~ present Scenario.export_dir (Scenario.nested Situation.missing []))
    by (apply (bool_decide_eq_false_1 (present Scenario.export_dir _)); vm_compute;
        reflexivity).
  destruct (initializeRepository_failure_propagates
              (RepositoryManager.mk Scenario.export_dir)
              (Scenario.nested Situation.missing []) Ha eq_refl)
    as (_ & Hp & _ & Hc & _).
  split; [exact Hp | exact Hc].
Defined.

(** ** Anonymized fields *)
Module FieldFacts.
Import Js GitFormatter FieldSpec.

Lemma truthy_nonempty (v : string) : v <> "" -> truthy (Some v) = true.
Proof. destruct v; [congruence | reflexivity]. Qed.

Lemma truthy_anonymizeMessage (v : option string) : truthy (Some (anonymizeMessage v)) = true.
Proof. apply truthy_nonempty, ShapeFacts.anonymizeMessage_not_empty. Qed.

Lemma truthy_anonymizeRepository (v : option string) :
  truthy (Some (anonymizeRepository v)) = true.
Proof. destruct v as [[|c r]|]; reflexivity. Qed.

End FieldFacts.

Import FieldSpec.

(** X13. Anonymization acts on the commit message field by field: the
    message built with anonymization on is the message built with
    anonymization off from the contribution whose repository name and text
    have been replaced by their anonymized forms. The type, the target
    branch and the project id therefore appear in clear in both. *)
Theorem buildCommitMessage_anonymizes_fieldwise (c : Contribution) :
  buildCommitMessage c true = buildCommitMessage (anonymized c) false
  /\ type (anonymized c) = type c /\ target (anonymized c) = target c
  /\ projectId (anonymized c) = projectId c
  /\ (truthy (repository c) = true ->
      repository (anonymized c) = Some (anonymizeRepository (repository c)))
  /\ (truthy (text c) = true -> text (anonymized c) = Some (anonymizeMessage (text c))).
Proof.
  split; [|unfold anonymized; cbn; repeat split; intros ->; reflexivity].
  unfold buildCommitMessage, anonymized.
  cbn [type timestamp repository projectId target text url].
  destruct (truthy (repository c)) eqn:Er, (truthy (text c)) eqn:Et;
    rewrite ?FieldFacts.truthy_anonymizeRepository, ?FieldFacts.truthy_anonymizeMessage,
      ?Er, ?Et; reflexivity.
Qed.

Lemma buildCommitMessage_anonymizes_fieldwise_witness :
  repository (anonymized Scenario.a_pull_request) = Some "repo_65e817ee"
  /\ buildCommitMessage Scenario.a_pull_request true
     = buildCommitMessage (anonymized Scenario.a_pull_request) false.
Proof.
  split.
  - refine (eq_trans (proj1 (proj2 (proj2 (proj2 (proj2
      (buildCommitMessage_anonymizes_fieldwise Scenario.a_pull_request))))) eq_refl) _).
    vm_compute. reflexivity.
  - exact (proj1 (buildCommitMessage_anonymizes_fieldwise Scenario.a_pull_request)).
Defined.

(** ** The export loop, iteration by iteration *)
Module ExportFacts.
Import Js GitFormatter FormatSpec ExportSpec RepositoryFacts.

Section WithRuntime.
Context `{Runtime}.

Variables (this : RepositoryManager.t) (anonymize : bool) (name email : string) (total : nat).

#[local] Abbreviation dir := (repositoryPath this).

Lemma commit_loop_cons (c : Contribution) (rest : list Contribution) (n : nat) (w : World) :
  commit_loop this anonymize name email total (c :: rest) n w
  = match createCommit this
            (mkCommitOptions (buildCommitMessage c anonymize) name email
               (Date_parse (timestamp c))) w with
    | (Ok _, w1) =>
        commit_loop this anonymize name email total rest (S n)
          (if (S n mod 100 =? 0)%nat
           then with_console (fun out => push out (progress_line (S n) total)) w1
           else w1)
    | (Throw reason, w1) =>
        commit_loop this anonymize name email total rest n
          (with_console (fun out => push out (warning c reason)) w1)
    end.
Proof.
  cbn [commit_loop]. unfold bind at 1. unfold try_catch. unfold bind at 1.
  destruct (createCommit this _ w) as [[[]|reason] w1].
  - unfold bind at 1. destruct (S n mod 100 =? 0)%nat; reflexivity.
  - reflexivity.
Qed.

(** The console after the loop, line for line. *)
Lemma commit_loop_console (l : list Contribution) :
  forall (n : nat) (w : World),
    installed (git w) = true -> present dir w ->
    console (snd (commit_loop this anonymize name email total l n w))
    = (console w ++ printed (commit_fault (git w)) (commit_runs (git w)) n total l)%list.
Proof.
  induction l as [|c rest IH]; intros n w Hi Hp.
  - cbn. now rewrite app_nil_r.
  - rewrite commit_loop_cons. cbn [printed].
    destruct (Date_parse (timestamp c)) as [t|] eqn:Ht.
    2:{ rewrite createCommit_invalid_date by reflexivity.
        rewrite IH by assumption. cbn [console with_console git]. unfold push.
        now rewrite <- app_assoc. }
    rewrite (createCommit_run this
               (mkCommitOptions (buildCommitMessage c anonymize) name email (Some t))
               w t eq_refl Hi Hp). cbv zeta.
    destruct (commit_fault (git w) (commit_runs (git w))) as [reason|] eqn:Ef.
    + rewrite IH by assumption.
      cbn [console with_console with_git git commit_fault commit_runs commit_ran called].
      unfold push. now rewrite <- app_assoc.
    + destruct (S n mod 100 =? 0)%nat; rewrite IH by assumption;
        cbn [console with_console with_git git commit_fault commit_runs commit_ran called
               with_history];
        unfold push; now rewrite <- ?app_assoc.
Qed.

End WithRuntime.

(** Counting outcomes. *)
Section Counting.
Context `{Runtime}.

Lemma outcomes_length fault rank (l : list Contribution) :
  List.length (outcomes fault rank l) = List.length l.
Proof.
  revert rank. induction l as [|c l IH]; intros rank; cbn [outcomes]; [reflexivity|].
  destruct (Date_parse (timestamp c)); cbn [List.length]; now rewrite IH.
Qed.

Lemma failures_bound (outs : list (option string)) : failures outs <= List.length outs.
Proof. induction outs as [|[e|] outs IH]; simpl; lia. Qed.

Lemma survivors_count fault rank (l : list Contribution) :
  List.length (survivors fault rank l) = successes (outcomes fault rank l).
Proof.
  unfold successes. revert rank. induction l as [|c l IH]; intros rank; [reflexivity|].
  cbn [survivors outcomes].
  destruct (Date_parse (timestamp c)).
  - pose proof (failures_bound (outcomes fault (S rank) l)).
    destruct (fault rank); cbn [List.length failures]; rewrite IH; lia.
  - pose proof (failures_bound (outcomes fault rank l)).
    cbn [List.length failures]. rewrite IH. lia.
Qed.

Lemma warnings_count fault rank (l : list Contribution) :
  List.length (warnings fault rank l) = failures (outcomes fault rank l).
Proof.
  revert rank. induction l as [|c l IH]; intros rank; [reflexivity|].
  cbn [warnings outcomes].
  destruct (Date_parse (timestamp c)); [destruct (fault rank)|];
    cbn [List.length failures]; now rewrite IH.
Qed.

Lemma survivors_valid fault rank (l : list Contribution) :
  Forall valid (survivors fault rank l).
Proof.
  revert rank. induction l as [|c l IH]; intros rank; cbn [survivors]; [constructor|].
  destruct (Date_parse (timestamp c)) eqn:Ht; [|apply IH].
  destruct (fault rank); [apply IH|].
  constructor; [unfold valid; rewrite Ht; eauto | apply IH].
Qed.

Lemma survivors_all fault rank (l : list Contribution) :
  (forall k, fault k = None) -> Forall valid l ->
  survivors fault rank l = l /\ attempted l = l
  /\ failures (outcomes fault rank l) = 0.
Proof.
  intros Hf Hv. revert rank. induction Hv as [|c l [t Ht] _ IH]; intros rank; [repeat split|].
  cbn [survivors attempted outcomes]. rewrite Ht, Hf. cbn [failures].
  destruct (IH (S rank)) as (-> & -> & ->). repeat split.
Qed.

End Counting.
End ExportFacts.

(** ** The export, from start to end *)
Module OutcomeFacts.
Import Js GitFormatter FormatSpec ExportSpec RepositoryFacts ExportFacts.

Section WithRuntime.
Context `{Runtime}.

(** The three stages of a successful export, with the worlds between them. *)
Lemma format_stages (a : nat) (options : FormatterOptions) (w : World) (cs : list Contribution) :
  installed (git w) = true -> arrays w !! a = Some cs -> cs <> [] ->
  let dir := join (cwd w) outputDirectory in
  let sorted := sort_list by_timestamp cs in
  let anon := default false (anonymize options) in
  exists w1 n,
    let loop := commit_loop (RepositoryManager.mk dir) anon (author_name w) (author_email w)
                  (List.length sorted) sorted 0 w1 in
    prepared dir w w1
    /\ loop = (Ok n, snd loop)
    /\ loop_effect dir (author_name w) (author_email w) anon sorted w1 (snd loop)
    /\ format a options w
       = (Ok (mkResult (summary dir (commit_total dir (snd loop))
                          (Z.of_nat (commit_total dir (snd loop)) - Z.of_nat (baseline dir w))
                          (List.length cs) (author_name w) (author_email w)
                          (anonymize options))),
          with_git (called (GitLog dir)) (snd loop)).
Proof.
  intros Hi Ha Hne. cbv zeta.
  destruct (FormatFacts.format_run a options w cs Hi Ha Hne)
    as (w1 & w2 & n & Hprep & Eloop & Eformat).
  exists w1, n. rewrite Eloop. cbn [snd].
  split; [exact Hprep|]. split; [reflexivity|]. split; [|exact Eformat].
  pose proof Hprep as (_ & _ & _ & Hp & _ & Hi1 & _).
  destruct (LoopFacts.commit_loop_run (RepositoryManager.mk (join (cwd w) outputDirectory))
              (default false (anonymize options)) (author_name w) (author_email w)
              (List.length (sort_list by_timestamp cs)) (sort_list by_timestamp cs) 0 w1
              Hi1 Hp) as (w2' & Eloop' & Heff).
  rewrite Eloop in Eloop'. injection Eloop' as _ ->. exact Heff.
Qed.

(** The console at the end of a successful export. *)
Lemma format_console (a : nat) (options : FormatterOptions) (w : World)
    (cs : list Contribution) :
  installed (git w) = true -> arrays w !! a = Some cs -> cs <> [] ->
  console (snd (format a options w))
  = (console w ++ printed (commit_fault (git w)) (commit_runs (git w)) 0 (List.length cs)
                    (sort_list by_timestamp cs))%list.
Proof.
  intros Hi Ha Hne.
  destruct (format_stages a options w cs Hi Ha Hne) as (w1 & n & Hprep & _ & _ & ->).
  destruct Hprep as (_ & _ & P3 & P4 & _ & P6 & P7 & P8 & _).
  cbn [snd]. change (console (with_git ?f ?x)) with (console x).
  rewrite commit_loop_console by assumption.
  rewrite P3, P7, P8.
  now rewrite (Permutation_length (SortFacts.sort_list_permutation by_timestamp cs)).
Qed.

(** The world a successful export leaves is ready for the next one. *)
Lemma format_again (a : nat) (options : FormatterOptions) (w : World) (cs : list Contribution) :
  installed (git w) = true -> arrays w !! a = Some cs -> cs <> [] ->
  let dir := join (cwd w) outputDirectory in
  let w' := snd (format a options w) in
  installed (git w') = true /\ arrays w' !! a = Some cs /\ cwd w' = cwd w /\ env w' = env w
  /\ present dir w' /\ commit_fault (git w') = commit_fault (git w).
Proof.
  intros Hi Ha Hne. cbv zeta.
  destruct (format_stages a options w cs Hi Ha Hne) as (w1 & n & Hprep & _ & Heff & ->).
  destruct Hprep as (P1 & P2 & P3 & P4 & P5 & P6 & P7 & P8 & P9 & P10).
  destruct Heff as (E1 & E2 & E3 & E4 & _ & E6 & E7 & _).
  cbn [snd]. repeat split.
  - change (installed (git (with_git ?f ?x))) with (installed (git x)). congruence.
  - change (arrays (with_git ?f ?x)) with (arrays x). rewrite E4. now apply P5.
  - change (cwd (with_git ?f ?x)) with (cwd x). congruence.
  - change (env (with_git ?f ?x)) with (env x). congruence.
  - unfold present. change (files (with_git ?f ?x)) with (files x). rewrite E3. exact P4.
  - change (commit_fault (git (with_git ?f ?x))) with (commit_fault (git x)). congruence.
Qed.

End WithRuntime.

(** One more commit moves the hundreds exactly at a multiple of 100. *)
Lemma div_step (n : nat) :
  (S n / 100 = n / 100 + (if (S n mod 100 =? 0)%nat then 1 else 0))%nat.
Proof.
  pose proof (Nat.div_mod_eq n 100). pose proof (Nat.div_mod_eq (S n) 100).
  pose proof (Nat.mod_upper_bound n 100 ltac:(lia)).
  pose proof (Nat.mod_upper_bound (S n) 100 ltac:(lia)).
  destruct (Nat.eqb_spec (S n mod 100) 0); lia.
Qed.

Section Printing.
Context `{Runtime}.

Lemma printed_length fault rank n total (l : list Contribution) :
  List.length (printed fault rank n total l)
  = (failures (outcomes fault rank l)
     + ((n + successes (outcomes fault rank l)) / 100 - n / 100))%nat.
Proof.
  unfold successes. revert rank n. induction l as [|c l IH]; intros rank n.
  - cbn. rewrite Nat.add_0_r. lia.
  - cbn [printed outcomes]. destruct (Date_parse (timestamp c)).
    + pose proof (failures_bound (outcomes fault (S rank) l)) as Hb.
      destruct (fault rank); cbn [List.length failures].
      * rewrite IH. replace (S (List.length (outcomes fault (S rank) l))
                               - S (failures (outcomes fault (S rank) l)))%nat
          with (List.length (outcomes fault (S rank) l)
                - failures (outcomes fault (S rank) l))%nat by lia. lia.
      * rewrite length_app, IH.
        set (s := (List.length (outcomes fault (S rank) l)
                   - failures (outcomes fault (S rank) l))%nat).
        replace (n + (S (List.length (outcomes fault (S rank) l))
                      - failures (outcomes fault (S rank) l)))%nat
          with (S n + s)%nat by (unfold s; lia).
        pose proof (div_step n) as Hstep.
        pose proof (Nat.Div0.div_le_mono (S n) (S n + s) 100 ltac:(lia)) as Hmono.
        destruct (S n mod 100 =? 0)%nat; cbn [List.length]; lia.
    + pose proof (failures_bound (outcomes fault rank l)) as Hb.
      cbn [List.length failures]. rewrite IH.
      replace (S (List.length (outcomes fault rank l)) - S (failures (outcomes fault rank l)))%nat
        with (List.length (outcomes fault rank l) - failures (outcomes fault rank l))%nat
        by lia. lia.
Qed.

Lemma printed_all fault rank n total (l : list Contribution) :
  (forall k, fault k = None) -> Forall valid l ->
  printed fault rank n total l
  = flat_map (fun count => if (count mod 100 =? 0)%nat then [progress_line count total] else [])
      (seq (S n) (List.length l)).
Proof.
  intros Hf Hv. revert rank n. induction Hv as [|c l [t Ht] _ IH]; intros rank n; [reflexivity|].
  cbn [printed List.length seq flat_map]. rewrite Ht, Hf. now rewrite IH.
Qed.

Lemma quiet_below_hundred (total : nat) : (total < 100)%nat -> progress_lines total = [].
Proof.
  intros Hlt. unfold progress_lines.
  assert (Hall : forall l, Forall (fun count => 0 < count < 100)%nat l ->
            flat_map (fun count => if (count mod 100 =? 0)%nat
                                   then [progress_line count total] else []) l = []).
  { induction 1 as [|count l Hc _ IH]; [reflexivity|]. cbn [flat_map]. rewrite IH.
    rewrite Nat.mod_small by lia. destruct count; [lia | reflexivity]. }
  apply Hall. apply Forall_forall. intros count Hc. apply elem_of_seq in Hc. lia.
Qed.

End Printing.
End OutcomeFacts.

Import ExportSpec.

(** X14. Every commit that an export adds is attributed to one identity:
    its author is "name <email>", its committer has the same name and
    email (whatever GIT_COMMITTER_NAME and GIT_COMMITTER_EMAIL say in the
    environment of the process), and its committer date is its author
    date, which is set. The name is GIT_AUTHOR_NAME when that variable is
    set and not empty, and "Git Activity Tracer" otherwise; the email is
    GIT_AUTHOR_EMAIL or "noreply@example.com" in the same way. *)
Theorem format_commit_identity `{Runtime}
    (a : nat) (options : FormatterOptions) (w : World) (cs : list Contribution) :
  installed (git w) = true -> arrays w !! a = Some cs -> cs <> [] ->
  let dir := join (cwd w) outputDirectory in
  let w' := snd (format a options w) in
  (exists added,
     default [] (history (git w') !! dir)
     = (default [] (history (git w) !! dir) ++ added)%list
     /\ Forall (attributed (author_name w) (author_email w)) added)
  /\ (truthy (env w !! "GIT_AUTHOR_NAME") = false -> author_name w = "Git Activity Tracer")
  /\ (truthy (env w !! "GIT_AUTHOR_NAME") = true
      -> env w !! "GIT_AUTHOR_NAME" = Some (author_name w))
  /\ (truthy (env w !! "GIT_AUTHOR_EMAIL") = false -> author_email w = "noreply@example.com")
  /\ (truthy (env w !! "GIT_AUTHOR_EMAIL") = true
      -> env w !! "GIT_AUTHOR_EMAIL" = Some (author_email w)).
Proof.
  intros Hi Ha Hne. cbv zeta.
  destruct (FormatFacts.format_outcome a options w cs Hi Ha Hne)
    as (r & w' & E & _ & _ & Hhist & _).
  rewrite E. cbn [snd]. split; [|unfold author_name, author_email, or_else; repeat split].
  - eexists. split; [exact Hhist|]. apply Forall_map.
    eapply Forall_impl; [apply ExportFacts.survivors_valid|].
    intros c [t Ht]. unfold attributed, commit_of, author_string. cbn. rewrite Ht.
    repeat split. cbn. eauto.
  - now intros ->.
  - intros Ht. rewrite Ht. now destruct (env w !! "GIT_AUTHOR_NAME") as [[|]|].
  - now intros ->.
  - intros Ht. rewrite Ht. now destruct (env w !! "GIT_AUTHOR_EMAIL") as [[|]|].
Qed.

(** The process has GIT_COMMITTER_NAME set to "Someone Else"; the commits
    are committed by the default identity all the same. *)
Lemma format_commit_identity_witness :
  let w := Scenario.nested Scenario.tool [Scenario.a_pull_request; Scenario.a_commit] in
  let w' := snd (format (H := IsoRuntime.runtime) 0 (mkOptions false None) w) in
  env w !! "GIT_COMMITTER_NAME" = Some "Someone Else"
  /\ author_name w = "Git Activity Tracer"
  /\ exists added,
       default [] (history (git w') !! Scenario.export_dir)
       = (default [] (history (git w) !! Scenario.export_dir) ++ added)%list
       /\ Forall (attributed (author_name w) (author_email w)) added.
Proof.
  cbv zeta.
  destruct (format_commit_identity (H := IsoRuntime.runtime) 0 (mkOptions false None)
              (Scenario.nested Scenario.tool [Scenario.a_pull_request; Scenario.a_commit])
              [Scenario.a_pull_request; Scenario.a_commit]
              eq_refl (lookup_singleton_eq _ _) ltac:(discriminate))
    as (Hadded & Hname & _).
  split; [vm_compute; reflexivity|].
  split; [apply Hname; vm_compute; reflexivity | exact Hadded].
Defined.

(** X15. Exporting the same batch twice to the same place, with a git
    that does not fail and dates that are all valid: the first export adds
    one commit per contribution, the second finds the repository (it does
    not initialize it again), adds one commit per contribution once more
    on top of the first ones, and reports the doubled total with N new
    commits. *)
Theorem format_twice `{Runtime}
    (a : nat) (options : FormatterOptions) (w : World) (cs : list Contribution) :
  installed (git w) = true -> arrays w !! a = Some cs -> cs <> [] ->
  (forall k, commit_fault (git w) k = None) -> Forall valid cs ->
  let dir := join (cwd w) outputDirectory in
  let anon := default false (anonymize options) in
  let N := List.length cs in
  let w1 := snd (format a options w) in
  let w2 := snd (format a options w1) in
  commit_total dir w1 = (commit_total dir w + N)%nat
  /\ commit_total dir w2 = (commit_total dir w + 2 * N)%nat
  /\ (exists r2,
        fst (format a options w1) = Ok r2
        /\ content r2
           = String.concat nl
               (summary_lines dir (commit_total dir w + 2 * N) (Z.of_nat N) N
                  (author_name w) (author_email w) anon))
  /\ calls (git w2)
     = (calls (git w1) ++ [GitVersion; GitLog dir]
          ++ map (raw_call dir (author_name w) (author_email w) anon)
               (sort_list by_timestamp cs)
          ++ [GitLog dir])%list.
Proof.
  intros Hi Ha Hne Hf Hv. cbv zeta.
  assert (Hsv : Forall valid (sort_list by_timestamp cs))
    by (now rewrite SortFacts.sort_list_permutation).
  assert (Hlen : List.length (sort_list by_timestamp cs) = List.length cs)
    by (apply Permutation_length, SortFacts.sort_list_permutation).
  destruct (OutcomeFacts.format_again a options w cs Hi Ha Hne)
    as (Hi1 & Ha1 & Hc1 & He1 & Hp1 & Hf1).
  destruct (FormatFacts.format_outcome a options w cs Hi Ha Hne)
    as (r1 & w1 & E1 & _ & _ & Hh1 & _).
  rewrite E1 in *. cbn [snd] in *.
  destruct (FormatFacts.format_outcome a options w1 cs Hi1 Ha1 Hne)
    as (r2 & w2 & E2 & Hcontent & Hcalls & Hh2 & _).
  rewrite E2. cbn [fst snd].
  assert (Hn1 : author_name w1 = author_name w) by (unfold author_name; now rewrite He1).
  assert (Hm1 : author_email w1 = author_email w) by (unfold author_email; now rewrite He1).
  rewrite Hc1, Hn1, Hm1, Hf1 in *.
  destruct (ExportFacts.survivors_all (commit_fault (git w)) (commit_runs (git w))
              (sort_list by_timestamp cs) Hf Hsv) as (Hs1 & Hat & _).
  destruct (ExportFacts.survivors_all (commit_fault (git w)) (commit_runs (git w1))
              (sort_list by_timestamp cs) Hf Hsv) as (Hs2 & _ & _).
  rewrite Hs1 in Hh1. rewrite Hs2 in Hh2. rewrite Hat in Hcalls.
  assert (T1 : commit_total (join (cwd w) outputDirectory) w1
               = (commit_total (join (cwd w) outputDirectory) w + List.length cs)%nat)
    by (unfold commit_total; now rewrite Hh1, length_app, length_map, Hlen).
  assert (T2 : commit_total (join (cwd w) outputDirectory) w2
               = (commit_total (join (cwd w) outputDirectory) w + 2 * List.length cs)%nat)
    by (unfold commit_total in *; rewrite Hh2, length_app, length_map, Hlen, T1; lia).
  split; [exact T1|]. split; [exact T2|]. split.
  - exists r2. split; [reflexivity|]. rewrite Hcontent. f_equal. f_equal; [exact T2|].
    unfold baseline. rewrite (bool_decide_eq_true_2 _ Hp1), T2, T1. lia.
  - rewrite Hcalls. unfold prelude. now rewrite (bool_decide_eq_true_2 _ Hp1).
Qed.

Lemma format_twice_witness :
  let w := Scenario.nested Scenario.tool [Scenario.a_pull_request; Scenario.a_commit] in
  let w1 := snd (format (H := IsoRuntime.runtime) 0 (mkOptions false None) w) in
  let w2 := snd (format (H := IsoRuntime.runtime) 0 (mkOptions false None) w1) in
  commit_total Scenario.export_dir w1 = 2 /\ commit_total Scenario.export_dir w2 = 4.
Proof.
  cbv zeta.
  destruct (format_twice (H := IsoRuntime.runtime) 0 (mkOptions false None)
              (Scenario.nested Scenario.tool [Scenario.a_pull_request; Scenario.a_commit])
              [Scenario.a_pull_request; Scenario.a_commit]
              eq_refl (lookup_singleton_eq _ _) ltac:(discriminate) (fun _ => eq_refl))
    as (T1 & T2 & _).
  - repeat constructor; eexists; vm_compute; reflexivity.
  - split; [exact T1 | exact T2].
Defined.

(** X16. Progress is reported once per hundred commits. In an export
    whose commits all succeed, the console receives exactly one line
    "  Progress: k/N commits created..." for each multiple k of 100 up to
    the size N of the batch, in order, and nothing else: N / 100 lines
    altogether, and none at all for fewer than 100 contributions. *)
Theorem format_reports_progress `{Runtime}
    (a : nat) (options : FormatterOptions) (w : World) (cs : list Contribution) :
  installed (git w) = true -> arrays w !! a = Some cs -> cs <> [] ->
  (forall k, commit_fault (git w) k = None) -> Forall valid cs ->
  let N := List.length cs in
  let w' := snd (format a options w) in
  console w' = (console w ++ progress_lines N)%list
  /\ List.length (progress_lines N) = (N / 100)%nat
  /\ ((N < 100)%nat -> console w' = console w).
Proof.
  intros Hi Ha Hne Hf Hv. cbv zeta.
  assert (Hsv : Forall valid (sort_list by_timestamp cs))
    by (now rewrite SortFacts.sort_list_permutation).
  assert (Hlen : List.length (sort_list by_timestamp cs) = List.length cs)
    by (apply Permutation_length, SortFacts.sort_list_permutation).
  pose proof (OutcomeFacts.printed_all (commit_fault (git w)) (commit_runs (git w)) 0
                (List.length cs) (sort_list by_timestamp cs) Hf Hsv) as Hall.
  rewrite Hlen in Hall. fold (progress_lines (List.length cs)) in Hall.
  rewrite (OutcomeFacts.format_console a options w cs Hi Ha Hne), Hall.
  split; [reflexivity|]. split.
  - rewrite <- Hall, OutcomeFacts.printed_length.
    destruct (ExportFacts.survivors_all (commit_fault (git w)) (commit_runs (git w))
                (sort_list by_timestamp cs) Hf Hsv) as (_ & _ & Hzero).
    unfold successes. rewrite Hzero, ExportFacts.outcomes_length, Hlen.
    cbn [Nat.add]. rewrite (Nat.div_small 0 100) by lia. now rewrite !Nat.sub_0_r.
  - intros Hlt. now rewrite OutcomeFacts.quiet_below_hundred, app_nil_r.
Qed.

(** Two contributions: silence. A hundred: one line. *)
Lemma format_reports_progress_witness :
  let w := Scenario.nested Scenario.tool [Scenario.a_pull_request; Scenario.a_commit] in
  let hundred := Scenario.nested Scenario.tool (repeat Scenario.a_commit 100) in
  console (snd (format (H := IsoRuntime.runtime) 0 (mkOptions false None) w)) = console w
  /\ console (snd (format (H := IsoRuntime.runtime) 0 (mkOptions false None) hundred))
     = ["  Progress: 100/100 commits created..."].
Proof.
  cbv zeta. split.
  - destruct (format_reports_progress (H := IsoRuntime.runtime) 0 (mkOptions false None)
                (Scenario.nested Scenario.tool [Scenario.a_pull_request; Scenario.a_commit])
                [Scenario.a_pull_request; Scenario.a_commit]
                eq_refl (lookup_singleton_eq _ _) ltac:(discriminate) (fun _ => eq_refl))
      as (_ & _ & Hquiet).
    + repeat constructor; eexists; vm_compute; reflexivity.
    + apply Hquiet. simpl. lia.
  - destruct (format_reports_progress (H := IsoRuntime.runtime) 0 (mkOptions false None)
                (Scenario.nested Scenario.tool (repeat Scenario.a_commit 100))
                (repeat Scenario.a_commit 100)
                eq_refl (lookup_singleton_eq _ _) ltac:(discriminate) (fun _ => eq_refl))
      as (Hconsole & _).
    + apply Forall_forall. intros c Hc. apply list_elem_of_In, repeat_spec in Hc. subst c.
      eexists. vm_compute. reflexivity.
    + refine (eq_trans Hconsole _). vm_compute. reflexivity.
Defined.

(** X17. An export accounts for every contribution, however many of the
    commits fail: each contribution either succeeds or fails; the history
    of the repository grows by exactly the number of successes; and the
    console grows by exactly one warning per failure plus one progress
    line per full hundred of successes. *)
Theorem format_accounts_for_all `{Runtime}
    (a : nat) (options : FormatterOptions) (w : World) (cs : list Contribution) :
  installed (git w) = true -> arrays w !! a = Some cs -> cs <> [] ->
  let dir := join (cwd w) outputDirectory in
  let outs := outcomes (commit_fault (git w)) (commit_runs (git w))
                (sort_list by_timestamp cs) in
  let w' := snd (format a options w) in
  (successes outs + failures outs = List.length cs)%nat
  /\ commit_total dir w' = (commit_total dir w + successes outs)%nat
  /\ List.length (console w')
     = (List.length (console w) + failures outs + successes outs / 100)%nat.
Proof.
  intros Hi Ha Hne. cbv zeta.
  assert (Hlen : List.length (sort_list by_timestamp cs) = List.length cs)
    by (apply Permutation_length, SortFacts.sort_list_permutation).
  split; [|split].
  - unfold successes. rewrite ExportFacts.outcomes_length, Hlen.
    pose proof (ExportFacts.failures_bound
                  (outcomes (commit_fault (git w)) (commit_runs (git w))
                     (sort_list by_timestamp cs))) as Hb.
    rewrite ExportFacts.outcomes_length, Hlen in Hb. lia.
  - destruct (FormatFacts.format_outcome a options w cs Hi Ha Hne)
      as (r & w' & E & _ & _ & Hhist & _).
    rewrite E. cbn [snd]. unfold commit_total.
    now rewrite Hhist, length_app, length_map, ExportFacts.survivors_count.
  - rewrite (OutcomeFacts.format_console a options w cs Hi Ha Hne), length_app,
      OutcomeFacts.printed_length.
    cbn [Nat.add]. rewrite (Nat.div_small 0 100) by lia. lia.
Qed.

(** Three contributions and a git whose second invocation fails. *)
Lemma format_accounts_for_all_witness :
  let w := Scenario.nested Scenario.flaky
             [Scenario.a_review; Scenario.a_commit; Scenario.a_pull_request] in
  let w' := snd (format (H := IsoRuntime.runtime) 0 (mkOptions false None) w) in
  commit_total Scenario.export_dir w' = 2 /\ List.length (console w') = 1.
Proof.
  cbv zeta.
  destruct (format_accounts_for_all (H := IsoRuntime.runtime) 0 (mkOptions false None)
              (Scenario.nested Scenario.flaky
                 [Scenario.a_review; Scenario.a_commit; Scenario.a_pull_request])
              [Scenario.a_review; Scenario.a_commit; Scenario.a_pull_request]
              eq_refl (lookup_singleton_eq _ _) ltac:(discriminate))
    as (_ & Htotal & Hconsole).
  split.
  - refine (eq_trans Htotal _). vm_compute. reflexivity.
  - refine (eq_trans Hconsole _). vm_compute. reflexivity.
Defined.

(** ** What an export leaves in place *)
Module GrowthFacts.
Import Js GitFormatter FormatSpec FrameSpec RepositoryFacts.

Lemma grows_refl dir w : grows dir w w.
Proof.
  unfold grows. repeat split; try reflexivity; try tauto.
  intros p Hp. apply elem_of_union. now left.
Qed.

Lemma grows_trans dir w1 w2 w3 : grows dir w1 w2 -> grows dir w2 w3 -> grows dir w1 w3.
Proof.
  intros (E1 & C1 & A1 & F1 & F1' & O1 & H1 & P1 & K1) (E2 & C2 & A2 & F2 & F2' & O2 & H2 & P2 & K2).
  unfold grows. repeat split; try congruence.
  - intros b cs Hb. now apply A2, A1.
  - intros p Hp. now apply F2, F1.
  - intros p Hp. apply F2' in Hp. rewrite elem_of_union in Hp. destruct Hp as [Hp|Hp].
    + now apply F1'.
    + apply elem_of_union. now right.
  - intros d Hd. now rewrite O2, O1.
  - now transitivity (default [] (history (git w2) !! dir)).
  - now transitivity (console w2).
  - now transitivity (calls (git w2)).
Qed.

Lemma grows_present dir w w' : grows dir w w' -> present dir w -> present dir w'.
Proof. intros (_ & _ & _ & F & _) Hp. now apply F. Qed.

(** The steps that only record or print. *)
Lemma grows_called dir c w : grows dir w (with_git (called c) w).
Proof.
  unfold grows. simpl. repeat split; try reflexivity; try tauto.
  - intros p Hp. apply elem_of_union. now left.
  - now exists [c].
Qed.

Lemma grows_printed dir line w : grows dir w (with_console (fun out => push out line) w).
Proof.
  unfold grows. simpl. repeat split; try reflexivity; try tauto.
  - intros p Hp. apply elem_of_union. now left.
  - now exists [line].
Qed.

Lemma grows_constructor dir w :
  grows dir w (snd (constructor dir w)) /\ dir ∈ files (snd (constructor dir w)).
Proof.
  rewrite constructor_run. cbn [snd].
  destruct (bool_decide (dir ∈ files w)) eqn:E.
  - split; [apply grows_refl | now apply bool_decide_eq_true_1 in E].
  - split; [|simpl; apply elem_of_union; left; now apply elem_of_singleton].
    unfold grows. simpl. repeat split; try reflexivity; try tauto.
    + intros p Hp. apply elem_of_union. now right.
    + intros p. rewrite !elem_of_union, !elem_of_singleton. tauto.
Qed.

(** The initialization: the repository is there afterwards, or git could
    not be started and nothing has been made. *)
Lemma grows_initializeRepository dir w :
  let r := initializeRepository (RepositoryManager.mk dir) w in
  grows dir w (snd r)
  /\ ((exists isNew, fst r = Ok isNew /\ present dir (snd r))
      \/ (fst r = Throw "spawn git ENOENT" /\ installed (git w) = false
          /\ ~ present dir w /\ files (snd r) = files w)).
Proof.
  cbv zeta. destruct (decide (present dir w)) as [Hp|Hp].
  - rewrite (initializeRepository_present (RepositoryManager.mk dir) w Hp). cbn [fst snd].
    split; [apply grows_refl | left; eauto].
  - rewrite (initializeRepository_absent (RepositoryManager.mk dir) w Hp).
    cbn [repositoryPath]. destruct (installed (git w)) eqn:Hi; cbn [fst snd].
    + split; [|left; exists true; split; [reflexivity | apply initialized_present]].
      unfold grows, initialized. simpl. repeat split; try reflexivity; try tauto.
      * intros p Hin. apply elem_of_union. now right.
      * intros p. rewrite !elem_of_union, !elem_of_singleton. tauto.
      * unfold push. rewrite <- app_assoc. now eexists.
    + split; [apply grows_called | right; repeat split; assumption].
Qed.

(** The copy and its sort touch no array of the caller. *)
Lemma grows_copy dir (items : list Contribution)
    (f : list Contribution -> list Contribution) w :
  let copy := S (map_fold (fun k _ m => Nat.max k m) 0%nat (arrays w)) in
  grows dir w (with_arrays (alter f copy) (with_arrays (insert copy items) w)).
Proof.
  cbv zeta. unfold grows. simpl. repeat split; try reflexivity; try tauto.
  - intros b cs Hb.
    assert (S (map_fold (fun k _ m => Nat.max k m) 0%nat (arrays w)) <> b).
    { intros E. pose proof (FormatFacts.fresh_above (arrays w) b (ex_intro _ cs Hb)). lia. }
    now rewrite lookup_alter_ne, lookup_insert_ne by assumption.
  - intros p Hp. apply elem_of_union. now left.
Qed.

Section WithRuntime.
Context `{Runtime}.

(** One commit in a directory that holds a repository. *)
Lemma grows_createCommit (this : RepositoryManager.t) (options : CommitOptions) (w : World) :
  present (repositoryPath this) w ->
  grows (repositoryPath this) w (snd (createCommit this options w)).
Proof.
  intros Hp. destruct (date options) as [t|] eqn:Hd.
  2:{ rewrite createCommit_invalid_date by assumption. apply grows_refl. }
  rewrite (ManagerFacts.createCommit_cases this options w t Hd). cbv zeta.
  rewrite (discover_present _ _ _ Hp).
  destruct (installed (git w));
    [destruct (commit_fault (git w) (commit_runs (git w)))|]; cbn [snd];
    unfold grows; simpl; repeat split; try reflexivity; try tauto;
    try (intros p Hin; apply elem_of_union; now left);
    try (now eexists).
  - intros d Hne. now rewrite lookup_insert_ne by congruence.
  - rewrite lookup_insert_eq. now eexists.
Qed.

(** The loop, in a directory that holds a repository: it returns, and has
    only added. *)
Lemma grows_commit_loop (this : RepositoryManager.t) (anonymize : bool)
    (name email : string) (total : nat) (l : list Contribution) :
  forall (n : nat) (w : World),
    present (repositoryPath this) w ->
    (exists n', fst (commit_loop this anonymize name email total l n w) = Ok n')
    /\ grows (repositoryPath this) w (snd (commit_loop this anonymize name email total l n w)).
Proof.
  induction l as [|c rest IH]; intros n w Hp.
  - split; [now exists n | apply grows_refl].
  - rewrite ExportFacts.commit_loop_cons.
    pose proof (grows_createCommit this
                  (mkCommitOptions (buildCommitMessage c anonymize) name email
                     (Date_parse (timestamp c))) w Hp) as Hstep.
    destruct (createCommit this _ w) as [[[]|reason] w1]; cbn [snd] in Hstep.
    + assert (Hnext : grows (repositoryPath this) w
                        (if (S n mod 100 =? 0)%nat
                         then with_console
                                (fun out => push out (ExportSpec.progress_line (S n) total)) w1
                         else w1)).
      { destruct (S n mod 100 =? 0)%nat; [|exact Hstep].
        eapply grows_trans; [exact Hstep | apply grows_printed]. }
      destruct (IH (S n) _ (grows_present _ _ _ Hnext Hp)) as (Hok & Hrest).
      split; [exact Hok | eapply grows_trans; [exact Hnext | exact Hrest]].
    + assert (Hnext : grows (repositoryPath this) w
                        (with_console (fun out => push out (warning c reason)) w1))
        by (eapply grows_trans; [exact Hstep | apply grows_printed]).
      destruct (IH n _ (grows_present _ _ _ Hnext Hp)) as (Hok & Hrest).
      split; [exact Hok | eapply grows_trans; [exact Hnext | exact Hrest]].
Qed.

(** The course of an export, whatever the batch and the state of git: it
    has only added, and it returns unless git cannot be started to
    initialize a repository that is not there yet. *)
Lemma format_course (a : nat) (options : FormatterOptions) (w : World) :
  let dir := join (cwd w) outputDirectory in
  grows dir w (snd (format a options w))
  /\ ((exists v, fst (format a options w) = Ok v)
      \/ (fst (format a options w) = Throw "spawn git ENOENT"
          /\ installed (git w) = false /\ ~ present dir w
          /\ default [] (arrays w !! a) <> []
          /\ dir ∈ files (snd (format a options w))
          /\ ~ present dir (snd (format a options w)))).
Proof.
  cbv zeta. set (dir := join (cwd w) outputDirectory).
  unfold format, bind. rewrite isGitAvailable_run. cbv beta iota. cbn [negb].
  unfold array_read, getenv, gets. cbv beta iota.
  change (arrays (with_git (called GitVersion) w)) with (arrays w).
  pose proof (grows_called dir GitVersion w) as G0.
  destruct (default [] (arrays w !! a)) as [|c0 cs0] eqn:Eitems.
  { cbn [List.length Nat.eqb]. unfold ret. cbn [fst snd]. split; [exact G0 | left; eauto]. }
  cbn [List.length Nat.eqb].
  change (cwd (with_git (called GitVersion) w)) with (cwd w). fold dir.
  set (w0 := with_git (called GitVersion) w) in *.
  destruct (grows_constructor dir w0) as (Gc & Hdir).
  rewrite constructor_run in *. cbn [snd] in Gc, Hdir. cbv beta iota.
  set (wc := if bool_decide (dir ∈ files w0) then w0
             else with_files (fun fs => {[dir]} ∪ fs) w0) in *.
  assert (Gwc : grows dir w wc) by (eapply grows_trans; [exact G0 | exact Gc]).
  destruct (grows_initializeRepository dir wc) as (Gi & Hres).
  destruct (initializeRepository (RepositoryManager.mk dir) wc) as [[isNew|e] w3];
    cbn [fst snd] in Gi, Hres; cbv beta iota.
  2:{ destruct Hres as [(isNew & E & _)|(E & Hi & Hp & Hf)]; [discriminate E|].
      injection E as ->. cbn [fst snd].
      split; [eapply grows_trans; [exact Gwc | exact Gi]|].
      right. split; [reflexivity|].
      split; [unfold wc in Hi; destruct (bool_decide (dir ∈ files w0)); exact Hi|].
      split; [intros Hpw; apply Hp; exact (grows_present _ _ _ Gwc Hpw)|].
      split; [discriminate|]. split; [rewrite Hf; exact Hdir|].
      unfold present in *. now rewrite Hf. }
  destruct Hres as [(isNew' & _ & Hp3)|(E & _)]; [|discriminate E].
  assert (Hcount : exists count w4,
            (if isNew : bool then ret 0%nat else getCommitCount (RepositoryManager.mk dir)) w3
            = (Ok count, w4) /\ grows dir w3 w4).
  { destruct isNew.
    - exists 0%nat, w3. split; [reflexivity | apply grows_refl].
    - rewrite getCommitCount_found. eexists. eexists. split; [reflexivity | apply grows_called]. }
  destruct Hcount as (count & w4 & -> & G4). cbv beta iota.
  unfold spread, Array_sort, bind, array_read, gets, modify, ret. cbv beta iota.
  match goal with |- context [commit_loop ?t ?an ?nm ?em ?tot ?l ?k ?w5] =>
    assert (G5 : grows dir w4 w5) by apply grows_copy;
    assert (G05 : grows dir w w5)
      by (eapply grows_trans; [exact Gwc|];
          eapply grows_trans; [exact Gi|]; eapply grows_trans; [exact G4 | exact G5]);
    assert (Hp5 : present dir w5)
      by (apply (grows_present dir w3 w5); [eapply grows_trans; [exact G4 | exact G5] | exact Hp3]);
    destruct (grows_commit_loop t an nm em tot l k w5 Hp5) as ((n' & En) & G6);
    destruct (commit_loop t an nm em tot l k w5) as [[n''|e] w6]; cbn [fst snd] in En, G6;
      [|discriminate En] end.
  cbv beta iota. rewrite getCommitCount_found. cbn [fst snd].
  split; [|left; eauto].
  eapply grows_trans; [exact G05|]. eapply grows_trans; [exact G6 | apply grows_called].
Qed.



End WithRuntime.
End GrowthFacts.

(** X18. An export only ever adds. Whatever the batch, the options and
    the state of git, and whether [format] returns or throws: the
    environment and the working directory are as before; every array of
    the caller holds the same contributions in the same order; no file has
    disappeared, and the only paths that may have appeared are the output
    directory and its control directory; the histories of all other
    repositories are unchanged, and the history of the output repository,
    the console and the list of tool invocations have only been appended
    to. *)
Theorem format_only_adds `{Runtime}
    (a : nat) (options : FormatterOptions) (w : World) :
  let dir := join (cwd w) outputDirectory in
  let w' := snd (format a options w) in
  env w' = env w /\ cwd w' = cwd w
  /\ (forall b cs, arrays w !! b = Some cs -> arrays w' !! b = Some cs)
  /\ files w ⊆ files w' /\ files w' ⊆ files w ∪ {[ dir; join dir ".git" ]}
  /\ (forall d, d <> dir -> history (git w') !! d = history (git w) !! d)
  /\ default [] (history (git w) !! dir) `prefix_of` default [] (history (git w') !! dir)
  /\ console w `prefix_of` console w'
  /\ calls (git w) `prefix_of` calls (git w').
Proof. exact (proj1 (GrowthFacts.format_course a options w)). Qed.

(** An export into a directory that lies inside another repository: the
    enclosing repository's control directory is still there. *)
Lemma format_only_adds_witness :
  let w := Scenario.nested Scenario.tool [Scenario.a_pull_request; Scenario.a_commit] in
  let w' := snd (format (H := IsoRuntime.runtime) 0 (mkOptions false None) w) in
  arrays w' !! 0%nat = Some [Scenario.a_pull_request; Scenario.a_commit]
  /\ "/home/dev/.git" ∈ files w'
  /\ history (git w') !! "/home/dev" = history (git w) !! "/home/dev".
Proof.
  cbv zeta.
  destruct (format_only_adds (H := IsoRuntime.runtime) 0 (mkOptions false None)
              (Scenario.nested Scenario.tool [Scenario.a_pull_request; Scenario.a_commit]))
    as (_ & _ & Harrays & Hfiles & _ & Hother & _).
  split; [|split].
  - apply Harrays. apply lookup_singleton_eq.
  - apply Hfiles.
    apply (bool_decide_eq_true_1 ("/home/dev/.git" ∈ files (Scenario.nested Scenario.tool _))).
    vm_compute. reflexivity.
  - apply Hother. discriminate.
Defined.



(** ** The console report *)
Module ReportFacts.
Import Js GitFormatter ConsoleFormatter ReportSpec.

Lemma fold_push {A B} (f : A -> B) (l : list A) (acc : list B) :
  fold_left (fun acc x => push acc (f x)) l acc = (acc ++ map f l)%list.
Proof.
  revert acc. induction l as [|x l IH]; intros acc; cbn [fold_left map].
  - now rewrite app_nil_r.
  - rewrite IH. unfold push. now rewrite <- app_assoc.
Qed.

Lemma NoDup_snoc {A} (l : list A) (x : A) :
  List.NoDup l -> ~ In x l -> List.NoDup (l ++ [x]).
Proof.
  induction 1 as [|y l Hy Hl IH]; intros Hx; cbn [app].
  - constructor; [intros [] | constructor].
  - constructor.
    + rewrite in_app_iff. intros [Hin|[->|[]]]; [contradiction | apply Hx; now left].
    + apply IH. intros Hin. apply Hx. now right.
Qed.

(** *** The map *)

Lemma Map_has_keys {V} (m : Map V) (key : string) :
  Map_has m key = true <-> In key (map fst m).
Proof.
  unfold Map_has. rewrite existsb_exists, in_map_iff. split.
  - intros (e & He & Heq). apply String.eqb_eq in Heq. eauto.
  - intros (e & Heq & He). exists e. split; [exact He | now apply String.eqb_eq].
Qed.

Lemma Map_update_keys {V} (m : Map V) (key : string) (f : V -> V) :
  map fst (Map_update m key f) = map fst m.
Proof.
  induction m as [|[k v] m IH]; [reflexivity|]. cbn [Map_update].
  destruct (String.eqb k key); cbn [map fst]; [reflexivity | now rewrite IH].
Qed.

(** With distinct keys, an update moves the one entry under the key. *)
Lemma Map_update_entries {V} (m : Map V) (key : string) (f : V -> V) (d : string) (g : V) :
  List.NoDup (map fst m) ->
  In (d, g) (Map_update m key f) <->
  (d <> key /\ In (d, g) m) \/ (d = key /\ exists g0, In (key, g0) m /\ g = f g0).
Proof.
  induction m as [|[k v] m IH]; intros Hnd; cbn [Map_update].
  - split; [intros [] | intros [[_ []]|[_ (g0 & [] & _)]]].
  - apply NoDup_cons_iff in Hnd as [Hk Hnd]. cbn [map fst] in Hk.
    destruct (String.eqb_spec k key) as [->|Hne]; cbn [In].
    + split.
      * intros [E|Hin].
        -- injection E as <- <-. right. split; [reflexivity|]. exists v. split; [now left | reflexivity].
        -- left. split; [|now right]. intros ->. apply Hk.
           apply in_map_iff. exists (key, g). split; [reflexivity | exact Hin].
      * intros [[Hd [E|Hin]]|[-> (g0 & [E|Hin] & ->)]].
        -- injection E as E _. congruence.
        -- now right.
        -- injection E as <-. now left.
        -- exfalso. apply Hk. apply in_map_iff. exists (key, g0). split; [reflexivity | exact Hin].
    + rewrite (IH Hnd). split.
      * intros [E|[[Hd Hin]|[-> (g0 & Hin & ->)]]].
        -- injection E as <- <-. left. split; [exact Hne | now left].
        -- left. split; [exact Hd | now right].
        -- right. split; [reflexivity|]. exists g0. split; [now right | reflexivity].
      * intros [[Hd [E|Hin]]|[-> (g0 & [E|Hin] & ->)]].
        -- now left.
        -- right. left. split; assumption.
        -- injection E as E _. congruence.
        -- right. right. split; [reflexivity|]. exists g0. split; [exact Hin | reflexivity].
Qed.

Lemma size_cons {A} (entry : string * list A) (m : Map (list A)) :
  size (entry :: m) = (List.length (snd entry) + size m)%nat.
Proof. reflexivity. Qed.

Lemma size_app {A} (m1 m2 : Map (list A)) :
  size (m1 ++ m2)%list = (size m1 + size m2)%nat.
Proof. unfold size. now rewrite map_app, list_sum_app. Qed.

Lemma size_push {A} (m : Map (list A)) (key : string) (x : A) :
  In key (map fst m) ->
  size (Map_update m key (fun list => push list x)) = S (size m).
Proof.
  induction m as [|[k v] m IH]; intros Hin; [destruct Hin|]. cbn [Map_update].
  destruct (String.eqb_spec k key) as [->|Hne]; rewrite !size_cons; cbn [snd].
  - unfold push. rewrite length_app. cbn [List.length]. lia.
  - destruct Hin as [E|Hin]; [cbn in E; congruence|]. rewrite (IH Hin). lia.
Qed.

Section WithRuntime.
Context `{Runtime} `{Calendar}.

Lemma on_day_app (day : string) (l1 l2 : list Contribution) :
  on_day day (l1 ++ l2) = (on_day day l1 ++ on_day day l2)%list.
Proof. apply List.filter_app. Qed.

Lemma on_day_none (day : string) (l : list Contribution) :
  (forall c, In c l -> utc_day (timestamp c) <> day) -> on_day day l = [].
Proof.
  induction l as [|c l IH]; intros Hn; [reflexivity|]. cbn [on_day List.filter].
  destruct (String.eqb_spec (utc_day (timestamp c)) day) as [E|_].
  - exfalso. apply (Hn c); [now left | exact E].
  - apply IH. intros c' Hc'. apply Hn. now right.
Qed.

Lemma enter_grouped (l : list Contribution) (m : Map (list Contribution))
    (item : Contribution) :
  grouped l m -> grouped (l ++ [item]) (enter m item).
Proof.
  intros (Hnd & Hgroups & Hdays & Hsize). unfold enter. cbv zeta.
  set (date := utc_day (timestamp item)).
  assert (Hitem : on_day date [item] = [item]).
  { cbn [on_day List.filter]. unfold date. now rewrite String.eqb_refl. }
  assert (Hother : forall day, day <> date -> on_day day [item] = []).
  { intros day Hne. cbn [on_day List.filter]. fold date.
    destruct (String.eqb_spec date day); [congruence | reflexivity]. }
  destruct (Map_has m date) eqn:Ehas; cbn [negb].
  - (* the day has its entry *)
    apply Map_has_keys in Ehas.
    split; [now rewrite Map_update_keys|]. split; [|split].
    + intros day group Hin. apply (Map_update_entries _ _ _ _ _ Hnd) in Hin.
      rewrite on_day_app.
      destruct Hin as [[Hne Hin]|[-> (g0 & Hin & ->)]].
      * destruct (Hgroups day group Hin) as [Hg ->].
        rewrite (Hother day Hne), app_nil_r. split; [exact Hg | reflexivity].
      * destruct (Hgroups date g0 Hin) as [_ ->]. rewrite Hitem. unfold push.
        split; [now destruct (on_day date l) | reflexivity].
    + intros c Hc. rewrite Map_update_keys. apply in_app_iff in Hc as [Hc|[<-|[]]];
        [now apply Hdays | exact Ehas].
    + rewrite size_push by exact Ehas. rewrite length_app, Hsize. cbn [List.length]. lia.
  - (* the day is new *)
    assert (Hnew : ~ In date (map fst m))
      by (intros Hin; apply Map_has_keys in Hin; congruence).
    assert (Hset : Map_set m date [] = (m ++ [(date, [])])%list)
      by (unfold Map_set; now rewrite Ehas).
    rewrite Hset.
    assert (Hnd' : List.NoDup (map fst (m ++ [(date, @nil Contribution)])))
      by (rewrite map_app; now apply NoDup_snoc).
    assert (Hkey : In date (map fst (m ++ [(date, @nil Contribution)])))
      by (rewrite map_app, in_app_iff; right; now left).
    split; [now rewrite Map_update_keys|]. split; [|split].
    + intros day group Hin. apply (Map_update_entries _ _ _ _ _ Hnd') in Hin.
      rewrite on_day_app.
      destruct Hin as [[Hne Hin]|[-> (g0 & Hin & ->)]].
      * apply in_app_iff in Hin as [Hin|[E|[]]]; [|injection E as E _; congruence].
        destruct (Hgroups day group Hin) as [Hg ->].
        rewrite (Hother day Hne), app_nil_r. split; [exact Hg | reflexivity].
      * apply in_app_iff in Hin as [Hin|[E|[]]].
        -- exfalso. apply Hnew. apply in_map_iff. exists (date, g0). now split.
        -- injection E as <-. rewrite Hitem, on_day_none; [split; [discriminate | reflexivity]|].
           intros c Hc E. apply Hnew. rewrite <- E. now apply Hdays.
    + intros c Hc. rewrite Map_update_keys, map_app, in_app_iff.
      apply in_app_iff in Hc as [Hc|[<-|[]]]; [left; now apply Hdays | right; now left].
    + rewrite size_push by exact Hkey. rewrite size_app, length_app, Hsize. cbn. lia.
Qed.

Lemma by_date_grouped (l : list Contribution) : grouped l (by_date l).
Proof.
  unfold by_date. fold enter.
  assert (Hgen : forall l0 m, grouped l0 m -> grouped (l0 ++ l) (fold_left enter l m)).
  { induction l as [|x l IH]; intros l0 m Hg; cbn [fold_left].
    - now rewrite app_nil_r.
    - replace (l0 ++ x :: l)%list with ((l0 ++ [x]) ++ l)%list by now rewrite <- app_assoc.
      apply IH. now apply enter_grouped. }
  apply (Hgen [] []).
  split; [constructor|]. split; [intros ? ? []|]. split; [intros ? [] | reflexivity].
Qed.

(** The lines: for each day its header, then its contributions. *)
Lemma format_sections (cs : list Contribution) (options : FormatterOptions) :
  cs <> [] ->
  content (format cs options)
  = String.concat nl (flat_map (section options) (by_date (sort_list by_timestamp cs))).
Proof.
  intros Hne. unfold format. destruct cs as [|c cs]; [congruence|]. cbn [List.length Nat.eqb content].
  f_equal.
  generalize (by_date (sort_list by_timestamp (c :: cs))). intros m.
  assert (Hgen : forall acc,
    fold_left (fun lines entry =>
                 let lines := push lines (nl ++ "## " ++ fst entry) in
                 fold_left (fun lines contribution => push lines (line options contribution))
                   (snd entry) lines) m acc
    = (acc ++ flat_map (section options) m)%list).
  { induction m as [|e m IH]; intros acc; cbn [fold_left flat_map].
    - now rewrite app_nil_r.
    - cbv zeta. rewrite IH, fold_push. unfold section at 2, header, push.
      cbn [app]. now rewrite <- !app_assoc. }
  apply (Hgen []).
Qed.

Lemma sections_length (options : FormatterOptions) (m : Map (list Contribution)) :
  List.length (flat_map (section options) m) = (List.length m + size m)%nat.
Proof.
  induction m as [|e m IH]; [reflexivity|].
  cbn [flat_map]. rewrite length_app, IH, ReportFacts.size_cons. unfold section.
  cbn [List.length]. rewrite length_map. lia.
Qed.

End WithRuntime.
End ReportFacts.

(** ** Reports of transformed batches *)
Module TransformFacts.
Import Js GitFormatter ConsoleFormatter ReportSpec.

Lemma Map_has_map {V W} (g : V -> W) (m : Map V) (key : string) :
  Map_has (map (fun entry => (fst entry, g (snd entry))) m) key = Map_has m key.
Proof.
  unfold Map_has. induction m as [|[k v] m IH]; [reflexivity|].
  cbn [map existsb fst snd]. now rewrite IH.
Qed.

Lemma Map_update_map {V W} (g : V -> W) (m : Map V) (key : string)
    (u : V -> V) (u' : W -> W) :
  (forall v, g (u v) = u' (g v)) ->
  Map_update (map (fun entry => (fst entry, g (snd entry))) m) key u'
  = map (fun entry => (fst entry, g (snd entry))) (Map_update m key u).
Proof.
  intros Hu. induction m as [|[k v] m IH]; [reflexivity|].
  cbn [map Map_update fst snd]. destruct (String.eqb k key); cbn [map fst snd].
  - now rewrite Hu.
  - now rewrite IH.
Qed.

Section WithRuntime.
Context `{Runtime} `{Calendar}.

Variable f : Contribution -> Contribution.
Hypothesis same_instant : forall c, timestamp (f c) = timestamp c.

Lemma insert_sorted_map (x : Contribution) (l : list Contribution) :
  insert_sorted by_timestamp (f x) (map f l) = map f (insert_sorted by_timestamp x l).
Proof.
  induction l as [|y l IH]; [reflexivity|]. cbn [map insert_sorted].
  replace (by_timestamp (f x) (f y)) with (by_timestamp x y)
    by (unfold by_timestamp; now rewrite !same_instant).
  destruct (sorts_after (by_timestamp x y)); cbn [map]; [now rewrite IH | reflexivity].
Qed.

Lemma sort_list_map (l : list Contribution) :
  sort_list by_timestamp (map f l) = map f (sort_list by_timestamp l).
Proof.
  induction l as [|x l IH]; [reflexivity|].
  cbn [map sort_list fold_right]. fold (sort_list by_timestamp (map f l)).
  fold (sort_list by_timestamp l). now rewrite IH, insert_sorted_map.
Qed.

Lemma enter_map (m : Map (list Contribution)) (x : Contribution) :
  enter (map (fun entry => (fst entry, map f (snd entry))) m) (f x)
  = map (fun entry => (fst entry, map f (snd entry))) (enter m x).
Proof.
  unfold enter. cbv zeta. rewrite same_instant, Map_has_map.
  assert (Hpush : forall v : list Contribution, map f (push v x) = push (map f v) (f x))
    by (intros v; unfold push; now rewrite map_app).
  destruct (Map_has m (utc_day (timestamp x))) eqn:Ehas; cbn [negb].
  - now apply Map_update_map.
  - unfold Map_set. rewrite Map_has_map, Ehas.
    replace (push (map (fun entry => (fst entry, map f (snd entry))) m)
               (utc_day (timestamp x), []))
      with (map (fun entry => (fst entry, map f (snd entry)))
              (push m (utc_day (timestamp x), [])))
      by (unfold push; now rewrite map_app).
    now apply Map_update_map.
Qed.

Lemma by_date_map (l : list Contribution) :
  by_date (map f l) = map (fun entry => (fst entry, map f (snd entry))) (by_date l).
Proof.
  unfold by_date. fold enter.
  assert (Hgen : forall m,
    fold_left enter (map f l) (map (fun entry => (fst entry, map f (snd entry))) m)
    = map (fun entry => (fst entry, map f (snd entry))) (fold_left enter l m)).
  { induction l as [|x l IH]; intros m; [reflexivity|].
    cbn [map fold_left]. now rewrite enter_map, IH. }
  apply (Hgen []).
Qed.

(** A transformation that keeps the timestamps and, under [options'],
    gives the lines that the originals have under [options], gives the
    same report. *)
Lemma format_map (options options' : FormatterOptions) (cs : list Contribution) :
  (forall c, line options' (f c) = line options c) ->
  ConsoleFormatter.format (map f cs) options' = ConsoleFormatter.format cs options.
Proof.
  intros Hline.
  assert (Hc : content (ConsoleFormatter.format (map f cs) options')
               = content (ConsoleFormatter.format cs options)).
  { destruct cs as [|c cs]; [reflexivity|].
    rewrite (ReportFacts.format_sections (map f (c :: cs)) options') by discriminate.
    rewrite (ReportFacts.format_sections (c :: cs) options) by discriminate.
    rewrite sort_list_map, by_date_map. f_equal.
    generalize (by_date (sort_list by_timestamp (c :: cs))). intros m.
    induction m as [|e m IH]; [reflexivity|].
    cbn [map flat_map]. rewrite IH. f_equal.
    unfold section. cbn [fst snd]. f_equal.
    rewrite map_map. apply map_ext. exact Hline. }
  destruct (ConsoleFormatter.format (map f cs) options'),
    (ConsoleFormatter.format cs options).
  cbn [content] in Hc. now rewrite Hc.
Qed.

End WithRuntime.
End TransformFacts.

(** ** Sorting, whatever the timestamps *)
Module OrderFacts.
Import Js GitFormatter FormatSpec.

Section WithRuntime.
Context `{Runtime}.

Lemma sort_list_undated (l : list Contribution) :
  Forall (fun c => dayjs_valueOf (timestamp c) = None) l -> sort_list by_timestamp l = l.
Proof.
  induction 1 as [|x l Hx _ IH]; [reflexivity|].
  cbn [sort_list fold_right]. fold (sort_list by_timestamp l). rewrite IH.
  destruct l as [|y l]; [reflexivity|]. cbn [insert_sorted].
  unfold by_timestamp. now rewrite Hx.
Qed.

Lemma sort_list_ascending (l : list Contribution) :
  Forall dated l -> StronglySorted not_later l -> sort_list by_timestamp l = l.
Proof.
  intros Hd Hs. induction Hs as [|x l Hs IH Hall]; [reflexivity|].
  apply Forall_cons_1 in Hd as [Hx Hd].
  cbn [sort_list fold_right]. fold (sort_list by_timestamp l). rewrite (IH Hd).
  destruct l as [|y l]; [reflexivity|]. cbn [insert_sorted].
  apply Forall_cons_1 in Hd as [Hy _]. apply Forall_cons_1 in Hall as [Hxy _].
  rewrite (SortFacts.sorts_after_instant x y Hx Hy).
  unfold not_later in Hxy. destruct (Z.ltb_spec (instant y) (instant x)); [lia | reflexivity].
Qed.

End WithRuntime.
End OrderFacts.

(** X19. The sort by timestamp never loses or duplicates a
    contribution: the sorted copy is a rearrangement of the batch, whatever
    the timestamps. A batch none of whose timestamps dayjs can read is left
    in its order (the comparator gives NaN throughout), a batch with
    readable timestamps that is already in ascending order is left as it
    is, and sorting a sorted batch again changes nothing. *)
Theorem sort_rearranges `{Runtime} (cs : list Contribution) :
  Permutation (sort_list by_timestamp cs) cs
  /\ (Forall (fun c => dayjs_valueOf (timestamp c) = None) cs -> sort_list by_timestamp cs = cs)
  /\ (Forall dated cs -> StronglySorted not_later cs -> sort_list by_timestamp cs = cs)
  /\ (Forall dated cs ->
      sort_list by_timestamp (sort_list by_timestamp cs) = sort_list by_timestamp cs).
Proof.
  split; [apply SortFacts.sort_list_permutation|].
  split; [apply OrderFacts.sort_list_undated|].
  split; [apply OrderFacts.sort_list_ascending|].
  intros Hd. apply OrderFacts.sort_list_ascending.
  - now rewrite SortFacts.sort_list_permutation.
  - now apply SortFacts.sort_list_stable_ascending.
Qed.

Lemma sort_rearranges_witness :
  let undated := mkContribution "commit" "yesterday" None None None None None in
  sort_list (by_timestamp (H := IsoRuntime.runtime)) [undated; undated] = [undated; undated]
  /\ sort_list (by_timestamp (H := IsoRuntime.runtime))
       [Scenario.a_commit; Scenario.a_pull_request]
     = [Scenario.a_commit; Scenario.a_pull_request].
Proof.
  cbv zeta. split.
  - apply (proj1 (proj2 (sort_rearranges (H := IsoRuntime.runtime) _))).
    repeat constructor.
  - apply (proj1 (proj2 (proj2 (sort_rearranges (H := IsoRuntime.runtime) _)))).
    + repeat constructor; eexists; vm_compute; reflexivity.
    + repeat constructor; unfold not_later; vm_compute; discriminate.
Defined.

Import ReportSpec.

(** X20. The console report of a batch that is not empty and whose
    timestamps dayjs can read is made of one
    section per calendar day (UTC) on which there is a contribution: the
    days are distinct, each section is the header "## day" followed by one
    line for each contribution of that day, in the order of the sorted
    batch, and every contribution of the batch is under its day. The
    report thus has as many lines as there are days and contributions
    together. An empty batch gives the sentence "No contributions found in
    this range" instead. *)
Theorem report_groups_by_day `{Runtime} `{ConsoleFormatter.Calendar}
    (cs : list Contribution) (options : FormatterOptions) :
  cs <> [] -> Forall dated cs ->
  let sorted := sort_list by_timestamp cs in
  exists groups,
    content (ConsoleFormatter.format cs options)
    = String.concat nl (flat_map (section options) groups)
    /\ List.NoDup (map fst groups)
    /\ (forall day group, In (day, group) groups -> group <> [] /\ group = on_day day sorted)
    /\ (forall c, In c cs -> In (ConsoleFormatter.utc_day (timestamp c)) (map fst groups))
    /\ List.length (flat_map (section options) groups)
       = (List.length groups + List.length cs)%nat
    /\ content (ConsoleFormatter.format [] options) = "No contributions found in this range".
Proof.
  intros Hne _. cbv zeta.
  exists (ConsoleFormatter.by_date (sort_list by_timestamp cs)).
  destruct (ReportFacts.by_date_grouped (sort_list by_timestamp cs))
    as (Hnd & Hgroups & Hdays & Hsize).
  split; [now apply ReportFacts.format_sections|].
  split; [exact Hnd|]. split; [exact Hgroups|]. split; [|split; [|reflexivity]].
  - intros c Hc. apply Hdays.
    apply (Permutation_in c (Permutation_sym (SortFacts.sort_list_permutation by_timestamp cs))).
    exact Hc.
  - rewrite ReportFacts.sections_length, Hsize.
    now rewrite (Permutation_length (SortFacts.sort_list_permutation by_timestamp cs)).
Qed.

Lemma report_groups_by_day_witness :
  let cs := [Scenario.a_review; Scenario.a_commit; Scenario.a_pull_request] in
  let options := mkOptions false None in
  exists groups,
    content (ConsoleFormatter.format (H := IsoRuntime.runtime) (H0 := IsoCalendar.calendar)
               cs options)
    = String.concat nl
        (flat_map (section (H0 := IsoCalendar.calendar) options) groups)
    /\ List.NoDup (map fst groups)
    /\ List.length (flat_map (section (H0 := IsoCalendar.calendar) options) groups)
       = (List.length groups + 3)%nat.
Proof.
  cbv zeta.
  destruct (report_groups_by_day (H := IsoRuntime.runtime) (H0 := IsoCalendar.calendar)
              [Scenario.a_review; Scenario.a_commit; Scenario.a_pull_request]
              (mkOptions false None) ltac:(discriminate))
    as (groups & Hcontent & Hdays & _ & _ & Hlength & _);
    [repeat constructor; eexists; vm_compute; reflexivity|].
  exists groups. split; [exact Hcontent|]. split; [exact Hdays | exact Hlength].
Defined.

(** A review on the 3rd, a commit on the 1st and a pull request on the 2nd
    of January: three sections, in the order of the days. *)
Example report_three_days :
  content (ConsoleFormatter.format (H := IsoRuntime.runtime) (H0 := IsoCalendar.calendar)
             [Scenario.a_review; Scenario.a_commit; Scenario.a_pull_request]
             (mkOptions false None))
  = String.concat nl
      [ nl ++ "## 2026-01-01"; "commit: 10:00:00: [owner/repo]: feat: add feature";
        nl ++ "## 2026-01-02"; "pr: 12:00:00: [owner/repo]: (main): Fix bug";
        nl ++ "## 2026-01-03"; "review: 09:30:00: [owner/repo]: LGTM" ].
Proof. vm_compute. reflexivity. Qed.

(** X21. In the console report, anonymization acts field by field, as in
    the commit messages: the report with anonymization on is the report
    with anonymization off of the batch whose repository names and texts
    have been replaced by their anonymized forms. Types, timestamps,
    project ids, target branches and, when links are shown, the URLs are
    printed in clear. *)
Theorem report_anonymizes_fieldwise `{Runtime} `{ConsoleFormatter.Calendar}
    (cs : list Contribution) (options : FormatterOptions) :
  default false (anonymize options) = true ->
  ConsoleFormatter.format cs options
  = ConsoleFormatter.format (map anonymized cs) (mkOptions (withLinks options) (Some false))
  /\ Forall (fun c => url (anonymized c) = url c /\ target (anonymized c) = target c
                      /\ projectId (anonymized c) = projectId c) cs.
Proof.
  intros Hon. split; [|apply Forall_forall; intros c _; repeat split].
  symmetry. apply TransformFacts.format_map; [reflexivity|].
  intros c. unfold ConsoleFormatter.line, anonymized. rewrite Hon.
  cbn [type timestamp repository projectId target text url anonymize withLinks default
         from_option id].
  destruct (truthy (repository c)) eqn:Er, (truthy (text c)) eqn:Et;
    rewrite ?FieldFacts.truthy_anonymizeRepository, ?FieldFacts.truthy_anonymizeMessage,
      ?Er, ?Et; reflexivity.
Qed.

Lemma report_anonymizes_fieldwise_witness :
  content (ConsoleFormatter.format (H := IsoRuntime.runtime) (H0 := IsoCalendar.calendar)
             [mkContribution "pr" "2026-01-02T12:00:00Z" (Some "owner/repo") None (Some "main")
                (Some "Fix bug") (Some "https://example.com/owner/repo/pull/1")]
             (mkOptions true (Some true)))
  = String.concat nl
      [ nl ++ "## 2026-01-02";
        "pr: 12:00:00: [repo_65e817ee]: (main): hash_f4af3e2a: "
          ++ "(https://example.com/owner/repo/pull/1)" ].
Proof.
  rewrite (proj1 (report_anonymizes_fieldwise (H := IsoRuntime.runtime)
                    (H0 := IsoCalendar.calendar) _ (mkOptions true (Some true)) eq_refl)).
  vm_compute. reflexivity.
Defined.

(** X22. Without the links option the console report does not depend on
    the URLs: two batches that agree on everything but the URLs of their
    contributions give the same report. *)
Theorem report_without_links `{Runtime} `{ConsoleFormatter.Calendar}
    (cs cs' : list Contribution) (options : FormatterOptions) :
  withLinks options = false -> map unlinked cs = map unlinked cs' ->
  ConsoleFormatter.format cs options = ConsoleFormatter.format cs' options.
Proof.
  intros Hoff Hsame.
  assert (Hline : forall c, ConsoleFormatter.line options (unlinked c)
                            = ConsoleFormatter.line options c)
    by (intros c; unfold ConsoleFormatter.line, unlinked; rewrite Hoff; reflexivity).
  rewrite <- (TransformFacts.format_map unlinked (fun _ => eq_refl) options options cs Hline).
  rewrite <- (TransformFacts.format_map unlinked (fun _ => eq_refl) options options cs' Hline).
  now rewrite Hsame.
Qed.

Lemma report_without_links_witness :
  ConsoleFormatter.format (H := IsoRuntime.runtime) (H0 := IsoCalendar.calendar)
    [mkContribution "pr" "2026-01-02T12:00:00Z" (Some "owner/repo") None (Some "main")
       (Some "Fix bug") (Some "https://example.com/owner/repo/pull/1")]
    (mkOptions false None)
  = ConsoleFormatter.format (H := IsoRuntime.runtime) (H0 := IsoCalendar.calendar)
      [Scenario.a_pull_request] (mkOptions false None).
Proof.
  apply report_without_links; reflexivity.
Defined.

(** ** Configuration and invocations *)
Module ProtocolFacts.
Import Js GitFormatter FormatSpec ProtocolSpec RepositoryFacts.

Section WithRuntime.
Context `{Runtime}.

Lemma createCommit_config (this : RepositoryManager.t) (options : CommitOptions) (w : World) :
  config (git (snd (createCommit this options w))) = config (git w).
Proof.
  destruct (date options) as [t|] eqn:Hd.
  - rewrite (ManagerFacts.createCommit_cases this options w t Hd). cbv zeta.
    destruct (installed (git w));
      [destruct (discover (String.length (repositoryPath this)) (repositoryPath this)
                   (files w));
         [destruct (commit_fault (git w) (commit_runs (git w)))|]|];
      reflexivity.
  - now rewrite createCommit_invalid_date.
Qed.

Lemma commit_loop_config (this : RepositoryManager.t) (anonymize : bool)
    (name email : string) (total : nat) (l : list Contribution) :
  forall (n : nat) (w : World),
    config (git (snd (commit_loop this anonymize name email total l n w))) = config (git w).
Proof.
  induction l as [|c rest IH]; intros n w; [reflexivity|].
  rewrite ExportFacts.commit_loop_cons.
  pose proof (createCommit_config this
                (mkCommitOptions (buildCommitMessage c anonymize) name email
                   (Date_parse (timestamp c))) w) as Hstep.
  destruct (createCommit this _ w) as [[[]|reason] w1]; cbn [snd] in Hstep.
  - rewrite IH. destruct (S n mod 100 =? 0)%nat; exact Hstep.
  - rewrite IH. exact Hstep.
Qed.

(** The configuration after a successful export. *)
Lemma format_config (a : nat) (options : FormatterOptions) (w : World)
    (cs : list Contribution) :
  installed (git w) = true -> arrays w !! a = Some cs -> cs <> [] ->
  let dir := join (cwd w) outputDirectory in
  config (git (snd (format a options w)))
  = if bool_decide (present dir w) then config (git w) else unsigned dir (config (git w)).
Proof.
  intros Hi Ha Hne. cbv zeta.
  set (dir := join (cwd w) outputDirectory).
  unfold format, bind. rewrite isGitAvailable_run. cbv beta iota. cbn [negb].
  unfold array_read, getenv, gets. cbv beta iota.
  change (arrays (with_git (called GitVersion) w)) with (arrays w). rewrite Ha.
  destruct cs as [|c0 cs0] eqn:Ecs; [congruence|]. rewrite <- Ecs in *. clear Hne.
  replace (List.length (default [] (Some cs)) =? 0)%nat with false by (now rewrite Ecs).
  change (cwd (with_git (called GitVersion) w)) with (cwd w).
  fold dir. rewrite constructor_run. cbv beta iota.
  set (w0 := with_git (called GitVersion) w).
  set (wc := if bool_decide (dir ∈ files w0) then w0 else with_files (fun fs => {[dir]} ∪ fs) w0).
  assert (Hwc : config (git wc) = config (git w) /\ installed (git wc) = true
                /\ (present dir wc <-> present dir w)).
  { unfold wc. destruct (bool_decide (dir ∈ files w0)); repeat split; try assumption; try tauto.
    - unfold present. simpl. intros Hp. apply elem_of_union in Hp as [Hp|Hp]; [|exact Hp].
      apply elem_of_singleton in Hp. now apply FormatFacts.control_directory_distinct in Hp.
    - unfold present. simpl. intros Hp. apply elem_of_union. now right. }
  destruct Hwc as (Cc & Ic & Pc).
  assert (Hinit : exists isNew w' count w3,
    initializeRepository (RepositoryManager.mk dir) wc = (Ok isNew, w')
    /\ (if isNew : bool then ret 0%nat else getCommitCount (RepositoryManager.mk dir)) w'
       = (Ok count, w3)
    /\ config (git w3)
       = if bool_decide (present dir w) then config (git w) else unsigned dir (config (git w))).
  { destruct (decide (present dir w)) as [Hp|Hp].
    - rewrite (bool_decide_eq_true_2 _ Hp). exists false, wc. eexists. eexists.
      split; [apply initializeRepository_present; now apply Pc|].
      split; [apply getCommitCount_found | exact Cc].
    - rewrite (bool_decide_eq_false_2 _ Hp).
      exists true, (initialized dir wc), 0%nat, (initialized dir wc).
      split; [rewrite initializeRepository_absent by (cbn [repositoryPath]; tauto);
              now rewrite Ic|].
      split; [reflexivity|].
      unfold initialized, unsigned. simpl. now rewrite Cc. }
  destruct Hinit as (isNew & w' & count & w3 & -> & Hb & C3). cbv beta iota.
  rewrite Hb. clear Hb. cbv beta iota.
  unfold spread, Array_sort, bind, array_read, gets, modify, ret. cbv beta iota.
  match goal with |- context [commit_loop ?t ?an ?nm ?em ?tot ?l ?k ?w1] =>
    pose proof (commit_loop_config t an nm em tot l k w1) as C4;
    destruct (LoopFacts.commit_loop_frame t an nm em tot l k w1)
      as (n & w2 & E & _) end.
  rewrite E in *. cbn [snd] in C4. cbv beta iota. rewrite getCommitCount_found. cbn [snd fst].
  change (config (git (with_git (called ?c) ?x))) with (config (git x)).
  rewrite C4. exact C3.
Qed.

Lemma attempted_readable (l : list Contribution) : attempted l = List.filter readable l.
Proof.
  induction l as [|c l IH]; [reflexivity|]. cbn [attempted List.filter]. unfold readable at 1.
  destruct (Date_parse (timestamp c)); now rewrite IH.
Qed.

End WithRuntime.
End ProtocolFacts.

Import ProtocolSpec.

(** X23. An export switches commit signing off exactly when it creates
    the repository. If the control directory was absent, the configuration
    afterwards is the one from before with commit.gpgsign set to "false"
    for the output repository; if the repository was already there, the
    configuration is not touched at all. In both cases the repository is
    present afterwards. *)
Theorem format_signing `{Runtime}
    (a : nat) (options : FormatterOptions) (w : World) (cs : list Contribution) :
  installed (git w) = true -> arrays w !! a = Some cs -> cs <> [] ->
  let dir := join (cwd w) outputDirectory in
  let w' := snd (format a options w) in
  (present dir w -> config (git w') = config (git w))
  /\ (~ present dir w -> config (git w') = unsigned dir (config (git w)))
  /\ present dir w'.
Proof.
  intros Hi Ha Hne. cbv zeta.
  rewrite (ProtocolFacts.format_config a options w cs Hi Ha Hne).
  split; [|split].
  - intros Hp. now rewrite (bool_decide_eq_true_2 _ Hp).
  - intros Hp. now rewrite (bool_decide_eq_false_2 _ Hp).
  - apply (OutcomeFacts.format_again a options w cs Hi Ha Hne).
Qed.

Lemma format_signing_witness :
  let w := Scenario.nested Scenario.tool [Scenario.a_commit] in
  let w' := snd (format (H := IsoRuntime.runtime) 0 (mkOptions false None) w) in
  let w'' := snd (format (H := IsoRuntime.runtime) 0 (mkOptions false None) w') in
  config (git w') !! (Scenario.export_dir, "commit.gpgsign") = Some "false"
  /\ config (git w'') = config (git w').
Proof.
  cbv zeta.
  destruct (format_signing (H := IsoRuntime.runtime) 0 (mkOptions false None)
              (Scenario.nested Scenario.tool [Scenario.a_commit]) [Scenario.a_commit]
              eq_refl (lookup_singleton_eq _ _) ltac:(discriminate))
    as (_ & Hnew & Hp).
  destruct (OutcomeFacts.format_again (H := IsoRuntime.runtime) 0 (mkOptions false None)
              (Scenario.nested Scenario.tool [Scenario.a_commit]) [Scenario.a_commit]
              eq_refl (lookup_singleton_eq _ _) ltac:(discriminate))
    as (Hi1 & Ha1 & Hc1 & _).
  split.
  - rewrite Hnew.
    + apply lookup_insert_eq.
    + apply (bool_decide_eq_false_1 (present _ _)). vm_compute. reflexivity.
  - refine (proj1 (format_signing (H := IsoRuntime.runtime) 0 (mkOptions false None) _
                     [Scenario.a_commit] Hi1 Ha1 ltac:(discriminate)) _).
    rewrite Hc1. exact Hp.
Defined.

(** X24. What an export asks of git, in full: the version probe; then,
    if the repository is already there, its commit count, and otherwise its
    initialization and the configuration write; then one commit invocation
    for each contribution whose date [Date] can read, each with exactly the
    arguments commit, --allow-empty, --message and the message, --author
    and "name <email>"; and last the commit count. A contribution with an
    unreadable date causes no invocation at all. When dayjs reads every
    timestamp of the batch, the commit invocations come in the order of the
    sorted batch. *)
Theorem format_invocations `{Runtime}
    (a : nat) (options : FormatterOptions) (w : World) (cs : list Contribution) :
  installed (git w) = true -> arrays w !! a = Some cs -> cs <> [] ->
  let dir := join (cwd w) outputDirectory in
  let anon := default false (anonymize options) in
  let w' := snd (format a options w) in
  exists commits,
    calls (git w') = (calls (git w) ++ prelude dir w ++ commits ++ [GitLog dir])%list
    /\ Permutation commits
         (map (raw_call dir (author_name w) (author_email w) anon) (List.filter readable cs))
    /\ (Forall dated cs ->
        commits = commit_calls dir (author_name w) (author_email w) anon cs)
    /\ Forall (fun call =>
         exists c, In c cs /\ readable c = true
                   /\ call = GitRaw dir
                               ["commit"; "--allow-empty"; "--message";
                                buildCommitMessage c anon;
                                "--author"; author_name w ++ " <" ++ author_email w ++ ">"])
         commits.
Proof.
  intros Hi Ha Hne. cbv zeta.
  destruct (FormatFacts.format_outcome a options w cs Hi Ha Hne)
    as (r & w' & E & _ & Hcalls & _).
  rewrite E. cbn [snd].
  exists (commit_calls (join (cwd w) outputDirectory) (author_name w) (author_email w)
            (default false (anonymize options)) cs).
  unfold commit_calls.
  pose proof (SortFacts.sort_list_permutation (by_timestamp) cs) as Hperm.
  split; [|split; [|split]].
  - now rewrite Hcalls, ProtocolFacts.attempted_readable.
  - apply Permutation_map.
    clear -Hperm. induction Hperm as [|x l l' _ IH|x y l|l l' l'' _ IH1 _ IH2];
      cbn [List.filter].
    + constructor.
    + destruct (readable x); [now constructor | exact IH].
    + destruct (readable x), (readable y); try reflexivity. apply perm_swap.
    + now transitivity (List.filter readable l').
  - reflexivity.
  - apply Forall_forall. intros call Hcall.
    apply list_elem_of_In, in_map_iff in Hcall as (c & <- & Hc).
    apply filter_In in Hc as [Hc Hr].
    exists c. split; [|split; [exact Hr | reflexivity]].
    eapply Permutation_in; [exact Hperm | exact Hc].
Qed.

(** Three contributions, one of them with a date that cannot be read: the
    probe, the initialization, the configuration, two commits, the count. *)
Lemma format_invocations_witness :
  let undated := mkContribution "commit" "yesterday" None None None (Some "x") None in
  let w := Scenario.nested Scenario.tool [Scenario.a_pull_request; undated; Scenario.a_commit] in
  let w' := snd (format (H := IsoRuntime.runtime) 0 (mkOptions false None) w) in
  List.length (calls (git w')) = 6.
Proof.
  cbv zeta.
  destruct (format_invocations (H := IsoRuntime.runtime) 0 (mkOptions false None)
              (Scenario.nested Scenario.tool
                 [Scenario.a_pull_request;
                  mkContribution "commit" "yesterday" None None None (Some "x") None;
                  Scenario.a_commit])
              [Scenario.a_pull_request;
               mkContribution "commit" "yesterday" None None None (Some "x") None;
               Scenario.a_commit]
              eq_refl (lookup_singleton_eq _ _) ltac:(discriminate))
    as (commits & Hcalls & Hperm & _).
  rewrite Hcalls, !length_app, (Permutation_length Hperm). vm_compute. reflexivity.
Defined.
